(** * The /plan pipeline of the Todoist daily agent: a shallow embedding

    The handler under verification is the route module of the worker
    (intent classification, scenario selection, plan generation,
    normalisation of the planned tasks, sequential synchronisation, and the
    NDJSON event stream).  JavaScript strings are sequences of UTF-16 code
    units; numbers that the code only ever handles as integers are [Z];
    [undefined] is [None]; a thrown exception is the [Threw] branch of
    [Outcome]. *)

From Stdlib Require Import List ZArith NArith Bool String Ascii QArith Lia.
Import ListNotations.
Open Scope Z_scope.
Set Warnings "-register-all".

(** ** JavaScript strings *)

Module JS.

Definition JSString := list N.

(** Embedding of an ASCII literal of the source. *)
Definition js (s : string) : JSString :=
  map N_of_ascii (list_ascii_of_string s).

Fixpoint eqb (a b : JSString) : bool :=
  match a, b with
  | [], [] => true
  | x :: a', y :: b' => N.eqb x y && eqb a' b'
  | _, _ => false
  end.

(** [Boolean(s)] for a string: only the empty string is falsy. *)
Definition truthy (s : JSString) : bool :=
  match s with [] => false | _ :: _ => true end.

(** ECMAScript WhiteSpace and LineTerminator code units: the class [\s] of a
    regular expression without the [u] flag, and what [trim] removes. *)
Definition isWhiteSpace (c : N) : bool :=
  ((9 <=? c) && (c <=? 13) || (c =? 32) || (c =? 160) || (c =? 5760)
   || (8192 <=? c) && (c <=? 8202) || (c =? 8232) || (c =? 8233)
   || (c =? 8239) || (c =? 8287) || (c =? 12288) || (c =? 65279))%N.

Fixpoint trimStart (s : JSString) : JSString :=
  match s with
  | c :: s' => if isWhiteSpace c then trimStart s' else s
  | [] => []
  end.

Definition trimEnd (s : JSString) : JSString := rev (trimStart (rev s)).

Definition trim (s : JSString) : JSString := trimEnd (trimStart s).

(** [s.startsWith(lit)], returning what follows the prefix. *)
Fixpoint stripPrefix (lit s : JSString) : option JSString :=
  match lit, s with
  | [], _ => Some s
  | x :: lit', y :: s' => if N.eqb x y then stripPrefix lit' s' else None
  | _ :: _, [] => None
  end.

(** Lower-casing restricted to the Basic Latin letters; the handler itself
    is parametric in [String.prototype.toLowerCase] (see [Section Handler]),
    this instance serves to run it on ASCII inputs. *)
Definition asciiLowerUnit (c : N) : N :=
  if ((65 <=? c) && (c <=? 90))%N then (c + 32)%N else c.

Definition asciiLower (s : JSString) : JSString := map asciiLowerUnit s.

End JS.

Import JS.

(** ** Results of fallible code *)

Inductive Outcome (A : Type) : Type :=
| Returned (value : A)
| Threw (message : JSString).
Arguments Returned {A} value.
Arguments Threw {A} message.

Definition bindO {A B} (m : Outcome A) (k : A -> Outcome B) : Outcome B :=
  match m with
  | Returned a => k a
  | Threw e => Threw e
  end.

Notation "'let*' x ':=' m 'in' k" := (bindO m (fun x => k))
  (at level 10, x name, m at level 100, k at level 200).

(** ** Priority cues (detectPriorityFromPrompt, mapPriorityCueToApi) *)

(** The class [[0-4]]. *)
Definition isCueDigit (c : N) : bool := ((48 <=? c) && (c <=? 52))%N.

(** The class [[a-z0-9]]. *)
Definition isLowerAlnum (c : N) : bool :=
  ((97 <=? c) && (c <=? 122) || (48 <=? c) && (c <=? 57))%N.

(** [\s*([0-4])] at the head of [s]: the star is greedy, and giving back a
    white-space unit never helps since the next unit must be a digit. *)
Fixpoint cueTail (s : JSString) : option N :=
  match s with
  | [] => None
  | c :: s' =>
      if isWhiteSpace c then cueTail s'
      else if isCueDigit c then Some c else None
  end.

(** [lit\s*([0-4])] anchored at the head of [s]. *)
Definition cueAt (lit s : JSString) : option N :=
  match stripPrefix lit s with
  | Some rest => cueTail rest
  | None => None
  end.

(** [normalized.match(/lit\s*([0-4])/)]: the leftmost start position wins. *)
Fixpoint searchWord (lit s : JSString) : option N :=
  match cueAt lit s with
  | Some d => Some d
  | None =>
      match s with
      | [] => None
      | _ :: s' => searchWord lit s'
      end
  end.

Definition letterP : JSString := js "p".

(** Start positions after the first one of [/(?:^|[^a-z0-9])p\s*([0-4])/]:
    [^] can no longer match, so a unit outside [[a-z0-9]] must precede [p]. *)
Fixpoint searchBoundary (s : JSString) : option N :=
  match s with
  | [] => None
  | c :: s' =>
      if isLowerAlnum c then searchBoundary s'
      else
        match cueAt letterP s' with
        | Some d => Some d
        | None => searchBoundary s'
        end
  end.

(** [normalized.match(/(?:^|[^a-z0-9])p\s*([0-4])/)]. *)
Definition searchP (s : JSString) : option N :=
  match cueAt letterP s with
  | Some d => Some d
  | None => searchBoundary s
  end.

Definition wordPriority : JSString := js "priority".
Definition wordYouXianJi : JSString := [20248; 20808; 32423]%N.

Inductive Pattern := PatP | PatPriority | PatYouXianJi.

Definition patterns : list Pattern := [PatP; PatPriority; PatYouXianJi].

(** [normalized.match(pattern)?.[1]], the capture being one code unit. *)
Definition matchPattern (p : Pattern) (s : JSString) : option JSString :=
  option_map (fun d => [d])
    match p with
    | PatP => searchP s
    | PatPriority => searchWord wordPriority s
    | PatYouXianJi => searchWord wordYouXianJi s
    end.

Definition mapPriorityCueToApi (signal : JSString) : option Z :=
  if eqb signal (js "0") then Some 4
  else if eqb signal (js "1") then Some 4
  else if eqb signal (js "2") then Some 3
  else if eqb signal (js "3") then Some 2
  else if eqb signal (js "4") then Some 1
  else None.

(** The [for (const pattern of patterns)] loop on the lower-cased prompt; a
    capture is a non-empty string and the mapped priorities are non-zero, so
    both truthiness tests reduce to definedness. *)
Fixpoint detectLoop (ps : list Pattern) (normalized : JSString) : option Z :=
  match ps with
  | [] => None
  | p :: ps' =>
      match matchPattern p normalized with
      | Some capture =>
          if truthy capture then
            match mapPriorityCueToApi capture with
            | Some priority =>
                if Z.eqb priority 0 then detectLoop ps' normalized
                else Some priority
            | None => detectLoop ps' normalized
            end
          else detectLoop ps' normalized
      | None => detectLoop ps' normalized
      end
  end.


(** ** Data model *)

Inductive IntentType :=
| single_reminder | multi_step_plan | recipe_plan | general_plan.

Definition intentName (i : IntentType) : JSString :=
  match i with
  | single_reminder => js "single_reminder"
  | multi_step_plan => js "multi_step_plan"
  | recipe_plan => js "recipe_plan"
  | general_plan => js "general_plan"
  end.

Record PlanRequestBody := {
  prompt : JSString;
  timezone : option JSString;
  req_due : option JSString;
  preferences : option JSString;
  req_labels : option (list JSString);
  req_priority : option Z;
  req_maxTasks : Z
}.

Record IntentDecision := {
  intent : IntentType;
  decision_summary : option JSString;
  days : option Z;
  keywords : option (list JSString)
}.

Record PlanScenario := {
  scenario_intent : IntentType;
  maxTasks : Z;
  directives : list JSString;
  temperature : Q
}.

(** The [due] object of a task, planned or normalised. *)
Record Due := {
  due_string : option JSString;
  due_date : option JSString;
  due_datetime : option JSString
}.

Record PlannedTask := {
  title : JSString;
  description : option JSString;
  priority : option Z;
  labels : option (list JSString);
  projectId : option JSString;
  project : option JSString;
  due : option Due
}.

Record AiPlan := {
  plan_summary : option JSString;
  plan_tasks : list PlannedTask
}.

Record TodoistProjectSummary := {
  project_id : JSString;
  project_name : JSString;
  isInbox : bool
}.

Record TodoistLabelSummary := {
  label_id : JSString;
  label_name : JSString
}.

Record TodoistMetadata := {
  projects : list TodoistProjectSummary;
  meta_labels : list TodoistLabelSummary
}.

Record NormalizedTask := {
  n_title : JSString;
  n_description : option JSString;
  n_priority : option Z;
  n_labels : option (list JSString);
  n_due : option Due;
  n_projectId : option JSString;
  n_projectName : option JSString
}.

Record Tool := {
  tool_name : JSString;
  tool_description : option JSString
}.

Definition MIN_TASKS : Z := 1.
Definition MAX_TASKS : Z := 10.

(** [x ?? y] *)
Definition nullish {A} (x : option A) (y : option A) : option A :=
  match x with Some _ => x | None => y end.

(** [x || ""] for an optional string. *)
Definition orEmpty (x : option JSString) : JSString :=
  match x with Some s => s | None => [] end.

(** [Boolean(x)] for an optional string. *)
Definition truthyOpt (x : option JSString) : bool :=
  match x with Some s => truthy s | None => false end.

(** ** Scenario selection (determineScenario) *)

Definition clampMax (value : Z) : Z :=
  Z.min (Z.max value MIN_TASKS) MAX_TASKS.

(** Rendering of [${days}]; [days] is between 1 and 5 where it is used. *)
Definition showDigit (z : Z) : JSString := [Z.to_N (48 + z)].

Definition determineScenario (decision : IntentDecision) (input : PlanRequestBody)
  : PlanScenario :=
  match intent decision with
  | single_reminder =>
      {| scenario_intent := single_reminder;
         maxTasks := 1;
         directives :=
           [js "Return exactly one Todoist task that mirrors the reminder wording.";
            js "Do not invent extra subtasks or routines; stay literal to the request."];
         temperature := 1 # 10 |}
  | recipe_plan =>
      let requestedDays := match days decision with Some d => d | None => 3 end in
      let days := Z.min (Z.max requestedDays 1) 5 in
      let maxTasks := clampMax (days * 2) in
      {| scenario_intent := recipe_plan;
         maxTasks := maxTasks;
         directives :=
           [js "Produce meal-prep tasks covering " ++ showDigit days
              ++ js " day(s). Each task must mention the day and meal (Breakfast/Lunch/Dinner).";
            js "Incorporate the provided ingredients creatively and avoid repeating the same dish twice in a row.";
            js "Mention which ingredients are used inside the task description so the cook can verify coverage."];
         temperature := 35 # 100 |}
  | multi_step_plan =>
      {| scenario_intent := multi_step_plan;
         maxTasks := clampMax (Z.max 2 (req_maxTasks input));
         directives :=
           [js "Break the day into distinct steps with clear sequencing or time anchors.";
            js "Reference dependencies or prerequisites when relevant so the user can follow the workflow."];
         temperature := 25 # 100 |}
  | general_plan =>
      {| scenario_intent := general_plan;
         maxTasks := clampMax (req_maxTasks input);
         directives :=
           [js "Balance the schedule so it feels focused yet achievable.";
            js "Only add extra tasks when the request explicitly implies multiple actions."];
         temperature := 2 # 10 |}
  end.

(** ** Due selection (selectDue) *)

Definition emptyDue : Due :=
  {| due_string := None; due_date := None; due_datetime := None |}.

Definition selectDue (fromTask : option Due) (fallback : option JSString)
  : option Due :=
  if negb (match fromTask with Some _ => true | None => false end)
     && negb (truthyOpt fallback)
  then None
  else
    let datetime := match fromTask with Some d => due_datetime d | None => None end in
    let date := match fromTask with Some d => due_date d | None => None end in
    let str := match fromTask with Some d => due_string d | None => None end in
    if truthyOpt datetime then
      Some {| due_string := None; due_date := None; due_datetime := datetime |}
    else if truthyOpt date then
      Some {| due_string := None; due_date := date; due_datetime := None |}
    else if truthyOpt str then
      Some {| due_string := str; due_date := None; due_datetime := None |}
    else if truthyOpt fallback then
      Some {| due_string := fallback; due_date := None; due_datetime := None |}
    else None.

(** ** Priority clamping *)

(** [Math.round] is the identity on the integers that reach it. *)
Definition clampPriority (priority : option Z) : option Z :=
  match priority with
  | None => None
  | Some p => Some (Z.min 4 (Z.max 1 p))
  end.

(** [haystack.includes(needle)] *)
Fixpoint includes (haystack needle : JSString) : bool :=
  match stripPrefix needle haystack with
  | Some _ => true
  | None =>
      match haystack with
      | [] => false
      | _ :: rest => includes rest needle
      end
  end.

Section Handler.

(** [String.prototype.toLowerCase]. *)
Variable toLowerCase : JSString -> JSString.

Definition detectPriorityFromPrompt (prompt : JSString) : option Z :=
  detectLoop patterns (toLowerCase prompt).

(** ** Labels (normalizeLabels, dedupeLabels) *)

(** The loop of [dedupeLabels]: [seen] is the set of lower-cased labels kept
    so far, [result] the labels kept so far; the loop breaks at five. *)
Fixpoint dedupeLoop (labels : list JSString) (seen : list JSString)
  (result : list JSString) : list JSString :=
  match labels with
  | [] => result
  | label :: rest =>
      let trimmed := trim label in
      if negb (truthy trimmed) || existsb (eqb (toLowerCase trimmed)) seen
      then dedupeLoop rest seen result
      else
        let seen' := toLowerCase trimmed :: seen in
        let result' := result ++ [trimmed] in
        if Nat.eqb (List.length result') 5 then result'
        else dedupeLoop rest seen' result'
  end.

Definition dedupeLabels (labels : option (list JSString))
  : option (list JSString) :=
  match labels with
  | None => None
  | Some [] => None
  | Some ls =>
      match dedupeLoop ls [] [] with
      | [] => None
      | result => Some result
      end
  end.

(** The callback mapped over the source labels in [normalizeLabels]. *)
Definition canonicalLabel (context : TodoistMetadata) (label : JSString)
  : option JSString :=
  let trimmed := trim label in
  if negb (truthy trimmed) then None
  else
    match find (fun entry => eqb (toLowerCase (label_name entry))
                                 (toLowerCase trimmed))
               (meta_labels context) with
    | Some canonical => Some (label_name canonical)
    | None => Some trimmed
    end.

(** [.filter(Boolean)] on the mapped labels. *)
Fixpoint filterBoolean (xs : list (option JSString)) : list JSString :=
  match xs with
  | [] => []
  | Some s :: rest => if truthy s then s :: filterBoolean rest else filterBoolean rest
  | None :: rest => filterBoolean rest
  end.

Definition normalizeLabels (preferred fallback : option (list JSString))
  (context : TodoistMetadata) (inferred : option (list JSString))
  : option (list JSString) :=
  let source :=
    match preferred with
    | Some (_ :: _) => preferred
    | _ => nullish fallback inferred
    end in
  match source with
  | None => None
  | Some [] => None
  | Some ls =>
      let normalized := filterBoolean (map (canonicalLabel context) ls) in
      dedupeLabels (Some normalized)
  end.

(** ** Project resolution (resolveProjectReference) *)

Record ProjectRef := {
  ref_id : option JSString;
  ref_name : JSString
}.

Definition resolveProjectReference (task : PlannedTask)
  (context : TodoistMetadata) (inferred : option TodoistProjectSummary)
  : option ProjectRef :=
  if match projects context with [] => true | _ => false end
     && negb (truthyOpt (projectId task)) && negb (truthyOpt (project task))
     && match inferred with None => true | Some _ => false end
  then None
  else
    match projectId task with
    | Some ((_ :: _) as pid) =>
        let known := find (fun p => eqb (project_id p) pid) (projects context) in
        Some {| ref_id := Some pid;
                ref_name :=
                  match known with
                  | Some k => project_name k
                  | None => match project task with Some n => n | None => pid end
                  end |}
    | _ =>
        match project task with
        | Some ((_ :: _) as name) =>
            let normalized := trim name in
            match find (fun p => eqb (toLowerCase (project_name p))
                                     (toLowerCase normalized))
                       (projects context) with
            | Some known =>
                Some {| ref_id := Some (project_id known);
                        ref_name := project_name known |}
            | None => Some {| ref_id := None; ref_name := normalized |}
            end
        | _ =>
            match inferred with
            | Some p => Some {| ref_id := Some (project_id p);
                                ref_name := project_name p |}
            | None => None
            end
        end
    end.

(** ** Task normalisation (normalizeTask) *)

Definition normalizeTask (task : PlannedTask) (input : PlanRequestBody)
  (context : TodoistMetadata) (priorityHint : option Z)
  (inferredProject : option TodoistProjectSummary)
  (inferredLabels : option (list JSString)) : NormalizedTask :=
  let project := resolveProjectReference task context inferredProject in
  {| n_title := trim (title task);
     n_description := option_map trim (description task);
     n_priority :=
       clampPriority (nullish (nullish (priority task) priorityHint)
                              (req_priority input));
     n_labels := normalizeLabels (labels task) (req_labels input) context
                   inferredLabels;
     n_due := selectDue (due task) (req_due input);
     n_projectId := match project with Some p => ref_id p | None => None end;
     n_projectName := option_map ref_name project |}.

(** ** Prompt inference (inferProjectFromPrompt, inferLabelsFromPrompt) *)

Definition inferProjectFromPrompt (prompt : JSString) (context : TodoistMetadata)
  : option TodoistProjectSummary :=
  match projects context with
  | [] => None
  | _ =>
      let normalizedPrompt := toLowerCase prompt in
      find (fun p => includes normalizedPrompt (toLowerCase (project_name p))
                     && negb (isInbox p))
           (projects context)
  end.

Definition inferLabelsFromPrompt (prompt : JSString) (context : TodoistMetadata)
  : option (list JSString) :=
  match meta_labels context with
  | [] => None
  | _ =>
      let normalizedPrompt := toLowerCase prompt in
      match map label_name
              (filter (fun l => includes normalizedPrompt (toLowerCase (label_name l)))
                      (meta_labels context)) with
      | [] => None
      | matches => Some matches
      end
  end.

(** ** Values exchanged with the tool server *)

(** A JavaScript value as the handler can observe one in a tool response:
    the result of [JSON.parse] or a structured field of the SDK's result
    object.  An object is its list of own properties. *)
Inductive JSON :=
| JUndefined
| JNull
| JBool (b : bool)
| JNum (n : Z)
| JStr (s : JSString)
| JArr (items : list JSON)
| JObj (fields : list (JSString * JSON)).

(** [JSON.parse], [None] standing for a [SyntaxError]. *)
Variable JSON_parse : JSString -> option JSON.

Definition typeError : JSString := js "TypeError".

Definition truthyJ (v : JSON) : bool :=
  match v with
  | JUndefined | JNull => false
  | JBool b => b
  | JNum n => negb (Z.eqb n 0)
  | JStr s => truthy s
  | JArr _ | JObj _ => true
  end.

Definition isNullish (v : JSON) : bool :=
  match v with JUndefined | JNull => true | _ => false end.

Definition isUndefined (v : JSON) : bool :=
  match v with JUndefined => true | _ => false end.

(** [v === "lit"] *)
Definition isStr (lit : JSString) (v : JSON) : bool :=
  match v with JStr s => eqb s lit | _ => false end.

(** Own-property lookup in a property list; [dflt] when the key is absent. *)
Definition withProp {A} (f : JSON -> A) (dflt : A) (key : JSString)
  : list (JSString * JSON) -> A :=
  fix go (fields : list (JSString * JSON)) : A :=
    match fields with
    | [] => dflt
    | (k, v) :: rest => if eqb k key then f v else go rest
    end.

(** [value[key]] on a value that is neither [null] nor [undefined]; none of
    the keys the handler reads exists on a primitive or on an array. *)
Definition getProp (value : JSON) (key : JSString) : JSON :=
  match value with
  | JObj fields => withProp (fun v => v) JUndefined key fields
  | _ => JUndefined
  end.

(** [value.key] where [value] may be [null] or [undefined]. *)
Definition getMember (value : JSON) (key : JSString) : Outcome JSON :=
  if isNullish value then Threw typeError else Returned (getProp value key).

(** ** Array payloads (pluckArray, extractArrayPayload) *)

Definition DEFAULT_COLLECTION_KEYS : list JSString :=
  [js "projects"; js "labels"; js "data"; js "items"; js "results";
   js "structuredContent"].

Fixpoint pluckArray (value : JSON) (keys : list JSString) {struct value}
  : option (list JSON) :=
  match value with
  | JArr items => Some items
  | JObj fields =>
      (fix loop (ks : list JSString) : option (list JSON) :=
         match ks with
         | [] => None
         | key :: ks' =>
             match withProp
                     (fun candidate =>
                        match candidate with
                        | JArr items => Some items
                        | JObj _ => pluckArray candidate keys
                        | _ => None
                        end) None key fields with
             | Some found => Some found
             | None => loop ks'
             end
         end) keys
  | _ => None
  end.

(** ** Decoding a tool response (parseToolJson and its helpers) *)

Fixpoint indexOfUnit (c : N) (s : JSString) : option nat :=
  match s with
  | [] => None
  | x :: s' => if N.eqb x c then Some O else option_map S (indexOfUnit c s')
  end.

Fixpoint lastIndexOf (needle s : JSString) : option nat :=
  match s with
  | [] => match needle with [] => Some O | _ => None end
  | _ :: s' =>
      match lastIndexOf needle s' with
      | Some i => Some (S i)
      | None => match stripPrefix needle s with Some _ => Some O | None => None end
      end
  end.

(** [s.slice(from, to)] for non-negative indices. *)
Definition slice (from to : nat) (s : JSString) : JSString :=
  firstn (to - from) (skipn from s).

Definition fence : JSString := js "```".

Definition stripJsonFence (payload : JSString) : JSString :=
  let trimmed := trim payload in
  match stripPrefix fence trimmed with
  | None => trimmed
  | Some _ =>
      match lastIndexOf fence trimmed with
      | None => trimmed
      | Some fenceEnd =>
          match indexOfUnit 10%N trimmed with
          | None => trimmed
          | Some firstLineBreak =>
              trim (slice (S firstLineBreak) fenceEnd trimmed)
          end
      end
  end.

Definition extractStructuredContent (response : JSON) : JSON :=
  match response with
  | JObj _ | JArr _ =>
      let sc := getProp response (js "structuredContent") in
      if isUndefined sc then getProp response (js "structured_content") else sc
  | _ => JUndefined
  end.

(** [items.find(item => pred item)] where the predicate reads a member of
    the item, which throws on [null] and [undefined]. *)
Fixpoint findItem (pred : JSON -> bool) (items : list JSON) : Outcome JSON :=
  match items with
  | [] => Returned JUndefined
  | item :: rest =>
      if isNullish item then Threw typeError
      else if pred item then Returned item else findItem pred rest
  end.

Fixpoint filterItems (pred : JSON -> bool) (items : list JSON)
  : Outcome (list JSON) :=
  match items with
  | [] => Returned []
  | item :: rest =>
      if isNullish item then Threw typeError
      else
        let* kept := filterItems pred rest in
        Returned (if pred item then item :: kept else kept)
  end.

(** [message.content?.method(...)]: [None] when [content] is nullish, the
    array when it is one, and a [TypeError] otherwise, the method being
    missing on any other value. *)
Definition contentOf (response : JSON) : Outcome (option (list JSON)) :=
  let* content := getMember response (js "content") in
  match content with
  | JUndefined | JNull => Returned None
  | JArr items => Returned (Some items)
  | _ => Threw typeError
  end.

Definition extractToolJsonBlock (response : JSON) : Outcome JSON :=
  let* content := contentOf response in
  let* jsonEntry :=
    match content with
    | Some items => findItem (fun item => isStr (js "json") (getProp item (js "type"))) items
    | None => Returned JUndefined
    end in
  if negb (isUndefined (getProp jsonEntry (js "json")))
  then Returned (getProp jsonEntry (js "json"))
  else
    let* jsonTextEntry :=
      match content with
      | Some items =>
          findItem (fun item => isStr (js "application/json")
                                      (getProp item (js "mimeType"))) items
      | None => Returned JUndefined
      end in
    Returned (getProp jsonTextEntry (js "text")).

Definition extractToolText (response : JSON) : Outcome (option JSString) :=
  let* content := contentOf response in
  let* textBlocks :=
    match content with
    | Some items =>
        let* kept := filterItems (fun item => isStr (js "text") (getProp item (js "type"))) items in
        Returned (Some kept)
    | None => Returned None
    end in
  match textBlocks with
  | None | Some [] => Returned None
  | Some blocks =>
      let hasText := fun block => truthyJ (getProp block (js "text")) in
      let plainTextBlock :=
        find (fun block => negb (isStr (js "application/json")
                                       (getProp block (js "mimeType")))
                           && hasText block) blocks in
      let target :=
        match plainTextBlock with
        | Some b => Some b
        | None => find hasText blocks
        end in
      match target with
      | None => Returned None
      | Some block =>
          match getProp block (js "text") with
          | JStr text => if truthy text then Returned (Some (stripJsonFence text))
                         else Returned None
          | other => if truthyJ other then Threw typeError else Returned None
          end
      end
  end.

Definition parseToolJson (response : JSON) : Outcome JSON :=
  let structured := extractStructuredContent response in
  if negb (isUndefined structured) then Returned structured
  else
    let* jsonBlock := extractToolJsonBlock response in
    if negb (isUndefined jsonBlock) then
      match jsonBlock with
      | JStr text =>
          match JSON_parse text with
          | Some v => Returned v
          | None => Returned JUndefined
          end
      | _ => Returned jsonBlock
      end
    else
      let* text := extractToolText response in
      match text with
      | None | Some [] => Returned JUndefined
      | Some t =>
          match JSON_parse t with
          | Some v => Returned v
          | None => Returned JUndefined
          end
      end.

Definition extractArrayPayload (response : JSON)
  (preferredKeys : option (list JSString)) : Outcome (list JSON) :=
  let* parsed := parseToolJson response in
  let keys :=
    match preferredKeys with Some ks => ks | None => DEFAULT_COLLECTION_KEYS end in
  match pluckArray parsed keys with
  | Some direct => Returned direct
  | None => Returned []
  end.

(** [callTodoistListTool]: [called] is the outcome of [client.callTool]. *)
Definition callTodoistListTool (called : Outcome JSON)
  (resultKeys : option (list JSString)) : list JSON :=
  match (let* response := called in extractArrayPayload response resultKeys) with
  | Returned payload => payload
  | Threw _ => []
  end.

Definition parseTodoistResponse (response : JSON) : Outcome JSON :=
  let* parsed := parseToolJson response in
  if truthyJ parsed then
    let id := getProp parsed (js "id") in
    let task_id := getProp parsed (js "task_id") in
    Returned (if negb (isNullish id) then id
              else if negb (isNullish task_id) then task_id
              else getProp parsed (js "uuid"))
  else
    let* text := extractToolText response in
    Returned JUndefined.

(** ** List-tool resolution (matchesListTool, resolveListToolConfig) *)

Record TodoistListToolAlias := {
  alias_names : option (list JSString);
  alias_match : option (Tool -> bool);
  alias_buildArgs : option (JSString -> Tool -> option JSON);
  alias_resultKeys : option (list JSString)
}.

Record TodoistListToolConfig := {
  config_name : JSString;
  config_args : option JSON;
  config_resultKeys : option (list JSString)
}.

Definition LIST_VERB_KEYWORDS : list JSString :=
  [js "list"; js "find"; js "search"; js "get"; js "overview"; js "browse";
   js "view"; js "all"].

Definition MUTATING_KEYWORDS : list JSString :=
  [js "add"; js "create"; js "update"; js "delete"; js "remove";
   js "complete"; js "close"; js "assign"; js "set"; js "comment"].

Definition buildToolText (tool : Tool) : JSString :=
  let description :=
    match tool_description tool with Some d => d | None => [] end in
  toLowerCase (tool_name tool ++ js " " ++ description).

Definition matchesListTool (tool : Tool) (keywords : list JSString) : bool :=
  let text := buildToolText tool in
  if negb (existsb (includes text) keywords) then false
  else if negb (existsb (includes text) LIST_VERB_KEYWORDS) then false
  else if existsb (includes text) MUTATING_KEYWORDS then false
  else true.

Definition PROJECT_TOOL_ALIASES : list TodoistListToolAlias :=
  [ {| alias_names := Some [js "todoist_projects"];
       alias_match := None;
       alias_buildArgs := Some (fun _ _ =>
         Some (JObj [(js "action", JStr (js "list"));
                     (js "include_archived", JBool false)]));
       alias_resultKeys := Some [js "data"; js "projects"] |};
    {| alias_names := Some [js "todoist.projects.list";
                            js "todoist.projects.search";
                            js "todoist.projects.overview"];
       alias_match := None;
       alias_buildArgs := None;
       alias_resultKeys := Some [js "projects"; js "items"; js "data"; js "results"] |};
    {| alias_names := None;
       alias_match := Some (fun tool => eqb (tool_name tool) (js "find-projects"));
       alias_buildArgs := None;
       alias_resultKeys := Some [js "projects"; js "data"] |};
    {| alias_names := None;
       alias_match := Some (fun tool =>
         matchesListTool tool [js "project"; js "projects"]);
       alias_buildArgs := None;
       alias_resultKeys := None |} ].

Definition LABEL_TOOL_ALIASES : list TodoistListToolAlias :=
  [ {| alias_names := Some [js "todoist_labels"];
       alias_match := None;
       alias_buildArgs := Some (fun _ _ =>
         Some (JObj [(js "action", JStr (js "list")); (js "limit", JNum 100)]));
       alias_resultKeys := Some [js "data"; js "labels"] |};
    {| alias_names := Some [js "todoist.labels.list"; js "todoist.labels.search"];
       alias_match := None;
       alias_buildArgs := None;
       alias_resultKeys := Some [js "labels"; js "items"; js "data"; js "results"] |};
    {| alias_names := None;
       alias_match := Some (fun tool => eqb (tool_name tool) (js "find-labels"));
       alias_buildArgs := None;
       alias_resultKeys := Some [js "labels"; js "data"] |};
    {| alias_names := None;
       alias_match := Some (fun tool =>
         matchesListTool tool [js "label"; js "labels"; js "tag"; js "tags"]);
       alias_buildArgs := None;
       alias_resultKeys := None |} ].

Fixpoint resolveListToolConfig (tools : list Tool)
  (aliases : list TodoistListToolAlias) : option TodoistListToolConfig :=
  match aliases with
  | [] => None
  | alias :: rest =>
      let byName :=
        match alias_names alias with
        | Some ((_ :: _) as names) =>
            find (fun tool => existsb (eqb (tool_name tool)) names) tools
        | _ => None
        end in
      let matched :=
        match byName, alias_match alias with
        | None, Some pred => find pred tools
        | _, _ => byName
        end in
      match matched with
      | Some tool =>
          Some {| config_name := tool_name tool;
                  config_args :=
                    match alias_buildArgs alias with
                    | Some build => build (tool_name tool) tool
                    | None => None
                    end;
                  config_resultKeys := alias_resultKeys alias |}
      | None => resolveListToolConfig tools rest
      end
  end.

(** ** The environment and the connection (createTransport, ensureUrl) *)

Record CloudflareEnv := {
  TODOIST_MCP_URL : option JSString;
  TODOIST_TOKEN : option JSString
}.

(** [new URL(value).toString()], [None] when the constructor throws. *)
Variable parseURL : JSString -> option JSString.

Definition ensureUrl (value : JSString) : Outcome JSString :=
  match parseURL value with
  | Some href => Returned href
  | None => Threw (js "TODOIST_MCP_URL must be a valid URL")
  end.

(** The transport, when there is one, is determined by the pair it was
    built from. *)
Record Transport := {
  transport_url : JSString;
  transport_token : JSString
}.

Definition createTransport (env : CloudflareEnv) : Outcome (option Transport) :=
  match TODOIST_MCP_URL env with
  | Some ((_ :: _) as configured) =>
      let* url := ensureUrl configured in
      match TODOIST_TOKEN env with
      | Some ((_ :: _) as token) =>
          Returned (Some {| transport_url := url; transport_token := token |})
      | _ => Returned None
      end
  | _ => Returned None
  end.

(** ** Creation-tool resolution (resolveToolName) *)

Definition preferredCreateTools : list JSString :=
  [js "create_task"; js "add-task"; js "add_task"; js "create-task";
   js "add-tasks"; js "add_tasks"].

(** [xs.join(sep)] *)
Fixpoint join (sep : JSString) (xs : list JSString) : JSString :=
  match xs with
  | [] => []
  | [x] => x
  | x :: rest => x ++ sep ++ join sep rest
  end.

(** [listed] is the outcome of [client.listTools()], already projected on
    its [tools] field; it is consulted only without a catalog at hand. *)
Definition resolveToolName (listed : Outcome (option (list Tool)))
  (url : JSString) (token : option JSString)
  (availableTools : option (list Tool)) : Outcome JSString :=
  if negb (truthyOpt token)
  then Threw (js "TODOIST_TOKEN is required to contact the MCP server")
  else
    let* toolsList :=
      match availableTools with
      | Some tools => Returned tools
      | None =>
          let* l := listed in
          Returned (match l with Some tools => tools | None => [] end)
      end in
    match find (fun candidate =>
                  existsb (fun tool => eqb (tool_name tool) candidate) toolsList)
               preferredCreateTools with
    | Some candidate => Returned candidate
    | None =>
        let available := join (js ", ") (map tool_name toolsList) in
        Threw (js "No Todoist create task tool found. Available tools: "
               ++ (if truthy available then available else js "none")
               ++ js " @ " ++ url)
    end.

(** ** Tool arguments (toTodoistArgs, mapApiPriorityToUiFlag) *)

Inductive PriorityStyle := style_number | style_string.

Definition mapApiPriorityToUiFlag (priority : Z) : JSString :=
  let normalized := match clampPriority (Some priority) with Some p => p | None => 1 end in
  let uiLevel := 5 - normalized in
  js "p" ++ showDigit uiLevel.

Definition optField (present : bool) (key : JSString) (value : JSON)
  : list (JSString * JSON) :=
  if present then [(key, value)] else [].

Definition toTodoistArgs (task : NormalizedTask) (input : PlanRequestBody)
  (priorityStyle : PriorityStyle) : JSON :=
  let strOf := fun o => match o with Some s => JStr s | None => JUndefined end in
  let dueField : list (JSString * JSON) :=
    let datetime := match n_due task with Some d => due_datetime d | None => None end in
    let date := match n_due task with Some d => due_date d | None => None end in
    let str := match n_due task with Some d => due_string d | None => None end in
    if truthyOpt datetime then [(js "dueDatetime", strOf datetime)]
    else if truthyOpt date then [(js "dueDate", strOf date)]
    else if truthyOpt str then [(js "dueString", strOf str)]
    else if truthyOpt (req_due input) then [(js "dueString", strOf (req_due input))]
    else [] in
  JObj
    ([(js "content", JStr (n_title task))]
     ++ optField (truthyOpt (n_description task)) (js "description")
          (strOf (n_description task))
     ++ match n_priority task with
        | Some p =>
            [(js "priority",
              match priorityStyle with
              | style_string => JStr (mapApiPriorityToUiFlag p)
              | style_number => JNum p
              end)]
        | None => []
        end
     ++ match n_labels task with
        | Some ls => [(js "labels", JArr (map JStr ls))]
        | None => []
        end
     ++ (if truthyOpt (n_projectId task)
         then [(js "projectId", strOf (n_projectId task));
               (js "project_id", strOf (n_projectId task))]
         else [])
     ++ dueField).

(** ** The event stream *)

Inductive TaskStatus := pending | created | failed.

Record TodoistTaskResult := {
  planned : NormalizedTask;
  status : TaskStatus;
  todoistId : JSON;
  error : option JSString
}.

(** The events of the NDJSON stream, without their [timestamp] and without
    [elapsedMs] (wall-clock readings). *)
Inductive StreamEvent :=
| ev_debug_tools (tools : list Tool)
| ev_debug_error (stage message : JSString)
| ev_status (stage message : JSString)
| ev_debug_metadata (projects : list TodoistProjectSummary)
    (labels : list TodoistLabelSummary)
| ev_debug_inference (inferredProject : option TodoistProjectSummary)
    (inferredLabels : option (list JSString)) (priorityHint : option Z)
| ev_ai_plan (summary : option JSString) (tasks : list NormalizedTask)
    (intent : IntentType)
| ev_todoist_task (status : TaskStatus) (task : NormalizedTask)
    (todoistId : JSON) (error : option JSString)
| ev_final (created failed : nat) (tasks : list TodoistTaskResult)
| ev_error (message detail : JSString).

(** A computation of the handler: it appends to the events enqueued so far
    and returns or throws. *)
Definition Pipe (A : Type) : Type :=
  list StreamEvent -> list StreamEvent * Outcome A.

Definition ret {A} (a : A) : Pipe A := fun sent => (sent, Returned a).

Definition throw {A} (message : JSString) : Pipe A :=
  fun sent => (sent, Threw message).

Definition bind {A B} (m : Pipe A) (k : A -> Pipe B) : Pipe B :=
  fun sent =>
    match m sent with
    | (sent', Returned a) => k a sent'
    | (sent', Threw e) => (sent', Threw e)
    end.

Definition lift {A} (o : Outcome A) : Pipe A := fun sent => (sent, o).

(** [send(event)]: [controller.enqueue] of the serialised event. *)
Definition send (event : StreamEvent) : Pipe unit :=
  fun sent => (sent ++ [event], Returned tt).

(** [try { body } catch (error) { handler(message of error) }] *)
Definition tryCatch {A} (body : Pipe A) (handler : JSString -> Pipe A) : Pipe A :=
  fun sent =>
    match body sent with
    | (sent', Returned a) => (sent', Returned a)
    | (sent', Threw e) => handler e sent'
    end.

Notation "x <- m ;; k" := (bind m (fun x => k))
  (at level 61, m at next level, right associativity).
Notation "m ;;; k" := (bind m (fun _ => k))
  (at level 61, right associativity).

(** ** Synchronisation (syncWithTodoist) *)

Definition isStatus (s : TaskStatus) (r : TodoistTaskResult) : bool :=
  match s, status r with
  | pending, pending | created, created | failed, failed => true
  | _, _ => false
  end.

Section Sync.

(** [client.callTool({name, arguments})] for the task at a given position
    of the plan: the server's reply, or the error it rejects with. *)
Variable callTool : nat -> JSString -> JSON -> Outcome JSON.

Variable input : PlanRequestBody.
Variable toolName : JSString.

(** One iteration of the [for (const task of tasks)] loop. *)
Definition syncTask (index : nat) (task : NormalizedTask)
  (results : list TodoistTaskResult) : Pipe (list TodoistTaskResult) :=
  send (ev_todoist_task pending task JUndefined None) ;;;
  tryCatch
    (let isBulkTool := eqb toolName (js "add-tasks") || eqb toolName (js "add_tasks") in
     let args := toTodoistArgs task input
                   (if isBulkTool then style_string else style_number) in
     let payload := if isBulkTool then JObj [(js "tasks", JArr [args])] else args in
     response <- lift (callTool index toolName payload) ;;
     id <- lift (parseTodoistResponse response) ;;
     let results' := results ++ [ {| planned := task; status := created;
                                     todoistId := id; error := None |} ] in
     send (ev_todoist_task created task id None) ;;;
     ret results')
    (fun message =>
       let results' := results ++ [ {| planned := task; status := failed;
                                       todoistId := JUndefined;
                                       error := Some message |} ] in
       send (ev_todoist_task failed task JUndefined (Some message)) ;;;
       ret results').

Fixpoint syncLoop (index : nat) (tasks : list NormalizedTask)
  (results : list TodoistTaskResult) : Pipe (list TodoistTaskResult) :=
  match tasks with
  | [] => ret results
  | task :: rest =>
      results' <- syncTask index task results ;;
      syncLoop (S index) rest results'
  end.

End Sync.

Definition syncWithTodoist
  (callTool : nat -> JSString -> JSON -> Outcome JSON)
  (listed : Outcome (option (list Tool)))
  (tasks : list NormalizedTask) (env : CloudflareEnv) (input : PlanRequestBody)
  (availableTools : option (list Tool)) : Pipe (list TodoistTaskResult) :=
  todoistUrl <- lift (ensureUrl (orEmpty (TODOIST_MCP_URL env))) ;;
  toolName <- lift (resolveToolName listed todoistUrl (TODOIST_TOKEN env)
                      availableTools) ;;
  syncLoop callTool input toolName O tasks [].

(** ** Schema validation of the model's answers *)

(** [z.string().datetime()] *)
Variable isIsoDatetime : JSString -> bool.

Definition isDigit (c : N) : bool := ((48 <=? c) && (c <=? 57))%N.

(** [/^[0-9]{4}-[0-9]{2}-[0-9]{2}$/] *)
Definition isIsoDate (s : JSString) : bool :=
  match s with
  | [y1; y2; y3; y4; h1; m1; m2; h2; d1; d2] =>
      forallb isDigit [y1; y2; y3; y4; m1; m2; d1; d2]
      && N.eqb h1 45 && N.eqb h2 45
  | _ => false
  end.

Definition optAll {A} (check : A -> bool) (x : option A) : bool :=
  match x with Some a => check a | None => true end.

Definition validLabels (max : nat) (ls : list JSString) : bool :=
  Nat.leb (List.length ls) max && forallb truthy ls.

Definition validDue (d : Due) : bool :=
  optAll isIsoDate (due_date d) && optAll isIsoDatetime (due_datetime d).

Definition validTask (t : PlannedTask) : bool :=
  truthy (title t)
  && optAll (fun p => (1 <=? p) && (p <=? 4)) (priority t)
  && optAll (validLabels 5) (labels t)
  && optAll validDue (due t).

Definition zodError : JSString := js "ZodError".

(** [aiPlanSchema.parse] on an answer that already has the shape of a plan:
    the constraints on lengths, ranges and formats remain to be checked. *)
Definition aiPlanSchema_parse (raw : AiPlan) : Outcome AiPlan :=
  if forallb validTask (plan_tasks raw)
     && (MIN_TASKS <=? Z.of_nat (List.length (plan_tasks raw)))
  then Returned raw else Threw zodError.

Definition intentDecisionSchema_parse (raw : IntentDecision)
  : Outcome IntentDecision :=
  if optAll (fun d => (1 <=? d) && (d <=? 7)) (days raw)
     && optAll (validLabels 10) (keywords raw)
  then Returned raw else Threw zodError.

(** ** The collaborators of one request *)

(** What lies outside the handler is quantified over: the configuration,
    the tool server and the two models.  The prompts assembled by
    [buildIntentPrompt] and [buildPrompt] only reach the models, whose
    answers are arbitrary here, so the prompts themselves are not part of
    the embedding. *)

Record World := {
  env : CloudflareEnv;
  (** [client.connect(transport)] *)
  connect : Outcome unit;
  (** the [n]-th [client.listTools()], projected on [tools] *)
  listTools : nat -> Outcome (option (list Tool));
  (** the intent model's answer as [extractResponsePayload] returns it *)
  intentResponse : Outcome IntentDecision;
  (** the two list-tool calls of [fetchTodoistMetadata], joined and
      summarised, for the tool configurations that were resolved *)
  listMetadata : option TodoistListToolConfig -> option TodoistListToolConfig
                 -> Outcome TodoistMetadata;
  (** the plan model's answer as [extractPlanPayload] returns it *)
  planResponse : Outcome AiPlan;
  (** [client.callTool] for the task at a given position *)
  createCall : nat -> JSString -> JSON -> Outcome JSON
}.

(** ** Intent classification (classifyIntent) *)

Definition classifyIntent (w : World) : IntentDecision :=
  match (let* payload := intentResponse w in intentDecisionSchema_parse payload) with
  | Returned decision => decision
  | Threw _ =>
      {| intent := general_plan;
         decision_summary := Some (js "Fallback because classification failed");
         days := None;
         keywords := None |}
  end.

(** ** Metadata discovery (fetchTodoistMetadata) *)

Definition noMetadata : TodoistMetadata := {| projects := []; meta_labels := [] |}.

Definition fetchTodoistMetadata (w : World) (client : bool)
  (tools : option (list Tool)) : Outcome TodoistMetadata :=
  match client, tools with
  | true, Some ((_ :: _) as tools) =>
      let projectTool := resolveListToolConfig tools PROJECT_TOOL_ALIASES in
      let labelTool := resolveListToolConfig tools LABEL_TOOL_ALIASES in
      match projectTool, labelTool with
      | None, None => Returned noMetadata
      | _, _ => listMetadata w projectTool labelTool
      end
  | _, _ => Returned noMetadata
  end.

(** ** Plan generation (generatePlan) *)

(** [xs.slice(0, n)] for an integer [n]: a negative [n] counts from the end. *)
Definition sliceTo {A} (n : Z) (xs : list A) : list A :=
  if n <? 0 then firstn (List.length xs - Z.to_nat (- n)) xs
  else firstn (Z.to_nat n) xs.

Record GeneratedPlan := {
  summary : option JSString;
  tasks : list NormalizedTask
}.

Definition generatePlan (w : World) (input : PlanRequestBody)
  (scenario : PlanScenario) (context : TodoistMetadata)
  (priorityHint : option Z) (inferredProject : option TodoistProjectSummary)
  (inferredLabels : option (list JSString)) : Outcome GeneratedPlan :=
  let* rawPlan := planResponse w in
  let* plan := aiPlanSchema_parse rawPlan in
  let normalized :=
    map (fun task => normalizeTask task input context priorityHint
                       inferredProject inferredLabels)
        (sliceTo (maxTasks scenario) (plan_tasks plan)) in
  match normalized with
  | [] => Threw (js "The assistant did not return any tasks")
  | _ => Returned {| summary := plan_summary plan; tasks := normalized |}
  end.

(** ** The streaming body of POST *)

Definition unavailable : JSString := js "Todoist MCP client is unavailable".

(** The [try] block of the stream's asynchronous body. *)
Definition planBody (w : World) (data : PlanRequestBody) : Pipe unit :=
  transport <- lift (createTransport (env w)) ;;
  let client := match transport with Some _ => true | None => false end in
  availableTools <-
    (if client then
       lift (connect w) ;;;
       tryCatch
         (availableTools <- lift (listTools w 0%nat) ;;
          match availableTools with
          | Some tools => send (ev_debug_tools tools)
          | None => ret tt
          end ;;;
          ret availableTools)
         (fun message =>
            send (ev_debug_error (js "tools") message) ;;;
            ret None)
     else ret None) ;;
  send (ev_status (js "ai:init") (js "Planning tasks with Workers AI")) ;;;
  let priorityHint := detectPriorityFromPrompt (prompt data) in
  send (ev_status (js "intent:detect") (js "Analyzing the request intent")) ;;;
  let intentDecision := classifyIntent w in
  let scenario := determineScenario intentDecision data in
  send (ev_status (js "intent:classified")
          (js "Detected scenario: " ++ intentName (scenario_intent scenario))) ;;;
  todoistContext <- lift (fetchTodoistMetadata w client availableTools) ;;
  send (ev_debug_metadata (projects todoistContext) (meta_labels todoistContext)) ;;;
  let inferredProject := inferProjectFromPrompt (prompt data) todoistContext in
  let inferredLabels := inferLabelsFromPrompt (prompt data) todoistContext in
  plan <- lift (generatePlan w data scenario todoistContext priorityHint
                  inferredProject inferredLabels) ;;
  send (ev_debug_inference inferredProject inferredLabels priorityHint) ;;;
  send (ev_ai_plan (summary plan) (tasks plan) (scenario_intent scenario)) ;;;
  todoistResults <-
    (if client then
       syncWithTodoist (createCall w) (listTools w 1%nat) (tasks plan) (env w)
         data availableTools
     else
       ret (map (fun task => {| planned := task; status := failed;
                                todoistId := JUndefined;
                                error := Some unavailable |}) (tasks plan))) ;;
  let created := List.length (filter (isStatus created) todoistResults) in
  let failed := List.length (filter (isStatus failed) todoistResults) in
  send (ev_final created failed todoistResults).

(** The whole of [try { ... } catch (error) { ... }]; the [finally] clause
    closes the client, swallows its failure and enqueues nothing. *)
Definition planStream (w : World) (data : PlanRequestBody) : Pipe unit :=
  tryCatch (planBody w data)
    (fun detail => send (ev_error (js "Failed to generate the plan") detail)).

(** The events a caller reads for one accepted request. *)
Definition POST (w : World) (data : PlanRequestBody) : list StreamEvent :=
  fst (planStream w data []).

Definition isTerminal (e : StreamEvent) : bool :=
  match e with
  | ev_final _ _ _ | ev_error _ _ => true
  | _ => false
  end.

Definition isFinal (e : StreamEvent) : bool :=
  match e with ev_final _ _ _ => true | _ => false end.

Definition isError (e : StreamEvent) : bool :=
  match e with ev_error _ _ => true | _ => false end.

End Handler.

(** * Vocabulary of the specification

    The definitions below follow the wording of the specification; the
    theorems compare them with the handler's own definitions above. *)

(** [clamp(v, lo..hi)] *)
Definition spec_clamp (lo hi v : Z) : Z :=
  if v <? lo then lo else if hi <? v then hi else v.

(** The scenario table of the specification: task bound and temperature. *)
Definition spec_maxTasks (decision : IntentDecision) (input : PlanRequestBody) : Z :=
  match intent decision with
  | single_reminder => 1
  | recipe_plan =>
      let d := spec_clamp 1 5 (match days decision with Some d => d | None => 3 end) in
      spec_clamp 1 10 (d * 2)
  | multi_step_plan => spec_clamp 1 10 (Z.max 2 (req_maxTasks input))
  | general_plan => spec_clamp 1 10 (req_maxTasks input)
  end.

Definition spec_temperature (i : IntentType) : Q :=
  match i with
  | single_reminder => 0.1
  | recipe_plan => 0.35
  | multi_step_plan => 0.25
  | general_plan => 0.2
  end.

(** A due field counts when it is defined and not the empty string. *)
Definition nonEmpty (x : option JSString) : option JSString :=
  match x with
  | Some (_ :: _) => x
  | _ => None
  end.

(** A due field counts as soon as it is defined. *)
Definition defined (x : option JSString) : option JSString := x.

(** "datetime over date over string over the request-level hint", for a
    given reading [present] of which fields count. *)
Definition spec_selectDue (present : option JSString -> option JSString)
  (fromTask : option Due) (hint : option JSString) : option Due :=
  let field := fun (get : Due -> option JSString) =>
    match fromTask with Some d => present (get d) | None => None end in
  match field due_datetime, field due_date, field due_string, present hint with
  | Some dt, _, _, _ =>
      Some {| due_string := None; due_date := None; due_datetime := Some dt |}
  | None, Some d, _, _ =>
      Some {| due_string := None; due_date := Some d; due_datetime := None |}
  | None, None, Some s, _ =>
      Some {| due_string := Some s; due_date := None; due_datetime := None |}
  | None, None, None, Some h =>
      Some {| due_string := Some h; due_date := None; due_datetime := None |}
  | None, None, None, None => None
  end.

Definition count_defined (x : option JSString) : nat :=
  match x with Some _ => 1 | None => 0 end.

(** Number of representations a due object carries. *)
Definition representations (d : Due) : nat :=
  count_defined (due_string d) + count_defined (due_date d)
  + count_defined (due_datetime d).

(** C5 as the specification words it, a field being present when defined. *)
Definition due_claim_as_stated : Prop :=
  forall fromTask hint,
    selectDue fromTask hint = spec_selectDue defined fromTask hint.

(** ** Sample inputs *)

Definition sampleRequest : PlanRequestBody :=
  {| prompt := js "Call the dentist tomorrow at 9am";
     timezone := None; req_due := None; preferences := None;
     req_labels := None; req_priority := None; req_maxTasks := 5 |}.

Definition plannedTitled (t : string) : PlannedTask :=
  {| title := js t; description := None; priority := None; labels := None;
     projectId := None; project := None; due := None |}.

Definition sampleDecision : IntentDecision :=
  {| intent := multi_step_plan; decision_summary := None; days := None;
     keywords := None |}.

Definition sampleEnv : CloudflareEnv :=
  {| TODOIST_MCP_URL := Some (js "https://ai.todoist.net/mcp");
     TODOIST_TOKEN := Some (js "secret") |}.

Definition createTaskTool : Tool :=
  {| tool_name := js "create_task"; tool_description := None |}.

(** A reply of the server carrying the identifier of the created task. *)
Definition createdReply (id : string) : JSON :=
  JObj [(js "content", JArr []);
        (js "structuredContent", JObj [(js "id", JStr (js id))])].

(** A server on which the creation of the second task is rejected. *)
Definition secondCallFails (index : nat) (name : JSString) (payload : JSON)
  : Outcome JSON :=
  match index with
  | 1%nat => Threw (js "rate limited")
  | _ => Returned (createdReply "t")
  end.

Definition sampleWorld : World :=
  {| env := sampleEnv;
     connect := Returned tt;
     listTools := fun _ => Returned (Some [createTaskTool]);
     intentResponse := Returned sampleDecision;
     listMetadata := fun _ _ => Returned noMetadata;
     planResponse :=
       Returned {| plan_summary := None;
                   plan_tasks := [plannedTitled "Write report";
                                  plannedTitled "Meet client";
                                  plannedTitled "Recap"] |};
     createCall := secondCallFails |}.

(** The same collaborators without a configured endpoint. *)
Definition offlineWorld : World :=
  {| env := {| TODOIST_MCP_URL := None; TODOIST_TOKEN := Some (js "secret") |};
     connect := connect sampleWorld;
     listTools := listTools sampleWorld;
     intentResponse := intentResponse sampleWorld;
     listMetadata := listMetadata sampleWorld;
     planResponse := planResponse sampleWorld;
     createCall := createCall sampleWorld |}.

(** Stand-ins for the library functions the handler is parametric in. *)
Definition sampleParse (text : JSString) : option JSON := None.
Definition sampleURL (value : JSString) : option JSString :=
  if includes value (js "://") then Some value else None.
Definition sampleDatetime (text : JSString) : bool := true.

(** The fixed preference order of creation tools, as the specification
    lists it. *)
Definition spec_preference : list JSString :=
  [js "create_task"; js "add-task"; js "add_task"; js "create-task";
   js "add-tasks"; js "add_tasks"].

(** [n] is the first name of the preference list that the catalog offers. *)
Definition first_preferred (names : list JSString) (n : JSString) : Prop :=
  exists earlier later,
    spec_preference = earlier ++ n :: later
    /\ In n names
    /\ forall m, In m earlier -> ~ In m names.

(** ** Vocabulary for the synchronisation loop *)

Fixpoint mapFrom {A B} (f : nat -> A -> B) (index : nat) (xs : list A) : list B :=
  match xs with
  | [] => []
  | x :: rest => f index x :: mapFrom f (S index) rest
  end.

Section SyncVocabulary.
Variable JSON_parse : JSString -> option JSON.
Variable callTool : nat -> JSString -> JSON -> Outcome JSON.
Variable input : PlanRequestBody.
Variable toolName : JSString.

(** The outcome of the external call for the task at position [index]: the
    identifier decoded from the reply, or the message of what was thrown. *)
Definition creationOutcome (index : nat) (task : NormalizedTask) : Outcome JSON :=
  let bulk := eqb toolName (js "add-tasks") || eqb toolName (js "add_tasks") in
  let args := toTodoistArgs task input (if bulk then style_string else style_number) in
  let* response :=
    callTool index toolName (if bulk then JObj [(js "tasks", JArr [args])] else args) in
  parseTodoistResponse JSON_parse response.

(** The entry the result list owes to a task, given its outcome. *)
Definition expectedResult (task : NormalizedTask) (outcome : Outcome JSON)
  : TodoistTaskResult :=
  match outcome with
  | Returned id =>
      {| planned := task; status := created; todoistId := id; error := None |}
  | Threw message =>
      {| planned := task; status := failed; todoistId := JUndefined;
         error := Some message |}
  end.

(** The two events a task owes to the stream. *)
Definition expectedEvents (index : nat) (task : NormalizedTask) : list StreamEvent :=
  let r := expectedResult task (creationOutcome index task) in
  [ev_todoist_task pending task JUndefined None;
   ev_todoist_task (status r) task (todoistId r) (error r)].

End SyncVocabulary.

Definition succeeded {A} (o : Outcome A) : Prop :=
  match o with Returned _ => True | Threw _ => False end.

Definition normalizedTitled (t : string) : NormalizedTask :=
  {| n_title := js t; n_description := None; n_priority := None;
     n_labels := None; n_due := None; n_projectId := None;
     n_projectName := None |}.

(** ** Vocabulary for the event stream *)

(** A computation that enqueues no terminal event, on any stream. *)
Definition quiet {A} (m : Pipe A) : Prop :=
  forall sent, exists added,
    fst (m sent) = sent ++ added
    /\ Forall (fun e => isTerminal e = false) added.

(** A computation that either throws having enqueued no terminal event, or
    returns having enqueued exactly one [final] event, as its last event. *)
Definition finishing (m : Pipe unit) : Prop :=
  forall sent, exists added,
    Forall (fun e => isTerminal e = false) added
    /\ ((exists e, m sent = (sent ++ added, Threw e))
        \/ (exists last, isFinal last = true
                         /\ m sent = (sent ++ added ++ [last], Returned tt))).

(** The entry of the final event for a task that could not be sent. *)
Definition unavailableResult (task : NormalizedTask) : TodoistTaskResult :=
  {| planned := task; status := failed; todoistId := JUndefined;
     error := Some (js "Todoist MCP client is unavailable") |}.

(** ** Vocabulary for a run without a client *)

(** One of the two secrets is not configured: unset, or empty. *)
Definition unconfigured (env : CloudflareEnv) : Prop :=
  truthyOpt (TODOIST_MCP_URL env) = false
  \/ truthyOpt (TODOIST_TOKEN env) = false.

(** The endpoint is set, to a text that is not a URL. *)
Definition malformedEndpoint (parseURL : JSString -> option JSString)
  (env : CloudflareEnv) : bool :=
  match TODOIST_MCP_URL env with
  | Some ((_ :: _) as endpoint) =>
      match parseURL endpoint with
      | Some _ => false
      | None => true
      end
  | _ => false
  end.

(** C10 as the specification words it: with a secret not configured the
    stream carries no error event, it announces a plan, and it ends with a
    final event in which every task of that plan is failed as unavailable. *)
Definition offline_claim_as_stated (toLowerCase : JSString -> JSString)
  (JSON_parse : JSString -> option JSON) (parseURL : JSString -> option JSString)
  (isIsoDatetime : JSString -> bool) : Prop :=
  forall (w : World) (data : PlanRequestBody),
    unconfigured (env w) ->
    let events := POST toLowerCase JSON_parse parseURL isIsoDatetime w data in
    Forall (fun e => isError e = false) events
    /\ exists s tasks i,
         In (ev_ai_plan s tasks i) events
         /\ last events (ev_status [] [])
            = ev_final 0 (List.length tasks) (map unavailableResult tasks).

(** The sample collaborators without a token, the endpoint being set to a
    text that is not a URL. *)
Definition misconfiguredWorld : World :=
  {| env := {| TODOIST_MCP_URL := Some (js "not a url");
               TODOIST_TOKEN := None |};
     connect := connect sampleWorld;
     listTools := listTools sampleWorld;
     intentResponse := intentResponse sampleWorld;
     listMetadata := listMetadata sampleWorld;
     planResponse := planResponse sampleWorld;
     createCall := createCall sampleWorld |}.

(** The sample collaborators without an endpoint, the plan model failing. *)
Definition offlineFailingWorld : World :=
  {| env := env offlineWorld;
     connect := connect sampleWorld;
     listTools := listTools sampleWorld;
     intentResponse := intentResponse sampleWorld;
     listMetadata := listMetadata sampleWorld;
     planResponse := Threw (js "model unavailable");
     createCall := createCall sampleWorld |}.

(** ** Vocabulary for priority cues *)

(** The text [s] starts with a cue: the cue word, optional white space, and
    a digit [d] between 0 and 4. *)
Definition cue_here (word s : JSString) (d : N) : Prop :=
  exists spaces rest,
    s = word ++ spaces ++ d :: rest
    /\ Forall (fun c => isWhiteSpace c = true) spaces
    /\ isCueDigit d = true.

(** The letter [p] of a cue must open the prompt or follow a unit that is
    neither a lower-case letter nor a digit. *)
Definition at_boundary (before : JSString) : Prop :=
  before = [] \/ exists b c, before = b ++ [c] /\ isLowerAlnum c = false.

Definition cue_word (form : Pattern) : JSString :=
  match form with
  | PatP => letterP
  | PatPriority => wordPriority
  | PatYouXianJi => wordYouXianJi
  end.

(** A cue of the given form with digit [d] occurs in [normalized] right
    after the text [before]. *)
Definition occurs (form : Pattern) (normalized before : JSString) (d : N) : Prop :=
  exists tail,
    normalized = before ++ tail
    /\ cue_here (cue_word form) tail d
    /\ match form with PatP => at_boundary before | _ => True end.

(** The leftmost cue of a form. *)
Definition first_cue (form : Pattern) (normalized : JSString) (d : N) : Prop :=
  exists before,
    occurs form normalized before d
    /\ forall before' d', occurs form normalized before' d' ->
                          (List.length before <= List.length before')%nat.

Definition rank (form : Pattern) : nat :=
  match form with PatP => 0 | PatPriority => 1 | PatYouXianJi => 2 end.

(** The cue that decides: the leftmost cue of the first form, in the order
    [P<n>], [priority <n>], the localized marker, that occurs at all. *)
Definition deciding_cue (normalized : JSString) (d : N) : Prop :=
  exists form,
    first_cue form normalized d
    /\ forall form' before' d', (rank form' < rank form)%nat ->
                                ~ occurs form' normalized before' d'.

(** The priority of a cue digit as the specification states it: any digit
    other than 0 to 3 gives no priority. *)
Definition spec_api_as_stated (d : N) : option Z :=
  if (d =? 48)%N then Some 4 else if (d =? 49)%N then Some 4
  else if (d =? 50)%N then Some 3 else if (d =? 51)%N then Some 2
  else None.

(** The priority of a cue digit with the lowest urgency included: P4 is
    priority 1. *)
Definition spec_api (d : N) : option Z :=
  if (d =? 52)%N then Some 1 else spec_api_as_stated d.

(** The first suffix of a text on which a matcher succeeds. *)
Fixpoint firstSuffix {B} (f : JSString -> option B) (s : JSString) : option B :=
  match f s with
  | Some b => Some b
  | None =>
      match s with
      | [] => None
      | _ :: s' => firstSuffix f s'
      end
  end.

(** The second alternative of the [P<n>] pattern, anchored at a suffix. *)
Definition boundaryCueAt (s : JSString) : option N :=
  match s with
  | [] => None
  | c :: s' => if isLowerAlnum c then None else cueAt letterP s'
  end.

(** ** Vocabulary for array payloads *)

(** The first element of a list on which a partial function is defined. *)
Fixpoint firstSome {A B} (f : A -> option B) (xs : list A) : option B :=
  match xs with
  | [] => None
  | x :: rest => match f x with Some b => Some b | None => firstSome f rest end
  end.

(** An array can be reached from a value through objects nested under the
    searched keys: the value is that array, or it is an object one of whose
    searched keys leads to it. *)
Inductive reachable (keys : list JSString) : JSON -> list JSON -> Prop :=
| reach_here (items : list JSON) : reachable keys (JArr items) items
| reach_under (fields : list (JSString * JSON)) (key : JSString)
    (arr : list JSON) :
    In key keys ->
    reachable keys (getProp (JObj fields) key) arr ->
    reachable keys (JObj fields) arr.

(** No array can be reached from a value. *)
Definition barren (keys : list JSString) (value : JSON) : Prop :=
  forall arr, ~ reachable keys value arr.

(** A reply whose structured content wraps the projects under [items]. *)
Definition itemsReply : JSON :=
  JObj [(js "content", JArr []);
        (js "structuredContent",
         JObj [(js "items",
                JArr [JObj [(js "id", JStr (js "1"));
                            (js "name", JStr (js "Home"))]])])].

(** ** Vocabulary for labels *)

(** [xs] keeps some elements of [ys], in the order of [ys]. *)
Inductive subsequence {A} : list A -> list A -> Prop :=
| sub_nil (ys : list A) : subsequence [] ys
| sub_keep (x : A) (xs ys : list A) :
    subsequence xs ys -> subsequence (x :: xs) (x :: ys)
| sub_skip (y : A) (xs ys : list A) :
    subsequence xs ys -> subsequence xs (y :: ys).

Section LabelVocabulary.
Variable toLowerCase : JSString -> JSString.

(** Two labels are the same up to case and surrounding white space. *)
Definition same_label (a b : JSString) : Prop :=
  toLowerCase (trim a) = toLowerCase (trim b).

(** [r] stands for the first label of its kind in [labels]: it is that
    label trimmed, and no label before it, blank ones apart, is the same up
    to case. *)
Definition first_seen (labels : list JSString) (r : JSString) : Prop :=
  exists earlier label later,
    labels = earlier ++ label :: later
    /\ r = trim label
    /\ forall other, In other earlier -> trim other <> [] ->
                     ~ same_label other label.

(** The labels the request falls back on when a task names none. *)
Definition labelSource (preferred fallback inferred : option (list JSString))
  : option (list JSString) :=
  match preferred with
  | Some (l :: ls) => Some (l :: ls)
  | _ => match fallback with Some f => Some f | None => inferred end
  end.

(** The catalog's name for a label, when the catalog knows it up to case. *)
Definition catalogName (context : TodoistMetadata) (label : JSString)
  : option JSString :=
  option_map label_name
    (find (fun entry => eqb (toLowerCase (label_name entry)) (toLowerCase (trim label)))
          (meta_labels context)).

(** A source label with its casing restored from the catalog. *)
Definition restored (context : TodoistMetadata) (label : JSString) : JSString :=
  match catalogName context label with
  | Some name => name
  | None => trim label
  end.

(** The source labels that survive canonicalisation, casing restored. *)
Definition restoredLabels (context : TodoistMetadata) (source : list JSString)
  : list JSString :=
  filter truthy
    (map (restored context) (filter (fun label => truthy (trim label)) source)).

(** C9 as the specification words it: duplicates collapse to the casing of
    the label seen first in the input. *)
Definition labels_claim_as_stated : Prop :=
  forall preferred fallback context inferred result r,
    normalizeLabels toLowerCase preferred fallback context inferred = Some result ->
    In r result ->
    exists source,
      labelSource preferred fallback inferred = Some source
      /\ first_seen source r.

End LabelVocabulary.

(** The loop of [dedupeLabels] without its cap. *)
Fixpoint firstSeen (toLowerCase : JSString -> JSString) (seen : list JSString)
  (labels : list JSString) : list JSString :=
  match labels with
  | [] => []
  | label :: rest =>
      let t := trim label in
      if negb (truthy t) || existsb (eqb (toLowerCase t)) seen
      then firstSeen toLowerCase seen rest
      else t :: firstSeen toLowerCase (toLowerCase t :: seen) rest
  end.

Definition workCatalog : TodoistMetadata :=
  {| projects := [];
     meta_labels := [ {| label_id := js "7"; label_name := js "WORK" |} ] |}.

(** * Further vocabulary *)

(** The first defined value of a list of optional values. *)
Fixpoint firstDefined {A} (xs : list (option A)) : option A :=
  match xs with
  | [] => None
  | Some a :: _ => Some a
  | None :: rest => firstDefined rest
  end.

(** [needle] occurs somewhere in [haystack]. *)
Definition contains (haystack needle : JSString) : Prop :=
  exists before after, haystack = before ++ needle ++ after.

(** A property of an object, when the object has it. *)
Definition hasProp (value : JSON) (key : JSString) : bool :=
  negb (isUndefined (getProp value key)).

(** The due keys of a tool payload. *)
Definition dueKeys : list JSString :=
  [js "dueDatetime"; js "dueDate"; js "dueString"].

(** An optional string as a value. *)
Definition jsonOfString (o : option JSString) : JSON :=
  match o with Some s => JStr s | None => JUndefined end.

(** The fields of a task's due object, none when the task has no due. *)
Definition dueField (get : Due -> option JSString) (task : NormalizedTask)
  : option JSString :=
  match n_due task with Some d => get d | None => None end.

(** An alias rule matches a tool: by one of its names or by its predicate. *)
Definition aliasMatches (alias : TodoistListToolAlias) (tool : Tool) : bool :=
  match alias_names alias with
  | Some names => existsb (eqb (tool_name tool)) names
  | None => false
  end
  || match alias_match alias with
     | Some pred => pred tool
     | None => false
     end.

(** The tool names the alias tables know literally. *)
Definition knownListToolNames : list JSString :=
  [js "todoist_projects"; js "todoist.projects.list"; js "todoist.projects.search";
   js "todoist.projects.overview"; js "find-projects";
   js "todoist_labels"; js "todoist.labels.list"; js "todoist.labels.search";
   js "find-labels"].

(** The fallback decision of the intent classifier. *)
Definition fallbackDecision : IntentDecision :=
  {| intent := general_plan;
     decision_summary := Some (js "Fallback because classification failed");
     days := None;
     keywords := None |}.

(** A tool result as the SDK hands it over: an object whose [content], when
    present, is an array of blocks, none of them [null] or [undefined], the
    [text] of a block being a string when it is set at all. *)
Definition wellFormedBlock (item : JSON) : bool :=
  negb (isNullish item)
  && match getProp item (js "text") with
     | JStr _ => true
     | other => negb (truthyJ other)
     end.

Definition wellFormedResult (response : JSON) : bool :=
  match response with
  | JObj _ =>
      match getProp response (js "content") with
      | JUndefined | JNull => true
      | JArr items => forallb wellFormedBlock items
      | _ => false
      end
  | _ => false
  end.

(** The white-space units. *)
Definition blank (s : JSString) : Prop := Forall (fun c => isWhiteSpace c = true) s.

(** ** Vocabulary for the reports of a run *)

(** An entry of the final event tells its outcome consistently: a created
    task carries no error, a failed task carries one and no identifier, and
    no entry is left pending. *)
Definition wellReported (r : TodoistTaskResult) : Prop :=
  match status r with
  | created => error r = None
  | failed => todoistId r = JUndefined /\ exists message, error r = Some message
  | pending => False
  end.

(** The events a computation adds report on a plan they announce: a final
    event counts exactly the tasks of an [ai.plan] event among them, and a
    task event is about one of the tasks of such an event. *)
Definition followsPlan (added : list StreamEvent) : Prop :=
  (forall c f results,
     In (ev_final c f results) added ->
     (c + f = List.length results)%nat
     /\ c = List.length (filter (isStatus created) results)
     /\ results <> []
     /\ Forall wellReported results
     /\ exists s i, In (ev_ai_plan s (map planned results) i) added)
  /\ (forall st task id err,
        In (ev_todoist_task st task id err) added ->
        exists s tasks i, In (ev_ai_plan s tasks i) added /\ In task tasks).

Definition reportsPlan (m : Pipe unit) : Prop :=
  forall sent, exists added,
    fst (m sent) = sent ++ added /\ followsPlan added.

(** A computation that adds neither a plan, a task nor a terminal event. *)
Definition isProgress (e : StreamEvent) : bool :=
  match e with
  | ev_final _ _ _ | ev_error _ _ | ev_ai_plan _ _ _
  | ev_todoist_task _ _ _ _ => false
  | _ => true
  end.

Definition narrates {A} (m : Pipe A) : Prop :=
  forall sent, exists added,
    fst (m sent) = sent ++ added
    /\ Forall (fun e => isProgress e = true) added.

(** The sample collaborators with a server whose first tool listing fails. *)
Definition flakyListingWorld : World :=
  {| env := env sampleWorld;
     connect := connect sampleWorld;
     listTools := fun n =>
       match n with
       | O => Threw (js "listing failed")
       | S _ => Returned (Some [createTaskTool])
       end;
     intentResponse := intentResponse sampleWorld;
     listMetadata := listMetadata sampleWorld;
     planResponse := planResponse sampleWorld;
     createCall := createCall sampleWorld |}.

(** The sample collaborators with a server that offers no creation tool. *)
Definition readOnlyWorld : World :=
  {| env := env sampleWorld;
     connect := connect sampleWorld;
     listTools := fun _ =>
       Returned (Some [ {| tool_name := js "find-tasks";
                           tool_description := Some (js "Find tasks") |} ]);
     intentResponse := intentResponse sampleWorld;
     listMetadata := listMetadata sampleWorld;
     planResponse := planResponse sampleWorld;
     createCall := createCall sampleWorld |}.

(** ** The array a search settles on *)

(** The array the search for [keys] settles on: the value itself when it is
    an array; for an object, what the search settles on under the first of
    the keys, in their order, from which an array can be reached at all. *)
Inductive settles (keys : list JSString) : JSON -> list JSON -> Prop :=
| settles_here (items : list JSON) : settles keys (JArr items) items
| settles_under (fields : list (JSString * JSON))
    (earlier : list JSString) (key : JSString) (later : list JSString)
    (arr : list JSON) :
    keys = earlier ++ key :: later ->
    (forall k, In k earlier -> barren keys (getProp (JObj fields) k)) ->
    settles keys (getProp (JObj fields) key) arr ->
    settles keys (JObj fields) arr.

(** A reply whose structured content holds an array three objects deep
    under [projects], and another one directly under [labels]. *)
Definition nestedReply : JSON :=
  JObj [(js "content", JArr []);
        (js "structuredContent",
         JObj [(js "projects",
                JObj [(js "data", JObj [(js "items", JArr [JNum 1])])]);
               (js "labels", JArr [JNum 2])])].

(** ** Request validation and the allowed origin (requestSchema,
    resolveOrigin) *)

(** A request body that has the shape of the schema; [maxTasks] is still
    optional here. *)
Record RequestShape := {
  raw_prompt : JSString;
  raw_timezone : option JSString;
  raw_due : option JSString;
  raw_preferences : option JSString;
  raw_labels : option (list JSString);
  raw_priority : option Z;
  raw_maxTasks : option Z
}.

Definition minLength (n : nat) (s : JSString) : bool :=
  Nat.leb n (List.length s).

(** [requestSchema.safeParse] on a body of the right shape: the constraints
    on lengths and ranges remain to be checked and the default of
    [maxTasks] to be filled in; [None] is a failed parse. *)
Definition requestSchema_safeParse (raw : RequestShape) : option PlanRequestBody :=
  if minLength 1 (raw_prompt raw)
     && optAll (minLength 3) (raw_timezone raw)
     && optAll (minLength 3) (raw_due raw)
     && optAll (minLength 1) (raw_preferences raw)
     && optAll (fun ls => Nat.leb (List.length ls) 5 && forallb (minLength 1) ls)
          (raw_labels raw)
     && optAll (fun p => (1 <=? p) && (p <=? 4)) (raw_priority raw)
     && optAll (fun m => (MIN_TASKS <=? m) && (m <=? MAX_TASKS)) (raw_maxTasks raw)
  then Some {| prompt := raw_prompt raw;
               timezone := raw_timezone raw;
               req_due := raw_due raw;
               preferences := raw_preferences raw;
               req_labels := raw_labels raw;
               req_priority := raw_priority raw;
               req_maxTasks := match raw_maxTasks raw with
                               | Some m => m
                               | None => 5
                               end |}
  else None.

(** [s.split(sep)] for a separator of one code unit. *)
Fixpoint splitOn (sep : N) (s : JSString) : list JSString :=
  match s with
  | [] => [[]]
  | c :: s' =>
      if N.eqb c sep then [] :: splitOn sep s'
      else
        match splitOn sep s' with
        | piece :: pieces => (c :: piece) :: pieces
        | [] => [[c]]
        end
  end.

(** What [resolveOrigin] throws: the 403 response, or an [Error]. *)
Inductive OriginFailure :=
| forbidden
| originError (message : JSString).

(** [requestOrigin] is [request.headers.get("Origin")]. *)
Definition resolveOrigin (requestOrigin : option JSString) (allowed : JSString)
  : JSString + OriginFailure :=
  let configured := filter truthy (map trim (splitOn 44 allowed)) in
  match configured with
  | [] => inr (originError (js "FRONTEND_ORIGIN is not configured"))
  | first :: _ =>
      match requestOrigin with
      | Some ((_ :: _) as origin) =>
          if existsb (eqb origin) configured then inl origin else inr forbidden
      | _ => inl first
      end
  end.

(** ** Basic authentication (middleware.ts) *)

Module Middleware.

Inductive Response :=
| next
| unauthorized
| notConfigured.

Section Decoding.

(** [Buffer.from(text, "base64").toString("utf8")], which does not throw on
    a string. *)
Variable decodeBase64 : JSString -> JSString.

(** [username] and [password] are the two secrets of the environment,
    [header] is [request.headers.get("authorization")].  The header starts
    with ["Basic "] where it is decoded, so replacing the first occurrence
    of that text leaves what follows the prefix. *)
Definition middleware (username password header : option JSString) : Response :=
  match username, password with
  | Some ((_ :: _) as username), Some ((_ :: _) as password) =>
      match header with
      | None => unauthorized
      | Some header =>
          match stripPrefix (js "Basic ") header with
          | None => unauthorized
          | Some encoded =>
              let decoded := decodeBase64 encoded in
              match indexOfUnit 58 decoded with
              | None => unauthorized
              | Some separator =>
                  let providedUser := slice 0 separator decoded in
                  let providedPass := skipn (S separator) decoded in
                  if negb (eqb providedUser username)
                     || negb (eqb providedPass password)
                  then unauthorized
                  else next
              end
          end
      end
  | _, _ => notConfigured
  end.

End Decoding.

End Middleware.

(** ** Reading the stream in the page (page.tsx: flushLines, handleSubmit) *)

Module Page.

(** The loop of [flushLines]; [delivered] collects the lines handed to
    [onLine], in order.  Each round drops at least the line break from
    [remaining], so the length of the buffer bounds the rounds. *)
Fixpoint flushLoop (fuel : nat) (remaining : JSString)
  (delivered : list JSString) : JSString * list JSString :=
  match fuel with
  | O => (remaining, delivered)
  | S fuel' =>
      match indexOfUnit 10 remaining with
      | None => (remaining, delivered)
      | Some newlineIndex =>
          let line := trim (slice 0 newlineIndex remaining) in
          let remaining := skipn (S newlineIndex) remaining in
          flushLoop fuel' remaining
            (match line with
             | [] => delivered
             | _ :: _ => delivered ++ [line]
             end)
      end
  end.

Definition flushLines (buffer : JSString) : JSString * list JSString :=
  flushLoop (S (List.length buffer)) buffer [].

(** The reading loop of [handleSubmit]; [chunks] are the decoded chunks in
    the order they arrive. *)
Fixpoint readLoop (chunks : list JSString) (buffer : JSString)
  (delivered : list JSString) : JSString * list JSString :=
  match chunks with
  | [] => (buffer, delivered)
  | value :: rest =>
      let '(remaining, lines) := flushLines (buffer ++ value) in
      readLoop rest remaining (delivered ++ lines)
  end.

(** The lines handed to [enqueueEvent] for one response. *)
Definition readLines (chunks : list JSString) : list JSString :=
  let '(buffer, delivered) := readLoop chunks [] [] in
  match trim buffer with
  | [] => delivered
  | _ :: _ => delivered ++ [buffer]
  end.

(** A line as the route writes it: not blank, without a line break and
    without white space around it. *)
Definition isLine (line : JSString) : Prop :=
  line <> [] /\ trim line = line /\ ~ In 10%N line.

(** [lines.map(line => line + "\n").join("")] *)
Definition writeLines (lines : list JSString) : JSString :=
  List.concat (map (fun line => line ++ [10%N]) lines).

End Page.

(** ** The transcription route (api/transcribe/route.ts) *)

Module Transcribe.

Inductive WhisperTask := transcribe | translate.

(** A body that has the shape of [whisperRequestSchema]. *)
Record WhisperRequest := {
  audio : JSString;
  language : option JSString;
  task : option WhisperTask
}.

Definition MAX_AUDIO_BYTES : Z := 8 * 1024 * 1024.

Definition whisperRequestSchema_safeParse (raw : WhisperRequest)
  : option WhisperRequest :=
  if minLength 16 (audio raw) && optAll (minLength 2) (language raw)
  then Some raw else None.

(** [Math.floor((length / 4) * 3)]: the division by four and the product
    are exact in double precision for the length of a string. *)
Definition estimatedBytes (payload : JSString) : Z :=
  (Z.of_nat (List.length payload) * 3) / 4.

(** What the model answers: an object with optional fields. *)
Record WhisperResponse := {
  text : option JSString;
  transcription_language : option JSString
}.

Inductive Reply :=
| invalid
| tooLarge
| failedReply
| transcript (text : JSString) (language : option JSString).

Definition status (r : Reply) : Z :=
  match r with
  | invalid => 400
  | tooLarge => 413
  | failedReply => 500
  | transcript _ _ => 200
  end.

(** The object passed to the model. *)
Record WhisperPayload := {
  payload_audio : JSString;
  payload_language : option JSString;
  payload_task : option WhisperTask
}.

(** [run] is [env.AI.run] on the Whisper model, [None] an answer that is
    not an object; [body] is [None] when it is not JSON of the shape of the
    schema. *)
Definition POST (run : WhisperPayload -> Outcome (option WhisperResponse))
  (body : option WhisperRequest) : Reply :=
  match (match body with
         | Some raw => whisperRequestSchema_safeParse raw
         | None => None
         end) with
  | None => invalid
  | Some data =>
      if MAX_AUDIO_BYTES <? estimatedBytes (audio data) then tooLarge
      else
        let payload :=
          {| payload_audio := audio data;
             payload_language :=
               if truthyOpt (language data) then language data else None;
             payload_task := task data |} in
        match run payload with
        | Returned (Some response) =>
            match text response with
            | Some ((_ :: _) as t) => transcript t (transcription_language response)
            | _ => failedReply
            end
        | _ => failedReply
        end
  end.

End Transcribe.

(** * Properties *)

Lemma clampMax_spec (v : Z) : clampMax v = spec_clamp 1 10 v.
Proof.
  unfold clampMax, spec_clamp, MIN_TASKS, MAX_TASKS.
  destruct (Z.ltb_spec v 1), (Z.ltb_spec 10 v); lia.
Qed.

Lemma clampMax_range (v : Z) : 1 <= clampMax v <= 10.
Proof. unfold clampMax, MIN_TASKS, MAX_TASKS. lia. Qed.

Lemma determineScenario_intent (decision : IntentDecision) (input : PlanRequestBody) :
  scenario_intent (determineScenario decision input) = intent decision.
Proof. unfold determineScenario. destruct (intent decision); reflexivity. Qed.

Lemma determineScenario_range (decision : IntentDecision) (input : PlanRequestBody) :
  1 <= maxTasks (determineScenario decision input) <= 10.
Proof.
  unfold determineScenario.
  destruct (intent decision); cbn [maxTasks]; try apply clampMax_range; lia.
Qed.

(** C6: scenario selection is the table of the specification: the intent is
    carried over, the task bound is [spec_maxTasks] and the temperature is
    [spec_temperature], for every intent decision and request. *)
Theorem determineScenario_table (decision : IntentDecision) (input : PlanRequestBody) :
  scenario_intent (determineScenario decision input) = intent decision
  /\ maxTasks (determineScenario decision input) = spec_maxTasks decision input
  /\ (temperature (determineScenario decision input)
      == spec_temperature (intent decision))%Q.
Proof.
  unfold determineScenario, spec_maxTasks.
  destruct (intent decision); cbn [scenario_intent maxTasks temperature];
    repeat split; try reflexivity; rewrite ?clampMax_spec; try reflexivity.
  f_equal. f_equal. unfold spec_clamp.
  destruct (days decision) as [d|];
    repeat match goal with |- context [Z.ltb ?a ?b] => destruct (Z.ltb_spec a b) end; lia.
Qed.

Lemma truthyOpt_nonEmpty (x : option JSString) :
  truthyOpt x = match nonEmpty x with Some _ => true | None => false end.
Proof. destruct x as [[|c s]|]; reflexivity. Qed.

(** C5 (amended): due selection follows the precedence task datetime, task
    date, task string, request hint, a field counting when it is defined and
    not the empty string; the result carries exactly one representation, and
    it is undefined exactly when none of the four fields counts. *)
Theorem selectDue_precedence (fromTask : option Due) (hint : option JSString) :
  selectDue fromTask hint = spec_selectDue nonEmpty fromTask hint
  /\ match selectDue fromTask hint with
     | Some d => representations d = 1%nat
     | None =>
         nonEmpty hint = None
         /\ match fromTask with
            | Some d => nonEmpty (due_datetime d) = None
                        /\ nonEmpty (due_date d) = None
                        /\ nonEmpty (due_string d) = None
            | None => True
            end
     end.
Proof.
  unfold selectDue, spec_selectDue.
  destruct fromTask as [[s d dt]|]; cbn [due_string due_date due_datetime negb andb].
  - destruct dt as [[|c1 dt]|], d as [[|c2 d]|], s as [[|c3 s]|],
      hint as [[|c4 h]|]; cbn; auto.
  - destruct hint as [[|c4 h]|]; cbn; auto.
Qed.

(** C5, counterexample: a task whose due object carries the empty string as
    its [string] field, with no request hint, is normalised to no due at
    all, although one of the four fields is defined. *)
Lemma selectDue_empty_string_dropped :
  let task_due := {| due_string := Some []; due_date := None;
                     due_datetime := None |} in
  selectDue (Some task_due) None = None
  /\ spec_selectDue defined (Some task_due) None = Some task_due
  /\ ~ due_claim_as_stated.
Proof.
  cbv zeta. repeat split.
  intro H.
  specialize (H (Some {| due_string := Some []; due_date := None;
                          due_datetime := None |}) None).
  discriminate H.
Qed.

(** ** Plan generation *)

Lemma sliceTo_length {A} (n : Z) (xs : list A) :
  0 <= n -> Z.of_nat (List.length (sliceTo n xs)) <= n.
Proof.
  intro Hn. unfold sliceTo.
  destruct (Z.ltb_spec n 0); [lia|].
  rewrite length_firstn. lia.
Qed.

(** C4: a plan that [generatePlan] returns for the scenario selected from
    any intent decision and request has at least one task and at most
    [maxTasks] tasks, and that bound lies between 1 and 10; an answer
    without tasks is never returned as a plan. *)
Theorem generatePlan_task_count
  (toLowerCase : JSString -> JSString) (isIsoDatetime : JSString -> bool)
  (w : World) (input : PlanRequestBody) (decision : IntentDecision)
  (context : TodoistMetadata) (priorityHint : option Z)
  (inferredProject : option TodoistProjectSummary)
  (inferredLabels : option (list JSString)) (plan : GeneratedPlan)
  (Hplan : generatePlan toLowerCase isIsoDatetime w input
             (determineScenario decision input) context priorityHint
             inferredProject inferredLabels = Returned plan) :
  1 <= Z.of_nat (List.length (tasks plan))
       <= maxTasks (determineScenario decision input)
  /\ 1 <= maxTasks (determineScenario decision input) <= 10.
Proof.
  assert (Hrange : 1 <= maxTasks (determineScenario decision input) <= 10).
  { apply determineScenario_range. }
  split; [|exact Hrange].
  unfold generatePlan in Hplan.
  destruct (planResponse w) as [raw|e]; cbn [bindO] in Hplan; [|discriminate].
  destruct (aiPlanSchema_parse isIsoDatetime raw) as [p|e];
    cbn [bindO] in Hplan; [|discriminate].
  destruct (map _ (sliceTo _ (plan_tasks p))) as [|t kept] eqn:Hmap;
    [discriminate|].
  injection Hplan as <-. cbn [tasks].
  rewrite <- Hmap, length_map.
  split.
  - apply (f_equal (@List.length _)) in Hmap.
    rewrite length_map in Hmap. cbn [List.length] in Hmap. lia.
  - apply sliceTo_length. lia.
Qed.

(** C4, witness: three planned tasks under a multi-step scenario. *)
Lemma generatePlan_task_count_witness :
  exists plan,
    generatePlan asciiLower sampleDatetime sampleWorld sampleRequest
      (determineScenario sampleDecision sampleRequest) noMetadata None None None
    = Returned plan
    /\ 1 <= Z.of_nat (List.length (tasks plan))
            <= maxTasks (determineScenario sampleDecision sampleRequest)
    /\ 1 <= maxTasks (determineScenario sampleDecision sampleRequest) <= 10.
Proof.
  eexists. split; [reflexivity|].
  eapply (generatePlan_task_count asciiLower sampleDatetime sampleWorld
            sampleRequest sampleDecision noMetadata None None None).
  reflexivity.
Defined.

(** An answer that passes the schema always yields a plan, cut to the
    scenario's bound. *)
Lemma generatePlan_returns
  (toLowerCase : JSString -> JSString) (isIsoDatetime : JSString -> bool)
  (w : World) (input : PlanRequestBody) (decision : IntentDecision)
  (context : TodoistMetadata) (priorityHint : option Z)
  (inferredProject : option TodoistProjectSummary)
  (inferredLabels : option (list JSString)) (raw : AiPlan) :
  planResponse w = Returned raw ->
  aiPlanSchema_parse isIsoDatetime raw = Returned raw ->
  exists plan,
    generatePlan toLowerCase isIsoDatetime w input
      (determineScenario decision input) context priorityHint
      inferredProject inferredLabels = Returned plan
    /\ List.length (tasks plan)
       = Nat.min (Z.to_nat (maxTasks (determineScenario decision input)))
                 (List.length (plan_tasks raw)).
Proof.
  intros Hraw Hvalid. unfold generatePlan. rewrite Hraw. cbn [bindO].
  rewrite Hvalid. cbn [bindO].
  assert (Hrange : 1 <= maxTasks (determineScenario decision input) <= 10).
  { apply determineScenario_range. }
  unfold aiPlanSchema_parse in Hvalid.
  destruct (forallb _ _ && _) eqn:Hok; [|discriminate].
  apply andb_prop in Hok as [_ Hmin]. unfold MIN_TASKS in Hmin.
  apply Z.leb_le in Hmin.
  unfold sliceTo. destruct (Z.ltb_spec (maxTasks (determineScenario decision input)) 0);
    [lia|].
  destruct (plan_tasks raw) as [|t ts] eqn:Htasks; [cbn in Hmin; lia|].
  destruct (Z.to_nat (maxTasks (determineScenario decision input))) as [|k] eqn:Hk;
    [lia|].
  cbn [firstn map]. eexists. split; [reflexivity|].
  cbn [tasks List.length]. rewrite length_map, length_firstn. lia.
Qed.

(** ** Creation-tool resolution *)

Lemma eqb_eq (a b : JSString) : eqb a b = true <-> a = b.
Proof.
  revert b. induction a as [|x a IH]; intros [|y b]; cbn; split;
    try congruence; try discriminate.
  - intros H. apply andb_prop in H as [Hx Hab].
    apply N.eqb_eq in Hx. apply IH in Hab. congruence.
  - intros [= -> ->]. rewrite N.eqb_refl. apply IH. reflexivity.
Qed.

Lemma eqb_refl (a : JSString) : eqb a a = true.
Proof. apply eqb_eq. reflexivity. Qed.

Lemma eqb_sym (a b : JSString) : eqb a b = eqb b a.
Proof.
  destruct (eqb a b) eqn:E.
  - apply eqb_eq in E. subst. symmetry. apply eqb_refl.
  - destruct (eqb b a) eqn:E'; [|reflexivity].
    apply eqb_eq in E'. subst. rewrite eqb_refl in E. discriminate.
Qed.

Lemma find_first {A} (f : A -> bool) (l : list A) (x : A) :
  find f l = Some x <->
  exists earlier later,
    l = earlier ++ x :: later /\ f x = true
    /\ forall m, In m earlier -> f m = false.
Proof.
  induction l as [|a l IH]; cbn.
  - split; [discriminate|]. intros ([|? ?] & ? & H & _); discriminate.
  - destruct (f a) eqn:Ha.
    + split.
      * intros [= ->]. exists [], l. cbn. repeat split; auto. intros ? [].
      * intros ([|m earlier] & later & Hl & Hx & Hm).
        -- now injection Hl as ->.
        -- injection Hl as -> _. rewrite (Hm m) in Ha by (left; reflexivity).
           discriminate.
    + rewrite IH. split.
      * intros (earlier & later & -> & Hx & Hm).
        exists (a :: earlier), later. cbn. repeat split; auto.
        intros m [<-|Hin]; auto.
      * intros ([|m earlier] & later & Hl & Hx & Hm).
        -- injection Hl as ->. congruence.
        -- injection Hl as -> ->. exists earlier, later. repeat split; auto.
           intros m' Hin. apply Hm. now right.
Qed.

Lemma find_none_iff {A} (f : A -> bool) (l : list A) :
  find f l = None <-> forall m, In m l -> f m = false.
Proof.
  split.
  - intros H m Hin. exact (find_none f l H m Hin).
  - induction l as [|a l IH]; cbn; [reflexivity|].
    intros H. rewrite (H a) by now left. apply IH. intros m Hm. apply H. now right.
Qed.

Lemma offers_name (tools : list Tool) (candidate : JSString) :
  existsb (fun tool => eqb (tool_name tool) candidate) tools = true
  <-> In candidate (map tool_name tools).
Proof.
  rewrite existsb_exists, in_map_iff.
  split; intros (t & H1 & H2); exists t.
  - apply eqb_eq in H2. auto.
  - split; [tauto|]. apply eqb_eq. tauto.
Qed.

Lemma preference_lists_agree : preferredCreateTools = spec_preference.
Proof. reflexivity. Qed.

(** C7: with a token at hand (the handler reaches the resolution only
    then), resolution against a catalog returns a name exactly when it is
    the first name of the preference list that the catalog offers, whatever
    the descriptions say; when the catalog offers none of the names it
    throws. *)
Theorem resolveToolName_preference
  (listed : Outcome (option (list Tool))) (url : JSString)
  (token : option JSString) (tools : list Tool)
  (Htoken : truthyOpt token = true) :
  (forall n, resolveToolName listed url token (Some tools) = Returned n
             <-> first_preferred (map tool_name tools) n)
  /\ ((forall m, In m spec_preference -> ~ In m (map tool_name tools))
      -> exists e, resolveToolName listed url token (Some tools) = Threw e).
Proof.
  unfold resolveToolName. rewrite Htoken. cbn [negb bindO].
  rewrite preference_lists_agree.
  split.
  - intro n.
    destruct (find _ spec_preference) as [c|] eqn:Hfind.
    + apply find_first in Hfind as (earlier & later & Hl & Hc & Hm).
      split.
      * intros [= <-]. exists earlier, later. repeat split; auto.
        -- now apply offers_name.
        -- intros m Hin Hoff. apply offers_name in Hoff.
           rewrite (Hm m Hin) in Hoff. discriminate.
      * intros (earlier' & later' & Hl' & Hn & Hm').
        f_equal.
        assert (Hc' : In c (map tool_name tools)) by now apply offers_name.
        clear - Hl Hl' Hm Hm' Hn Hc'.
        rewrite Hl in Hl'. clear Hl.
        revert earlier' Hl' Hm'.
        induction earlier as [|a earlier IH]; intros [|b earlier'] Hl' Hm'; cbn in Hl'.
        -- congruence.
        -- injection Hl' as -> _. exfalso. apply (Hm' b); [now left|assumption].
        -- injection Hl' as -> _. exfalso.
           specialize (Hm n (or_introl eq_refl)).
           apply offers_name in Hn. congruence.
        -- injection Hl' as -> Hl'. apply (IH (fun m Hin => Hm m (or_intror Hin)) earlier' Hl').
           intros m Hin. apply Hm'. now right.
    + split; [discriminate|].
      intros (earlier & later & Hl & Hn & _).
      rewrite find_none_iff in Hfind.
      specialize (Hfind n). rewrite Hl in Hfind.
      rewrite (proj2 (offers_name tools n) Hn) in Hfind.
      discriminate Hfind. apply in_or_app. right. now left.
  - intros Hnone.
    destruct (find _ spec_preference) as [c|] eqn:Hfind.
    + apply find_some in Hfind as [Hin Hoff].
      apply offers_name in Hoff. destruct (Hnone c Hin Hoff).
    + eexists. reflexivity.
Qed.

(** C7, witness: a catalog that offers both the bulk tool and
    [create_task]. *)
Lemma resolveToolName_preference_witness :
  truthyOpt (Some (js "secret")) = true
  /\ (forall n,
        resolveToolName (Threw []) (js "https://ai.todoist.net/mcp")
          (Some (js "secret"))
          (Some [ {| tool_name := js "add-tasks"; tool_description := None |};
                  createTaskTool ]) = Returned n
        <-> first_preferred [js "add-tasks"; js "create_task"] n).
Proof.
  split; [reflexivity|].
  apply (resolveToolName_preference (Threw []) (js "https://ai.todoist.net/mcp")
           (Some (js "secret"))
           [ {| tool_name := js "add-tasks"; tool_description := None |};
             createTaskTool ]).
  reflexivity.
Defined.

(** Whenever a transport exists the token is set, so the handler never
    resolves the creation tool without one. *)
Lemma createTransport_token (parseURL : JSString -> option JSString)
  (env : CloudflareEnv) (t : Transport) :
  createTransport parseURL env = Returned (Some t) ->
  truthyOpt (TODOIST_TOKEN env) = true.
Proof.
  unfold createTransport, ensureUrl. intro H.
  destruct (TODOIST_MCP_URL env) as [[|c u]|]; try discriminate H.
  destruct (parseURL (c :: u)) as [href|]; cbn [bindO] in H; try discriminate H.
  destruct (TODOIST_TOKEN env) as [[|c' tok]|]; try discriminate H.
  reflexivity.
Qed.

(** Without a catalog at hand the same preference applies to the tools the
    client lists. *)
Lemma resolveToolName_listed (url : JSString) (token : option JSString)
  (listedTools : option (list Tool)) :
  truthyOpt token = true ->
  resolveToolName (Returned listedTools) url token None
  = resolveToolName (Threw []) url token
      (Some (match listedTools with Some tools => tools | None => [] end)).
Proof. intro H. unfold resolveToolName. rewrite H. reflexivity. Qed.

(** ** The synchronisation loop *)

Section SyncFacts.
Variable JSON_parse : JSString -> option JSON.
Variable callTool : nat -> JSString -> JSON -> Outcome JSON.
Variable input : PlanRequestBody.
Variable toolName : JSString.

Lemma syncTask_spec (index : nat) (task : NormalizedTask)
  (results : list TodoistTaskResult) (sent : list StreamEvent) :
  syncTask JSON_parse callTool input toolName index task results sent
  = (sent ++ expectedEvents JSON_parse callTool input toolName index task,
     Returned (results ++ [expectedResult task
                             (creationOutcome JSON_parse callTool input toolName
                                index task)])).
Proof.
  unfold syncTask, expectedEvents, creationOutcome, bind, tryCatch, send, lift, ret.
  cbv zeta.
  destruct (eqb toolName (js "add-tasks") || eqb toolName (js "add_tasks"));
    cbv iota;
    match goal with |- context [callTool index toolName ?p] =>
      destruct (callTool index toolName p) as [response|e] end;
    cbn [bindO expectedResult status todoistId error];
    try (destruct (parseTodoistResponse JSON_parse response) as [id|e]);
    cbn [bindO expectedResult status todoistId error];
    rewrite <- !app_assoc; reflexivity.
Qed.

Lemma syncLoop_spec (tasks : list NormalizedTask) :
  forall (index : nat) (results : list TodoistTaskResult) (sent : list StreamEvent),
    syncLoop JSON_parse callTool input toolName index tasks results sent
    = (sent ++ List.concat (mapFrom (expectedEvents JSON_parse callTool input toolName)
                         index tasks),
       Returned (results
                 ++ mapFrom (fun i task =>
                      expectedResult task
                        (creationOutcome JSON_parse callTool input toolName i task))
                      index tasks)).
Proof.
  induction tasks as [|task rest IH]; intros index results sent.
  - cbn. unfold ret. now rewrite !app_nil_r.
  - cbn [syncLoop mapFrom List.concat]. unfold bind at 1.
    rewrite syncTask_spec, IH. now rewrite <- !app_assoc.
Qed.

End SyncFacts.

Lemma mapFrom_length {A B} (f : nat -> A -> B) (xs : list A) :
  forall index, List.length (mapFrom f index xs) = List.length xs.
Proof. induction xs as [|x xs IH]; intro index; cbn; [reflexivity|now rewrite IH]. Qed.

Lemma mapFrom_nth {A B} (f : nat -> A -> B) (xs : list A) :
  forall index i, nth_error (mapFrom f index xs) i
                  = option_map (f (index + i)%nat) (nth_error xs i).
Proof.
  induction xs as [|x xs IH]; intros index [|i]; cbn; try reflexivity.
  - now rewrite Nat.add_0_r.
  - rewrite IH. now rewrite Nat.add_succ_r.
Qed.

(** C2: once the creation tool is resolved, the synchronisation returns one
    entry per task, in the order of the tasks, each entry being [created]
    with the decoded identifier or [failed] with the message thrown,
    according to the outcome of that task's own call; a failure does not
    stop the loop, and every task contributes its [pending] event and its
    outcome event to the stream.  For three tasks of which only the second
    call throws, the statuses are [created; failed; created] and the counts
    of the final event are 2 and 1. *)
Theorem syncWithTodoist_isolates_failures
  (JSON_parse : JSString -> option JSON) (parseURL : JSString -> option JSString)
  (callTool : nat -> JSString -> JSON -> Outcome JSON)
  (listed : Outcome (option (list Tool))) (tasks : list NormalizedTask)
  (env : CloudflareEnv) (input : PlanRequestBody)
  (availableTools : option (list Tool)) (url toolName : JSString)
  (sent : list StreamEvent)
  (Hurl : ensureUrl parseURL (orEmpty (TODOIST_MCP_URL env)) = Returned url)
  (Htool : resolveToolName listed url (TODOIST_TOKEN env) availableTools
           = Returned toolName) :
  exists results,
    syncWithTodoist JSON_parse parseURL callTool listed tasks env input
      availableTools sent
    = (sent ++ List.concat (mapFrom (expectedEvents JSON_parse callTool input toolName)
                              0 tasks),
       Returned results)
    /\ List.length results = List.length tasks
    /\ (forall i task,
          nth_error tasks i = Some task ->
          nth_error results i
          = Some (expectedResult task
                    (creationOutcome JSON_parse callTool input toolName i task)))
    /\ (forall t1 t2 t3 message,
          tasks = [t1; t2; t3] ->
          succeeded (creationOutcome JSON_parse callTool input toolName 0 t1) ->
          creationOutcome JSON_parse callTool input toolName 1 t2 = Threw message ->
          succeeded (creationOutcome JSON_parse callTool input toolName 2 t3) ->
          map status results = [created; failed; created]
          /\ map error results = [None; Some message; None]
          /\ List.length (filter (isStatus created) results) = 2%nat
          /\ List.length (filter (isStatus failed) results) = 1%nat).
Proof.
  eexists. split; [|split; [|split]].
  - unfold syncWithTodoist, bind, lift. rewrite Hurl, Htool.
    rewrite syncLoop_spec. cbn [app]. reflexivity.
  - apply mapFrom_length.
  - intros i task Hi. rewrite mapFrom_nth, Hi. reflexivity.
  - intros t1 t2 t3 message -> H1 H2 H3. cbn [mapFrom].
    rewrite H2.
    destruct (creationOutcome JSON_parse callTool input toolName 0 t1); [|destruct H1].
    destruct (creationOutcome JSON_parse callTool input toolName 2 t3); [|destruct H3].
    cbn. repeat split.
Qed.

(** C2, witness: three tasks against a server that rejects the second
    creation. *)
Lemma syncWithTodoist_isolates_failures_witness :
  exists results,
    syncWithTodoist sampleParse sampleURL secondCallFails (Threw [])
      [normalizedTitled "a"; normalizedTitled "b"; normalizedTitled "c"]
      sampleEnv sampleRequest (Some [createTaskTool]) []
    = ([] ++ List.concat
               (mapFrom (expectedEvents sampleParse secondCallFails sampleRequest
                           (js "create_task")) 0
                  [normalizedTitled "a"; normalizedTitled "b"; normalizedTitled "c"]),
       Returned results)
    /\ map status results = [created; failed; created]
    /\ map error results = [None; Some (js "rate limited"); None]
    /\ List.length (filter (isStatus created) results) = 2%nat
    /\ List.length (filter (isStatus failed) results) = 1%nat.
Proof.
  destruct (syncWithTodoist_isolates_failures sampleParse sampleURL
              secondCallFails (Threw [])
              [normalizedTitled "a"; normalizedTitled "b"; normalizedTitled "c"]
              sampleEnv sampleRequest (Some [createTaskTool])
              (js "https://ai.todoist.net/mcp") (js "create_task") []
              eq_refl eq_refl)
    as (results & Hrun & _ & _ & Hthree).
  exists results. split; [exact Hrun|].
  apply (Hthree (normalizedTitled "a") (normalizedTitled "b")
           (normalizedTitled "c") (js "rate limited") eq_refl I eq_refl I).
Defined.

(** ** The event stream *)

Lemma quiet_ret {A} (a : A) : quiet (ret a).
Proof. intro sent. exists []. cbn. rewrite app_nil_r. auto. Qed.

Lemma quiet_lift {A} (o : Outcome A) : quiet (lift o).
Proof. intro sent. exists []. cbn. rewrite app_nil_r. auto. Qed.

Lemma quiet_send (e : StreamEvent) : isTerminal e = false -> quiet (send e).
Proof. intros He sent. exists [e]. cbn. auto. Qed.

Lemma quiet_bind {A B} (m : Pipe A) (k : A -> Pipe B) :
  quiet m -> (forall a, quiet (k a)) -> quiet (bind m k).
Proof.
  intros Hm Hk sent. unfold bind.
  destruct (Hm sent) as (added & Hsent & Hadded).
  destruct (m sent) as [sent' [a|e]]; cbn [fst] in Hsent; subst sent'.
  - destruct (Hk a (sent ++ added)) as (added' & Hsent' & Hadded').
    exists (added ++ added'). rewrite Hsent', app_assoc. split; [reflexivity|].
    apply Forall_app. auto.
  - exists added. auto.
Qed.

Lemma quiet_tryCatch {A} (body : Pipe A) (handler : JSString -> Pipe A) :
  quiet body -> (forall e, quiet (handler e)) -> quiet (tryCatch body handler).
Proof.
  intros Hm Hk sent. unfold tryCatch.
  destruct (Hm sent) as (added & Hsent & Hadded).
  destruct (body sent) as [sent' [a|e]]; cbn [fst] in Hsent; subst sent'.
  - exists added. auto.
  - destruct (Hk e (sent ++ added)) as (added' & Hsent' & Hadded').
    exists (added ++ added'). rewrite Hsent', app_assoc. split; [reflexivity|].
    apply Forall_app. auto.
Qed.

Ltac quiet_step :=
  first
    [ apply quiet_ret
    | apply quiet_lift
    | apply quiet_send; reflexivity
    | apply quiet_tryCatch; [|intro]
    | apply quiet_bind; [|intro] ].

Lemma quiet_syncLoop (JSON_parse : JSString -> option JSON)
  (callTool : nat -> JSString -> JSON -> Outcome JSON)
  (input : PlanRequestBody) (toolName : JSString) (tasks : list NormalizedTask) :
  forall index results,
    quiet (syncLoop JSON_parse callTool input toolName index tasks results).
Proof.
  induction tasks as [|task rest IH]; intros index results; cbn [syncLoop].
  - apply quiet_ret.
  - apply quiet_bind; [|intro; apply IH].
    unfold syncTask. repeat quiet_step.
Qed.

Lemma quiet_syncWithTodoist (JSON_parse : JSString -> option JSON)
  (parseURL : JSString -> option JSString)
  (callTool : nat -> JSString -> JSON -> Outcome JSON)
  (listed : Outcome (option (list Tool))) (tasks : list NormalizedTask)
  (env : CloudflareEnv) (input : PlanRequestBody)
  (availableTools : option (list Tool)) :
  quiet (syncWithTodoist JSON_parse parseURL callTool listed tasks env input
           availableTools).
Proof.
  unfold syncWithTodoist.
  apply quiet_bind; [apply quiet_lift|intro].
  apply quiet_bind; [apply quiet_lift|intro].
  apply quiet_syncLoop.
Qed.

Lemma finishing_final (c f : nat) (results : list TodoistTaskResult) :
  finishing (send (ev_final c f results)).
Proof.
  intro sent. exists []. split; [constructor|]. right.
  exists (ev_final c f results). split; [reflexivity|]. reflexivity.
Qed.

Lemma finishing_bind {A} (m : Pipe A) (k : A -> Pipe unit) :
  quiet m -> (forall a, finishing (k a)) -> finishing (bind m k).
Proof.
  intros Hm Hk sent. unfold bind.
  destruct (Hm sent) as (added & Hsent & Hadded).
  destruct (m sent) as [sent' [a|e]]; cbn [fst] in Hsent; subst sent'.
  - destruct (Hk a (sent ++ added)) as (added' & Hadded' & [[e He]|(last & Hlast & He)]).
    + exists (added ++ added'). split; [apply Forall_app; auto|]. left.
      exists e. now rewrite He, app_assoc.
    + exists (added ++ added'). split; [apply Forall_app; auto|]. right.
      exists last. split; [assumption|]. now rewrite He, <- !app_assoc.
  - exists added. split; [assumption|]. left. now exists e.
Qed.

Lemma finishing_planBody (toLowerCase : JSString -> JSString)
  (JSON_parse : JSString -> option JSON) (parseURL : JSString -> option JSString)
  (isIsoDatetime : JSString -> bool) (w : World) (data : PlanRequestBody) :
  finishing (planBody toLowerCase JSON_parse parseURL isIsoDatetime w data).
Proof.
  unfold planBody.
  apply finishing_bind; [apply quiet_lift|intros transport].
  apply finishing_bind.
  { destruct transport; [|apply quiet_ret].
    apply quiet_bind; [apply quiet_lift|intro].
    apply quiet_tryCatch; [|intro; repeat quiet_step].
    apply quiet_bind; [apply quiet_lift|intros [tools|]]; repeat quiet_step. }
  intros availableTools.
  repeat (apply finishing_bind; [solve [repeat quiet_step]|intro]).
  apply finishing_bind.
  { destruct transport; [apply quiet_syncWithTodoist|apply quiet_ret]. }
  intro. apply finishing_final.
Qed.

Lemma filter_terminal_nil (events : list StreamEvent) :
  Forall (fun e => isTerminal e = false) events -> filter isTerminal events = [].
Proof.
  induction 1 as [|x l Hx Hl IH]; cbn [filter]; [reflexivity|].
  rewrite Hx. exact IH.
Qed.

(** C3: whatever the collaborators answer, the events of one request end
    with a terminal event, either [final] or [error] and never both, and no
    event before it is terminal; so exactly one terminal event is enqueued
    and nothing follows it. *)
Theorem POST_single_terminal (toLowerCase : JSString -> JSString)
  (JSON_parse : JSString -> option JSON) (parseURL : JSString -> option JSString)
  (isIsoDatetime : JSString -> bool) (w : World) (data : PlanRequestBody) :
  exists before last,
    POST toLowerCase JSON_parse parseURL isIsoDatetime w data = before ++ [last]
    /\ Forall (fun e => isTerminal e = false) before
    /\ isTerminal last = true
    /\ isFinal last = negb (isError last)
    /\ List.length (filter isTerminal
                      (POST toLowerCase JSON_parse parseURL isIsoDatetime w data))
       = 1%nat.
Proof.
  unfold POST, planStream, tryCatch.
  destruct (finishing_planBody toLowerCase JSON_parse parseURL isIsoDatetime w data [])
    as (added & Hadded & [[e He]|(last & Hlast & He)]); rewrite He; cbn [app fst].
  - exists added, (ev_error (js "Failed to generate the plan") e).
    unfold send. cbn [fst]. repeat split; auto.
    rewrite filter_app. cbn [filter isTerminal].
    rewrite length_app. cbn [List.length].
    now rewrite (filter_terminal_nil added Hadded).
  - exists added, last. repeat split; auto.
    + destruct last; try discriminate; reflexivity.
    + destruct last; try discriminate; reflexivity.
    + rewrite filter_app, length_app.
      rewrite (filter_terminal_nil added Hadded).
      destruct last; try discriminate; reflexivity.
Qed.

(** [createTransport] yields no transport exactly when the endpoint is not
    configured, or is a valid URL while the token is not configured. *)
Lemma createTransport_null (parseURL : JSString -> option JSString)
  (env : CloudflareEnv) :
  createTransport parseURL env = Returned None
  <-> truthyOpt (TODOIST_MCP_URL env) = false
      \/ (parseURL (orEmpty (TODOIST_MCP_URL env)) <> None
          /\ truthyOpt (TODOIST_TOKEN env) = false).
Proof.
  unfold createTransport, ensureUrl.
  destruct (TODOIST_MCP_URL env) as [[|c u]|]; cbn [truthyOpt truthy orEmpty];
    try (split; [now left|reflexivity]).
  destruct (parseURL (c :: u)) as [href|]; cbn [bindO].
  - destruct (TODOIST_TOKEN env) as [[|c' tok]|]; cbn [truthyOpt truthy];
      split; try discriminate; auto.
    + intros _. right. split; [discriminate|reflexivity].
    + intros [H|[_ H]]; discriminate.
    + intros _. right. split; [discriminate|reflexivity].
  - split; [discriminate|]. intros [H|[H _]]; [discriminate|now destruct H].
Qed.

Lemma unavailable_counts (tasks : list NormalizedTask) :
  List.length (filter (isStatus created) (map unavailableResult tasks)) = 0%nat
  /\ List.length (filter (isStatus failed) (map unavailableResult tasks))
     = List.length tasks.
Proof.
  induction tasks as [|t ts [IH1 IH2]]; cbn; [auto|].
  split; [exact IH1|now rewrite IH2].
Qed.

(** C10 (amended): with a secret not configured there is no client.  When
    the endpoint is set to a text that is not a URL the stream is the error
    event alone.  Otherwise the request is not rejected: the stream carries
    the progress events and then, when the plan is generated, the plan and
    a [final] event in which every planned task is [failed] with the text
    'Todoist MCP client is unavailable', with counts 0 and the number of
    planned tasks, and no [error] event; when the generation of the plan
    fails, the [error] event of that failure ends the stream. *)
Theorem POST_without_client (toLowerCase : JSString -> JSString)
  (JSON_parse : JSString -> option JSON) (parseURL : JSString -> option JSString)
  (isIsoDatetime : JSString -> bool) (w : World) (data : PlanRequestBody)
  (Hunconfigured : unconfigured (env w)) :
  POST toLowerCase JSON_parse parseURL isIsoDatetime w data
  = (if malformedEndpoint parseURL (env w)
     then [ev_error (js "Failed to generate the plan")
             (js "TODOIST_MCP_URL must be a valid URL")]
     else
       [ ev_status (js "ai:init") (js "Planning tasks with Workers AI");
         ev_status (js "intent:detect") (js "Analyzing the request intent");
         ev_status (js "intent:classified")
           (js "Detected scenario: " ++ intentName (intent (classifyIntent w)));
         ev_debug_metadata [] [] ]
       ++ match generatePlan toLowerCase isIsoDatetime w data
                  (determineScenario (classifyIntent w) data) noMetadata
                  (detectPriorityFromPrompt toLowerCase (prompt data)) None None with
          | Returned plan =>
              [ ev_debug_inference None None
                  (detectPriorityFromPrompt toLowerCase (prompt data));
                ev_ai_plan (summary plan) (tasks plan) (intent (classifyIntent w));
                ev_final 0 (List.length (tasks plan))
                  (map unavailableResult (tasks plan)) ]
          | Threw e => [ev_error (js "Failed to generate the plan") e]
          end)
  /\ (malformedEndpoint parseURL (env w) = false ->
      forall plan,
        generatePlan toLowerCase isIsoDatetime w data
          (determineScenario (classifyIntent w) data) noMetadata
          (detectPriorityFromPrompt toLowerCase (prompt data)) None None
        = Returned plan ->
        Forall (fun e => isError e = false)
          (POST toLowerCase JSON_parse parseURL isIsoDatetime w data)).
Proof.
  assert (Hpost :
    POST toLowerCase JSON_parse parseURL isIsoDatetime w data
    = (if malformedEndpoint parseURL (env w)
       then [ev_error (js "Failed to generate the plan")
               (js "TODOIST_MCP_URL must be a valid URL")]
       else
         [ ev_status (js "ai:init") (js "Planning tasks with Workers AI");
           ev_status (js "intent:detect") (js "Analyzing the request intent");
           ev_status (js "intent:classified")
             (js "Detected scenario: " ++ intentName (intent (classifyIntent w)));
           ev_debug_metadata [] [] ]
         ++ match generatePlan toLowerCase isIsoDatetime w data
                    (determineScenario (classifyIntent w) data) noMetadata
                    (detectPriorityFromPrompt toLowerCase (prompt data)) None None with
            | Returned plan =>
                [ ev_debug_inference None None
                    (detectPriorityFromPrompt toLowerCase (prompt data));
                  ev_ai_plan (summary plan) (tasks plan)
                    (intent (classifyIntent w));
                  ev_final 0 (List.length (tasks plan))
                    (map unavailableResult (tasks plan)) ]
            | Threw e => [ev_error (js "Failed to generate the plan") e]
            end)).
  { assert (Hcases :
      (malformedEndpoint parseURL (env w) = true
       /\ createTransport parseURL (env w)
          = Threw (js "TODOIST_MCP_URL must be a valid URL"))
      \/ (malformedEndpoint parseURL (env w) = false
          /\ createTransport parseURL (env w) = Returned None)).
    { unfold malformedEndpoint, createTransport, ensureUrl.
      destruct Hunconfigured as [Hurl|Htoken].
      - destruct (TODOIST_MCP_URL (env w)) as [[|c u]|]; try discriminate Hurl;
          right; split; reflexivity.
      - destruct (TODOIST_MCP_URL (env w)) as [[|c u]|];
          try (right; split; reflexivity).
        destruct (parseURL (c :: u)); cbn [bindO];
          [|left; split; reflexivity].
        destruct (TODOIST_TOKEN (env w)) as [[|c' t]|]; try discriminate Htoken;
          right; split; reflexivity. }
    destruct Hcases as [[-> Hthrown]|[-> Hnull]].
    - unfold POST, planStream, planBody, tryCatch, bind, lift, send, ret.
      rewrite Hthrown. reflexivity.
    - unfold POST, planStream, planBody, tryCatch, bind, lift, send, ret.
      rewrite Hnull. cbn [app fetchTodoistMetadata noMetadata projects meta_labels
                            inferProjectFromPrompt inferLabelsFromPrompt].
      change {| projects := []; meta_labels := [] |} with noMetadata.
      rewrite !determineScenario_intent.
      destruct (generatePlan _ _ _ _ _ _ _ _ _) as [plan|e]; cbn [app fst];
        [|reflexivity].
      destruct (unavailable_counts (tasks plan)) as [H0 Hn].
      unfold unavailableResult, unavailable in *. rewrite H0, Hn.
      reflexivity. }
  split; [exact Hpost|].
  intros Hwell plan Hplan. rewrite Hpost, Hwell, Hplan. repeat constructor.
Qed.

(** C10, witness: the sample collaborators without a configured endpoint. *)
Lemma POST_without_client_witness :
  unconfigured (env offlineWorld)
  /\ POST asciiLower sampleParse sampleURL sampleDatetime offlineWorld sampleRequest
     = [ ev_status (js "ai:init") (js "Planning tasks with Workers AI");
         ev_status (js "intent:detect") (js "Analyzing the request intent");
         ev_status (js "intent:classified")
           (js "Detected scenario: multi_step_plan");
         ev_debug_metadata [] [];
         ev_debug_inference None None None;
         ev_ai_plan None
           [normalizedTitled "Write report"; normalizedTitled "Meet client";
            normalizedTitled "Recap"] multi_step_plan;
         ev_final 0 3
           (map unavailableResult
              [normalizedTitled "Write report"; normalizedTitled "Meet client";
               normalizedTitled "Recap"]) ].
Proof.
  split; [left; reflexivity|].
  exact (proj1 (POST_without_client asciiLower sampleParse sampleURL
                  sampleDatetime offlineWorld sampleRequest
                  (or_introl eq_refl))).
Defined.

(** C10, counterexample: without a token and with an endpoint that is not a
    URL the stream is the error event alone; and without an endpoint, when
    the plan model fails, the stream ends with the error event and
    announces no plan. *)
Lemma POST_unconfigured_yet_error :
  unconfigured (env misconfiguredWorld)
  /\ POST asciiLower sampleParse sampleURL sampleDatetime misconfiguredWorld
       sampleRequest
     = [ev_error (js "Failed to generate the plan")
          (js "TODOIST_MCP_URL must be a valid URL")]
  /\ unconfigured (env offlineFailingWorld)
  /\ POST asciiLower sampleParse sampleURL sampleDatetime offlineFailingWorld
       sampleRequest
     = [ ev_status (js "ai:init") (js "Planning tasks with Workers AI");
         ev_status (js "intent:detect") (js "Analyzing the request intent");
         ev_status (js "intent:classified")
           (js "Detected scenario: multi_step_plan");
         ev_debug_metadata [] [];
         ev_error (js "Failed to generate the plan") (js "model unavailable") ]
  /\ ~ offline_claim_as_stated asciiLower sampleParse sampleURL sampleDatetime.
Proof.
  split; [right; reflexivity|].
  split; [reflexivity|].
  split; [left; reflexivity|].
  split; [reflexivity|].
  intro H.
  destruct (H misconfiguredWorld sampleRequest (or_intror eq_refl)) as [Hquiet _].
  inversion Hquiet as [|e rest Herror _]. discriminate Herror.
Qed.

(** ** Priority cues *)

Lemma stripPrefix_spec (lit s r : JSString) :
  stripPrefix lit s = Some r <-> s = lit ++ r.
Proof.
  revert s. induction lit as [|x lit IH]; intros s; cbn.
  - split; congruence.
  - destruct s as [|y s]; [split; discriminate|].
    destruct (N.eqb_spec x y) as [->|Hne].
    + rewrite IH. split; congruence.
    + split; [discriminate|]. intros [= -> _]. now destruct Hne.
Qed.

Lemma digit_not_space (d : N) : isCueDigit d = true -> isWhiteSpace d = false.
Proof.
  unfold isCueDigit, isWhiteSpace. intro H.
  apply andb_prop in H as [H1 H2].
  apply N.leb_le in H1. apply N.leb_le in H2.
  repeat match goal with
  | |- context [(?a <=? ?b)%N] => destruct (N.leb_spec a b); try lia
  | |- context [(?a =? ?b)%N] => destruct (N.eqb_spec a b); try lia
  end; reflexivity.
Qed.

Lemma cueTail_spec (s : JSString) (d : N) :
  cueTail s = Some d <->
  exists spaces rest,
    s = spaces ++ d :: rest
    /\ Forall (fun c => isWhiteSpace c = true) spaces
    /\ isCueDigit d = true.
Proof.
  induction s as [|c s IH]; cbn.
  - split; [discriminate|]. intros ([|? ?] & ? & H & _); discriminate.
  - destruct (isWhiteSpace c) eqn:Hc.
    + rewrite IH. split.
      * intros (sp & rest & -> & Hsp & Hd). exists (c :: sp), rest. auto.
      * intros ([|c' sp] & rest & Hs & Hsp & Hd).
        -- injection Hs as -> ->. rewrite (digit_not_space _ Hd) in Hc. discriminate.
        -- injection Hs as -> ->. inversion Hsp; subst. eauto.
    + destruct (isCueDigit c) eqn:Hd.
      * split.
        -- intros [= ->]. exists [], s. auto.
        -- intros ([|c' sp] & rest & Hs & Hsp & Hd').
           ++ now injection Hs as ->.
           ++ injection Hs as -> ->. inversion Hsp; subst. congruence.
      * split; [discriminate|].
        intros ([|c' sp] & rest & Hs & Hsp & Hd').
        -- injection Hs as -> _. congruence.
        -- injection Hs as -> ->. inversion Hsp; subst. congruence.
Qed.

Lemma cueAt_spec (lit s : JSString) (d : N) :
  cueAt lit s = Some d <-> cue_here lit s d.
Proof.
  unfold cueAt, cue_here.
  destruct (stripPrefix lit s) as [r|] eqn:Hr.
  - apply stripPrefix_spec in Hr. subst s. rewrite cueTail_spec.
    split; intros (sp & rest & H & Hsp & Hd); exists sp, rest; repeat split; auto.
    + now rewrite H.
    + now apply app_inv_head in H.
  - split; [discriminate|]. intros (sp & rest & H & _).
    assert (Hs : stripPrefix lit s = Some (sp ++ d :: rest))
      by now apply stripPrefix_spec.
    congruence.
Qed.

Lemma firstSuffix_some {B} (f : JSString -> option B) (s : JSString) (b : B) :
  firstSuffix f s = Some b <->
  exists pre tail,
    s = pre ++ tail /\ f tail = Some b
    /\ forall pre' tail', s = pre' ++ tail' ->
         (List.length pre' < List.length pre)%nat -> f tail' = None.
Proof.
  induction s as [|c s IH].
  - cbn. destruct (f []) as [b'|] eqn:Hf.
    + split.
      * intros [= ->]. exists [], []. repeat split; auto. cbn. lia.
      * intros (pre & tail & Hs & Hb & _).
        symmetry in Hs. apply app_eq_nil in Hs as [-> ->]. congruence.
    + split; [discriminate|].
      intros (pre & tail & Hs & Hb & _).
      symmetry in Hs. apply app_eq_nil in Hs as [-> ->]. congruence.
  - cbn [firstSuffix]. destruct (f (c :: s)) as [b'|] eqn:Hf.
    + split.
      * intros [= ->]. exists [], (c :: s). repeat split; auto. cbn. lia.
      * intros ([|x pre] & tail & Hs & Hb & Hmin).
        -- cbn in Hs. subst tail. congruence.
        -- rewrite (Hmin [] (c :: s) eq_refl) in Hf; [discriminate|cbn; lia].
    + rewrite IH. split.
      * intros (pre & tail & -> & Hb & Hmin).
        exists (c :: pre), tail. repeat split; auto.
        intros [|x pre'] tail' Hs Hlen.
        -- cbn in Hs. subst tail'. exact Hf.
        -- injection Hs as -> Hs. apply (Hmin pre' tail' Hs). cbn in Hlen. lia.
      * intros ([|x pre] & tail & Hs & Hb & Hmin).
        -- cbn in Hs. subst tail. congruence.
        -- injection Hs as <- ->. exists pre, tail. repeat split; auto.
           intros pre' tail' Hs Hlen.
           apply (Hmin (c :: pre') tail'); [now rewrite Hs|cbn; lia].
Qed.

Lemma firstSuffix_none {B} (f : JSString -> option B) (s : JSString) :
  firstSuffix f s = None <-> forall pre tail, s = pre ++ tail -> f tail = None.
Proof.
  induction s as [|c s IH].
  - cbn. destruct (f []) as [b'|] eqn:Hf.
    + split; [discriminate|]. intros H. rewrite (H [] [] eq_refl) in Hf. discriminate.
    + split; [|reflexivity]. intros _ pre tail Hs.
      symmetry in Hs. apply app_eq_nil in Hs as [-> ->]. exact Hf.
  - cbn [firstSuffix]. destruct (f (c :: s)) as [b'|] eqn:Hf.
    + split; [discriminate|]. intros H. rewrite (H [] (c :: s) eq_refl) in Hf.
      discriminate.
    + rewrite IH. split.
      * intros H [|x pre] tail Hs.
        -- cbn in Hs. subst tail. exact Hf.
        -- injection Hs as -> Hs. eapply H; eauto.
      * intros H pre tail Hs. apply (H (c :: pre) tail). now rewrite Hs.
Qed.

Lemma searchWord_firstSuffix (lit s : JSString) :
  searchWord lit s = firstSuffix (cueAt lit) s.
Proof.
  induction s as [|c s IH]; cbn [searchWord firstSuffix];
    destruct (cueAt lit _); auto.
Qed.

Lemma searchBoundary_firstSuffix (s : JSString) :
  searchBoundary s = firstSuffix boundaryCueAt s.
Proof.
  induction s as [|c s IH]; cbn [searchBoundary firstSuffix boundaryCueAt];
    [reflexivity|].
  destruct (isLowerAlnum c); [exact IH|].
  destruct (cueAt letterP s); auto.
Qed.

Lemma searchWord_first_cue (form : Pattern) (s : JSString) (d : N) :
  form <> PatP ->
  (searchWord (cue_word form) s = Some d <-> first_cue form s d).
Proof.
  intro Hform. rewrite searchWord_firstSuffix, firstSuffix_some.
  unfold first_cue, occurs. split.
  - intros (pre & tail & Hs & Hcue & Hmin). exists pre. split.
    + exists tail. repeat split; auto.
      * now apply cueAt_spec.
      * destruct form; auto. now destruct Hform.
    + intros before' d' (tail' & Hs' & Hcue' & _).
      destruct (Nat.le_gt_cases (List.length pre) (List.length before')) as [|Hlt];
        [assumption|].
      apply cueAt_spec in Hcue'. rewrite (Hmin before' tail' Hs' Hlt) in Hcue'.
      discriminate.
  - intros (before & (tail & Hs & Hcue & _) & Hmin).
    exists before, tail. repeat split; auto.
    + now apply cueAt_spec.
    + intros pre' tail' Hs' Hlt.
      destruct (cueAt (cue_word form) tail') as [d'|] eqn:Hcue'; [|reflexivity].
      exfalso. apply cueAt_spec in Hcue'.
      assert (Hle : (List.length before <= List.length pre')%nat).
      { apply (Hmin pre' d'). exists tail'. repeat split; auto.
        destruct form; auto. now destruct Hform. }
      lia.
Qed.

Lemma searchWord_no_cue (form : Pattern) (s : JSString) :
  form <> PatP ->
  (searchWord (cue_word form) s = None
   <-> forall before d, ~ occurs form s before d).
Proof.
  intro Hform. rewrite searchWord_firstSuffix, firstSuffix_none.
  unfold occurs. split.
  - intros H before d (tail & Hs & Hcue & _).
    apply cueAt_spec in Hcue. rewrite (H before tail Hs) in Hcue. discriminate.
  - intros H pre tail Hs.
    destruct (cueAt (cue_word form) tail) as [d|] eqn:Hcue; [|reflexivity].
    exfalso. apply (H pre d). exists tail. repeat split; auto.
    + now apply cueAt_spec.
    + destruct form; auto. now destruct Hform.
Qed.

Lemma boundaryCueAt_spec (tail : JSString) (d : N) :
  boundaryCueAt tail = Some d <->
  exists c rest, tail = c :: rest /\ isLowerAlnum c = false
                 /\ cue_here letterP rest d.
Proof.
  unfold boundaryCueAt. destruct tail as [|c rest].
  - split; [discriminate|]. intros (? & ? & H & _). discriminate.
  - destruct (isLowerAlnum c) eqn:Hc.
    + split; [discriminate|]. intros (? & ? & [= <- <-] & H & _). congruence.
    + rewrite cueAt_spec. split.
      * intros H. exists c, rest. auto.
      * intros (? & ? & [= <- <-] & _ & H). exact H.
Qed.

(** An occurrence of the [P<n>] form either opens the text or sits behind a
    boundary unit. *)
Lemma occurs_P_cases (s before : JSString) (d : N) :
  occurs PatP s before d <->
  (before = [] /\ cueAt letterP s = Some d)
  \/ (exists b c rest, before = b ++ [c] /\ s = b ++ c :: rest
                       /\ boundaryCueAt (c :: rest) = Some d).
Proof.
  unfold occurs. cbn [cue_word]. split.
  - intros (tail & Hs & Hcue & [->|(b & c & -> & Hc)]).
    + left. cbn in Hs. subst tail. split; [reflexivity|now apply cueAt_spec].
    + right. exists b, c, tail. rewrite <- app_assoc in Hs. repeat split; auto.
      apply boundaryCueAt_spec. exists c, tail. auto.
  - intros [[-> Hcue]|(b & c & rest & -> & Hs & Hcue)].
    + exists s. repeat split; [now apply cueAt_spec|now left].
    + apply boundaryCueAt_spec in Hcue as (c' & rest' & [= <- <-] & Hc & Hcue).
      exists rest. rewrite <- app_assoc. repeat split; auto.
      right. exists b, c. auto.
Qed.

Lemma searchP_first_cue (s : JSString) (d : N) :
  searchP s = Some d <-> first_cue PatP s d.
Proof.
  unfold searchP, first_cue. split.
  - destruct (cueAt letterP s) as [d0|] eqn:Hhead.
    + intros [= ->]. exists []. split.
      * apply occurs_P_cases. now left.
      * intros. cbn. lia.
    + rewrite searchBoundary_firstSuffix, firstSuffix_some.
      intros (pre & tail & Hs & Hcue & Hmin).
      destruct tail as [|c rest]; [discriminate|].
      exists (pre ++ [c]). split.
      * apply occurs_P_cases. right. exists pre, c, rest. auto.
      * intros before' d' Hocc. apply occurs_P_cases in Hocc
          as [[-> Hcue']|(b & c' & rest' & -> & Hs' & Hcue')]; [congruence|].
        rewrite !length_app. cbn [List.length].
        destruct (Nat.le_gt_cases (List.length pre) (List.length b)) as [|Hlt]; [lia|].
        rewrite (Hmin b (c' :: rest') Hs' Hlt) in Hcue'. discriminate.
  - intros (before & Hocc & Hmin).
    destruct (cueAt letterP s) as [d0|] eqn:Hhead.
    + assert (Hle : (List.length before <= List.length (@nil N))%nat).
      { apply (Hmin [] d0). apply occurs_P_cases. now left. }
      destruct before; [|cbn in Hle; lia].
      apply occurs_P_cases in Hocc as [[_ Hcue]|(b & c & rest & Hb & _)].
      * congruence.
      * destruct b; discriminate.
    + apply occurs_P_cases in Hocc as [[_ Hcue]|(b & c & rest & -> & Hs & Hcue)];
        [congruence|].
      rewrite searchBoundary_firstSuffix, firstSuffix_some.
      exists b, (c :: rest). repeat split; auto.
      intros pre' tail' Hs' Hlt.
      destruct (boundaryCueAt tail') as [d'|] eqn:Hcue'; [|reflexivity].
      exfalso. destruct tail' as [|c' rest']; [discriminate|].
      assert (Hle : (List.length (b ++ [c]) <= List.length (pre' ++ [c']))%nat).
      { apply (Hmin (pre' ++ [c']) d'). apply occurs_P_cases. right.
        exists pre', c', rest'. auto. }
      rewrite !length_app in Hle. cbn in Hle. lia.
Qed.

Lemma searchP_no_cue (s : JSString) :
  searchP s = None <-> forall before d, ~ occurs PatP s before d.
Proof.
  unfold searchP. split.
  - destruct (cueAt letterP s) as [d0|] eqn:Hhead; [discriminate|].
    rewrite searchBoundary_firstSuffix, firstSuffix_none.
    intros H before d Hocc.
    apply occurs_P_cases in Hocc as [[_ Hcue]|(b & c & rest & -> & Hs & Hcue)];
      [congruence|].
    rewrite (H b (c :: rest) Hs) in Hcue. discriminate.
  - intros H. destruct (cueAt letterP s) as [d0|] eqn:Hhead.
    + exfalso. apply (H [] d0). apply occurs_P_cases. now left.
    + rewrite searchBoundary_firstSuffix, firstSuffix_none.
      intros pre tail Hs.
      destruct (boundaryCueAt tail) as [d'|] eqn:Hcue'; [|reflexivity].
      exfalso. destruct tail as [|c rest]; [discriminate|].
      apply (H (pre ++ [c]) d'). apply occurs_P_cases. right.
      exists pre, c, rest. auto.
Qed.

Lemma cue_digit_cases (d : N) :
  isCueDigit d = true -> (d = 48 \/ d = 49 \/ d = 50 \/ d = 51 \/ d = 52)%N.
Proof.
  unfold isCueDigit. intro H. apply andb_prop in H as [H1 H2].
  apply N.leb_le in H1. apply N.leb_le in H2. lia.
Qed.

Lemma mapPriorityCueToApi_digit (d : N) :
  isCueDigit d = true ->
  mapPriorityCueToApi [d] = spec_api d
  /\ exists v, spec_api d = Some v /\ v <> 0.
Proof.
  intro H. apply cue_digit_cases in H as [->|[->|[->|[->| ->]]]];
    (split; [reflexivity|eexists; split; [reflexivity|discriminate]]).
Qed.

Lemma occurs_digit (form : Pattern) (s before : JSString) (d : N) :
  occurs form s before d -> isCueDigit d = true.
Proof. intros (tail & _ & (sp & rest & _ & _ & Hd) & _). exact Hd. Qed.

Lemma first_cue_digit (form : Pattern) (s : JSString) (d : N) :
  first_cue form s d -> isCueDigit d = true.
Proof. intros (before & Hocc & _). exact (occurs_digit _ _ _ _ Hocc). Qed.

Lemma not_P_priority : PatPriority <> PatP.
Proof. discriminate. Qed.

Lemma not_P_localized : PatYouXianJi <> PatP.
Proof. discriminate. Qed.

Lemma search_first_cue (form : Pattern) (s : JSString) (d : N) :
  match form with
  | PatP => searchP s
  | PatPriority => searchWord wordPriority s
  | PatYouXianJi => searchWord wordYouXianJi s
  end = Some d <-> first_cue form s d.
Proof.
  destruct form.
  - apply searchP_first_cue.
  - apply (searchWord_first_cue PatPriority s d not_P_priority).
  - apply (searchWord_first_cue PatYouXianJi s d not_P_localized).
Qed.

Lemma search_no_cue (form : Pattern) (s : JSString) :
  match form with
  | PatP => searchP s
  | PatPriority => searchWord wordPriority s
  | PatYouXianJi => searchWord wordYouXianJi s
  end = None <-> forall before d, ~ occurs form s before d.
Proof.
  destruct form.
  - apply searchP_no_cue.
  - apply (searchWord_no_cue PatPriority s not_P_priority).
  - apply (searchWord_no_cue PatYouXianJi s not_P_localized).
Qed.

(** One round of the loop: a form that matches decides, a form that does
    not match passes the turn. *)
Lemma detectLoop_step (form : Pattern) (rest : list Pattern) (s : JSString) :
  (forall d, first_cue form s d ->
             detectLoop (form :: rest) s = spec_api d
             /\ exists v, spec_api d = Some v)
  /\ ((forall before d, ~ occurs form s before d) ->
      detectLoop (form :: rest) s = detectLoop rest s).
Proof.
  split.
  - intros d Hfirst. pose proof (first_cue_digit _ _ _ Hfirst) as Hd.
    apply search_first_cue in Hfirst.
    cbn [detectLoop]. unfold matchPattern. rewrite Hfirst. cbn [option_map truthy].
    destruct (mapPriorityCueToApi_digit d Hd) as (-> & v & Hv & Hnz).
    rewrite Hv. destruct (Z.eqb_spec v 0); [contradiction|]. eauto.
  - intros Hnone. apply search_no_cue in Hnone.
    cbn [detectLoop]. unfold matchPattern. rewrite Hnone. reflexivity.
Qed.

Lemma first_cue_unique (form : Pattern) (s : JSString) (d d' : N) :
  first_cue form s d -> first_cue form s d' -> d = d'.
Proof.
  intros H H'. apply search_first_cue in H. apply search_first_cue in H'. congruence.
Qed.

Lemma occurs_or_not (form : Pattern) (s : JSString) :
  (exists d, first_cue form s d) \/ (forall before d, ~ occurs form s before d).
Proof.
  destruct (match form with
            | PatP => searchP s
            | PatPriority => searchWord wordPriority s
            | PatYouXianJi => searchWord wordYouXianJi s
            end) as [d|] eqn:H.
  - left. exists d. now apply search_first_cue.
  - right. now apply search_no_cue.
Qed.

(** C1 (amended): on the lower-cased prompt, detection returns a priority
    exactly when a cue occurs, namely the priority of the deciding cue (the
    leftmost cue of the first form that occurs, in the order [P<n>],
    [priority <n>], localized marker): digits 0 and 1 give 4, 2 gives 3,
    3 gives 2 and 4 gives 1; it returns undefined exactly when the prompt
    carries no cue of any form. *)
Theorem detectPriority_cues (toLowerCase : JSString -> JSString) (prompt : JSString) :
  (forall v, detectPriorityFromPrompt toLowerCase prompt = Some v
             <-> exists d, deciding_cue (toLowerCase prompt) d /\ spec_api d = Some v)
  /\ (detectPriorityFromPrompt toLowerCase prompt = None
      <-> forall form before d, ~ occurs form (toLowerCase prompt) before d).
Proof.
  unfold detectPriorityFromPrompt, patterns.
  set (s := toLowerCase prompt).
  assert (Hdecide : forall form d, first_cue form s d ->
            (forall form' before' d', (rank form' < rank form)%nat ->
                                      ~ occurs form' s before' d') ->
            detectLoop [PatP; PatPriority; PatYouXianJi] s = spec_api d).
  { intros form d Hfirst Hlower.
    destruct form.
    - apply (detectLoop_step PatP _ s). exact Hfirst.
    - rewrite (proj2 (detectLoop_step PatP _ s)).
      + apply (detectLoop_step PatPriority _ s). exact Hfirst.
      + intros b d'. apply Hlower. cbn. lia.
    - rewrite (proj2 (detectLoop_step PatP _ s)).
      + rewrite (proj2 (detectLoop_step PatPriority _ s)).
        * apply (detectLoop_step PatYouXianJi _ s). exact Hfirst.
        * intros b d'. apply Hlower. cbn. lia.
      + intros b d'. apply Hlower. cbn. lia. }
  assert (Hcases :
    (exists d, deciding_cue s d)
    \/ (forall form before d, ~ occurs form s before d)).
  { destruct (occurs_or_not PatP s) as [[d H0]|H0].
    { left. exists d, PatP. split; [assumption|]. intros ? ? ? Hr. cbn in Hr. lia. }
    destruct (occurs_or_not PatPriority s) as [[d H1]|H1].
    { left. exists d, PatPriority. split; [assumption|].
      intros [| |] ? ? Hr; cbn in Hr; try lia. apply H0. }
    destruct (occurs_or_not PatYouXianJi s) as [[d H2]|H2].
    { left. exists d, PatYouXianJi. split; [assumption|].
      intros [| |] ? ? Hr; cbn in Hr; try lia; [apply H0|apply H1]. }
    right. intros [| |]; assumption. }
  assert (Hnone : (forall form before d, ~ occurs form s before d) ->
                  detectLoop [PatP; PatPriority; PatYouXianJi] s = None).
  { intro H.
    rewrite (proj2 (detectLoop_step PatP _ s)) by apply H.
    rewrite (proj2 (detectLoop_step PatPriority _ s)) by apply H.
    rewrite (proj2 (detectLoop_step PatYouXianJi _ s)) by apply H.
    reflexivity. }
  split.
  - intro v. split.
    + intro Hv. destruct Hcases as [[d Hd]|Hno].
      * exists d. split; [assumption|].
        destruct Hd as (form & Hfirst & Hlower).
        now rewrite <- (Hdecide form d Hfirst Hlower).
      * rewrite (Hnone Hno) in Hv. discriminate.
    + intros (d & (form & Hfirst & Hlower) & Hv).
      now rewrite (Hdecide form d Hfirst Hlower).
  - split.
    + intro Hv. destruct Hcases as [[d (form & Hfirst & Hlower)]|Hno]; [|assumption].
      rewrite (Hdecide form d Hfirst Hlower) in Hv.
      destruct (mapPriorityCueToApi_digit d (first_cue_digit _ _ _ Hfirst))
        as (_ & v & Hsome & _).
      congruence.
    + apply Hnone.
Qed.

(** C1, counterexample: a P4 cue is not mapped to undefined but to the
    lowest priority, 1. *)
Lemma detectPriority_p4_is_lowest :
  let prompt := js "file taxes p4" in
  occurs PatP (asciiLower prompt) (js "file taxes ") 52
  /\ spec_api_as_stated 52 = None
  /\ detectPriorityFromPrompt asciiLower prompt = Some 1.
Proof.
  cbv zeta. split; [|split; reflexivity].
  exists (js "p4"). split; [reflexivity|]. split.
  - exists [], []. repeat split. constructor.
  - right. exists (js "file taxes"), 32%N. split; reflexivity.
Qed.

Example detect_p1 :
  detectPriorityFromPrompt asciiLower (js "Pay rent P1 today") = Some 4.
Proof. reflexivity. Qed.

Example detect_word_inside :
  detectPriorityFromPrompt asciiLower (js "stop 3 times") = None.
Proof. reflexivity. Qed.

Example detect_priority_word :
  detectPriorityFromPrompt asciiLower (js "top3 with Priority  2") = Some 3.
Proof. reflexivity. Qed.

(** ** Array payloads *)

Lemma JSON_induction (P : JSON -> Prop) :
  P JUndefined -> P JNull -> (forall b, P (JBool b)) -> (forall n, P (JNum n)) ->
  (forall s, P (JStr s)) -> (forall items, P (JArr items)) ->
  (forall fields, Forall (fun kv => P (snd kv)) fields -> P (JObj fields)) ->
  forall v, P v.
Proof.
  intros Hu Hn Hb Hz Hs Ha Ho.
  fix IH 1.
  intros [| |b|n|s|items|fields];
    [exact Hu|exact Hn|apply Hb|apply Hz|apply Hs|apply Ha|].
  apply Ho. induction fields as [|[k v] fields IHf]; constructor.
  - apply IH.
  - exact IHf.
Qed.

Lemma withProp_getProp {A} (f : JSON -> A) (dflt : A) (key : JSString)
  (fields : list (JSString * JSON)) :
  f JUndefined = dflt ->
  withProp f dflt key fields = f (getProp (JObj fields) key).
Proof.
  intro Hd. cbn [getProp].
  induction fields as [|[k v] fields IH]; cbn [withProp]; [now rewrite Hd|].
  destruct (eqb k key); [reflexivity|exact IH].
Qed.

Lemma getProp_cases (fields : list (JSString * JSON)) (key : JSString) :
  getProp (JObj fields) key = JUndefined
  \/ exists k, In (k, getProp (JObj fields) key) fields.
Proof.
  cbn [getProp]. induction fields as [|[k v] fields IH]; cbn [withProp]; [now left|].
  destruct (eqb k key).
  - right. exists k. now left.
  - destruct IH as [IH|[k' IH]]; [now left|]. right. exists k'. now right.
Qed.

Lemma pluckArray_obj (fields : list (JSString * JSON)) (keys : list JSString) :
  pluckArray (JObj fields) keys
  = firstSome (fun key => pluckArray (getProp (JObj fields) key) keys) keys.
Proof.
  cbn [pluckArray].
  match goal with
  | |- ?loop keys = _ =>
      enough (H : forall ks,
                loop ks
                = firstSome (fun key => pluckArray (getProp (JObj fields) key) keys) ks)
        by apply H
  end.
  induction ks as [|key ks IH]; cbn [firstSome]; [reflexivity|].
  rewrite (withProp_getProp
             (fun candidate => match candidate with
                               | JArr items => Some items
                               | JObj _ => pluckArray candidate keys
                               | _ => None
                               end) None key fields eq_refl).
  rewrite IH.
  destruct (getProp (JObj fields) key); reflexivity.
Qed.

Lemma firstSome_some {A B} (f : A -> option B) (xs : list A) (b : B) :
  firstSome f xs = Some b <->
  exists earlier x later,
    xs = earlier ++ x :: later /\ f x = Some b
    /\ forall y, In y earlier -> f y = None.
Proof.
  induction xs as [|a xs IH]; cbn [firstSome].
  - split; [discriminate|]. intros ([|? ?] & ? & ? & H & _); discriminate.
  - destruct (f a) as [b'|] eqn:Ha.
    + split.
      * intros [= ->]. exists [], a, xs. repeat split; auto. intros ? [].
      * intros ([|y earlier] & x & later & Hl & Hx & Hnone).
        -- injection Hl as <- _. congruence.
        -- injection Hl as <- _. rewrite (Hnone a) in Ha by now left. discriminate.
    + rewrite IH. split.
      * intros (earlier & x & later & -> & Hx & Hnone).
        exists (a :: earlier), x, later. repeat split; auto.
        intros y [<-|Hy]; auto.
      * intros ([|y earlier] & x & later & Hl & Hx & Hnone).
        -- injection Hl as <- _. congruence.
        -- injection Hl as <- ->. exists earlier, x, later. repeat split; auto.
           intros z Hz. apply Hnone. now right.
Qed.

Lemma firstSome_none {A B} (f : A -> option B) (xs : list A) :
  firstSome f xs = None <-> forall x, In x xs -> f x = None.
Proof.
  induction xs as [|a xs IH]; cbn [firstSome].
  - split; [intros _ ? []|reflexivity].
  - destruct (f a) as [b|] eqn:Ha.
    + split; [discriminate|]. intro H. rewrite (H a) in Ha by now left. discriminate.
    + rewrite IH. split.
      * intros H x [<-|Hx]; auto.
      * intros H x Hx. apply H. now right.
Qed.

Lemma pluckArray_sound (keys : list JSString) (value : JSON) :
  forall arr, pluckArray value keys = Some arr -> reachable keys value arr.
Proof.
  induction value as [| | | | |items|fields IH] using JSON_induction;
    intros arr H; try discriminate H.
  - injection H as <-. constructor.
  - rewrite pluckArray_obj in H.
    apply firstSome_some in H as (earlier & key & later & Hkeys & Hkey & _).
    apply reach_under with (key := key).
    + rewrite Hkeys. apply in_or_app. right. now left.
    + destruct (getProp_cases fields key) as [Hu|[k Hin]].
      * rewrite Hu in Hkey. discriminate.
      * rewrite Forall_forall in IH. exact (IH _ Hin arr Hkey).
Qed.

Lemma pluckArray_complete (keys : list JSString) (value : JSON) (arr : list JSON) :
  reachable keys value arr -> exists found, pluckArray value keys = Some found.
Proof.
  induction 1 as [items|fields key arr Hin Hreach [found IH]].
  - exists items. reflexivity.
  - rewrite pluckArray_obj.
    destruct (firstSome _ keys) as [b|] eqn:Hfirst; [eauto|].
    rewrite firstSome_none in Hfirst. rewrite (Hfirst key Hin) in IH. discriminate.
Qed.

Lemma pluckArray_barren (keys : list JSString) (value : JSON) :
  pluckArray value keys = None <-> barren keys value.
Proof.
  split.
  - intros H arr Hreach. apply pluckArray_complete in Hreach as [found Hf]. congruence.
  - intros H. destruct (pluckArray value keys) as [arr|] eqn:Hp; [|reflexivity].
    destruct (H arr). now apply pluckArray_sound.
Qed.

(** The search honours the order of the keys: the first key that leads to
    an array decides. *)
Lemma pluckArray_in_order (keys earlier later : list JSString) (key : JSString)
  (fields : list (JSString * JSON)) (arr : list JSON) :
  keys = earlier ++ key :: later ->
  (forall k, In k earlier -> barren keys (getProp (JObj fields) k)) ->
  pluckArray (getProp (JObj fields) key) keys = Some arr ->
  pluckArray (JObj fields) keys = Some arr.
Proof.
  intros Hkeys Hearlier Hkey. rewrite pluckArray_obj.
  apply firstSome_some. exists earlier, key, later. repeat split; auto.
  intros k Hk. apply pluckArray_barren. now apply Hearlier.
Qed.

Lemma parseToolJson_structured (JSON_parse : JSString -> option JSON)
  (response : JSON) :
  isUndefined (extractStructuredContent response) = false ->
  parseToolJson JSON_parse response = Returned (extractStructuredContent response).
Proof. intro H. unfold parseToolJson. now rewrite H. Qed.

(** Decoding reads a member of the response, which throws on [null]; the
    list-tool caller catches it. *)
Lemma extractArrayPayload_null (JSON_parse : JSString -> option JSON)
  (preferredKeys : option (list JSString)) :
  extractArrayPayload JSON_parse JNull preferredKeys = Threw typeError
  /\ callTodoistListTool JSON_parse (Returned JNull) preferredKeys = [].
Proof. split; reflexivity. Qed.

(** C8: the server's reply to [todoist_projects] wraps the projects under
    [items]; the alias resolved for that tool prefers the keys [data] and
    [projects], the extraction then searches these two keys only, and the
    list tool answers with the empty array; without preferred keys the same
    reply gives the projects. *)
Lemma callTodoistListTool_misses_items_envelope :
  resolveListToolConfig
    [ {| tool_name := js "todoist_projects"; tool_description := None |} ]
    (PROJECT_TOOL_ALIASES asciiLower)
  = Some {| config_name := js "todoist_projects";
            config_args :=
              Some (JObj [(js "action", JStr (js "list"));
                          (js "include_archived", JBool false)]);
            config_resultKeys := Some [js "data"; js "projects"] |}
  /\ getProp (extractStructuredContent itemsReply) (js "items")
     = JArr [JObj [(js "id", JStr (js "1")); (js "name", JStr (js "Home"))]]
  /\ extractArrayPayload sampleParse itemsReply (Some [js "data"; js "projects"])
     = Returned []
  /\ callTodoistListTool sampleParse (Returned itemsReply)
       (Some [js "data"; js "projects"])
     = []
  /\ callTodoistListTool sampleParse (Returned itemsReply) None
     = [JObj [(js "id", JStr (js "1")); (js "name", JStr (js "Home"))]].
Proof. repeat split; reflexivity. Qed.

Lemma barren_undefined (keys : list JSString) : barren keys JUndefined.
Proof. intros arr H. inversion H. Qed.

(** ** White space *)

Lemma trimStart_fixed (c : N) (s : JSString) :
  isWhiteSpace c = false -> trimStart (c :: s) = c :: s.
Proof. intro H. cbn. now rewrite H. Qed.

Lemma trimStart_head (s : JSString) :
  trimStart s = [] \/ exists c r, trimStart s = c :: r /\ isWhiteSpace c = false.
Proof.
  induction s as [|c s IH]; cbn; [now left|].
  destruct (isWhiteSpace c) eqn:Hc; [exact IH|].
  right. exists c, s. auto.
Qed.

Lemma trimStart_idem (s : JSString) : trimStart (trimStart s) = trimStart s.
Proof.
  destruct (trimStart_head s) as [->|(c & r & -> & Hc)]; [reflexivity|].
  now apply trimStart_fixed.
Qed.

Lemma trimStart_snoc (s : JSString) (c : N) :
  isWhiteSpace c = false -> trimStart (s ++ [c]) = trimStart s ++ [c].
Proof.
  intro Hc. induction s as [|x s IH]; cbn; [now rewrite Hc|].
  destruct (isWhiteSpace x); [exact IH|reflexivity].
Qed.

Lemma trimEnd_cons (c : N) (s : JSString) :
  isWhiteSpace c = false -> trimEnd (c :: s) = c :: trimEnd s.
Proof.
  intro Hc. unfold trimEnd. cbn [rev].
  rewrite (trimStart_snoc _ _ Hc), rev_app_distr. reflexivity.
Qed.

Lemma trimEnd_idem (s : JSString) : trimEnd (trimEnd s) = trimEnd s.
Proof. unfold trimEnd. now rewrite rev_involutive, trimStart_idem. Qed.

Lemma trimEnd_nil : trimEnd [] = [].
Proof. reflexivity. Qed.

Lemma trim_head (s : JSString) :
  trim s = [] \/ exists c r, trim s = c :: r /\ isWhiteSpace c = false.
Proof.
  unfold trim. destruct (trimStart_head s) as [->|(c & r & -> & Hc)]; [now left|].
  right. rewrite (trimEnd_cons _ _ Hc). eauto.
Qed.

Lemma trim_idem (s : JSString) : trim (trim s) = trim s.
Proof.
  destruct (trim_head s) as [H|(c & r & H & Hc)].
  - rewrite H. reflexivity.
  - unfold trim at 1. rewrite H, (trimStart_fixed _ _ Hc), <- H.
    unfold trim. apply trimEnd_idem.
Qed.

Lemma asciiLowerUnit_space (c : N) :
  isWhiteSpace (asciiLowerUnit c) = isWhiteSpace c.
Proof.
  unfold asciiLowerUnit.
  destruct ((65 <=? c) && (c <=? 90))%N eqn:H; [|reflexivity].
  apply andb_prop in H as [H1 H2]. apply N.leb_le in H1. apply N.leb_le in H2.
  unfold isWhiteSpace.
  repeat match goal with
  | |- context [(?a <=? ?b)%N] => destruct (N.leb_spec a b); try lia
  | |- context [(?a =? ?b)%N] => destruct (N.eqb_spec a b); try lia
  end; reflexivity.
Qed.

Lemma asciiLower_trimStart (s : JSString) :
  asciiLower (trimStart s) = trimStart (asciiLower s).
Proof.
  induction s as [|c s IH]; cbn; [reflexivity|].
  rewrite asciiLowerUnit_space. destruct (isWhiteSpace c); [exact IH|reflexivity].
Qed.

Lemma asciiLower_trim (s : JSString) : asciiLower (trim s) = trim (asciiLower s).
Proof.
  unfold trim, trimEnd, asciiLower.
  rewrite map_rev. fold (asciiLower (trimStart (rev (trimStart s)))).
  rewrite asciiLower_trimStart. unfold asciiLower at 1. rewrite map_rev.
  fold (asciiLower (trimStart s)). now rewrite asciiLower_trimStart.
Qed.

(** ** Labels *)

Section LabelFacts.
Variable toLowerCase : JSString -> JSString.

Lemma dedupeLoop_firstSeen (labels : list JSString) :
  forall seen result,
    (List.length result < 5)%nat ->
    dedupeLoop toLowerCase labels seen result
    = result ++ firstn (5 - List.length result) (firstSeen toLowerCase seen labels).
Proof.
  induction labels as [|label rest IH]; intros seen result Hlen;
    cbn [dedupeLoop firstSeen].
  - now rewrite firstn_nil, app_nil_r.
  - cbv zeta.
    destruct (negb (truthy (trim label))
              || existsb (eqb (toLowerCase (trim label))) seen); [now apply IH|].
    rewrite length_app. cbn [List.length].
    destruct (Nat.eqb_spec (List.length result + 1) 5) as [Hfive|Hless].
    + replace (5 - List.length result)%nat with 1%nat by lia.
      cbn [firstn]. reflexivity.
    + rewrite IH by (rewrite length_app; cbn; lia).
      rewrite length_app. cbn [List.length].
      replace (5 - List.length result)%nat
        with (S (5 - (List.length result + 1)))%nat by lia.
      cbn [firstn]. now rewrite <- app_assoc.
Qed.

Lemma firstSeen_in (labels : list JSString) :
  forall seen r,
    In r (firstSeen toLowerCase seen labels) ->
    exists earlier label later,
      labels = earlier ++ label :: later
      /\ r = trim label
      /\ trim label <> []
      /\ ~ In (toLowerCase r) seen
      /\ forall other, In other earlier -> trim other <> [] ->
                       ~ same_label toLowerCase other label.
Proof.
  induction labels as [|label rest IH]; intros seen r Hin; cbn [firstSeen] in Hin;
    [destruct Hin|].
  cbv zeta in Hin.
  destruct (truthy (trim label)) eqn:Hblank; cbn [negb orb] in Hin.
  - destruct (existsb (eqb (toLowerCase (trim label))) seen) eqn:Hseen.
    + destruct (IH seen r Hin) as (earlier & l & later & -> & -> & Hne & Hnot & Hfirst).
      exists (label :: earlier), l, later. repeat split; auto.
      intros other [<-|Hother] Hnb; [|now apply Hfirst].
      unfold same_label. intro Hsame. apply Hnot.
      apply existsb_exists in Hseen as (k & Hk & Heq).
      apply eqb_eq in Heq. now rewrite <- Hsame, Heq.
    + destruct Hin as [<-|Hin].
      * exists [], label, rest. repeat split; auto.
        -- intro H. rewrite H in Hblank. discriminate.
        -- intro Hk. assert (Hex : existsb (eqb (toLowerCase (trim label))) seen = true).
           { apply existsb_exists. exists (toLowerCase (trim label)).
             split; [assumption|apply eqb_refl]. }
           congruence.
      * destruct (IH _ r Hin) as (earlier & l & later & -> & -> & Hne & Hnot & Hfirst).
        exists (label :: earlier), l, later. repeat split; auto.
        -- intro Hk. apply Hnot. now right.
        -- intros other [<-|Hother] Hnb; [|now apply Hfirst].
           unfold same_label. intro Hsame. apply Hnot. left. exact Hsame.
  - destruct (IH seen r Hin) as (earlier & l & later & -> & -> & Hne & Hnot & Hfirst).
    exists (label :: earlier), l, later. repeat split; auto.
    intros other [<-|Hother] Hnb; [|now apply Hfirst].
    destruct (trim label); [now destruct Hnb|discriminate].
Qed.

Lemma firstSeen_nodup (labels : list JSString) :
  forall seen, NoDup (map toLowerCase (firstSeen toLowerCase seen labels)).
Proof.
  induction labels as [|label rest IH]; intro seen; cbn [firstSeen]; [constructor|].
  cbv zeta.
  destruct (negb (truthy (trim label))
            || existsb (eqb (toLowerCase (trim label))) seen); [apply IH|].
  cbn [map]. constructor; [|apply IH].
  intro Hin. apply in_map_iff in Hin as (r & Hr & Hin).
  destruct (firstSeen_in rest _ r Hin) as (_ & _ & _ & _ & _ & _ & Hnot & _).
  apply Hnot. left. now symmetry.
Qed.

Lemma firstSeen_subsequence (labels : list JSString) :
  forall seen, subsequence (firstSeen toLowerCase seen labels) (map trim labels).
Proof.
  induction labels as [|label rest IH]; intro seen; cbn [firstSeen map];
    [constructor|].
  cbv zeta.
  destruct (negb (truthy (trim label))
            || existsb (eqb (toLowerCase (trim label))) seen);
    constructor; apply IH.
Qed.

(** A list of trimmed labels, pairwise different up to case, is left as it
    is. *)
Lemma firstSeen_fixed (labels : list JSString) :
  forall seen,
    Forall (fun r => trim r = r /\ r <> [] /\ ~ In (toLowerCase r) seen) labels ->
    NoDup (map toLowerCase labels) ->
    firstSeen toLowerCase seen labels = labels.
Proof.
  induction labels as [|label rest IH]; intros seen Hall Hnodup; [reflexivity|].
  inversion Hall as [|? ? (Htrim & Hne & Hnot) Hrest]; subst.
  inversion Hnodup as [|? ? Hfresh Hnodup']; subst.
  cbn [firstSeen]. cbv zeta. rewrite Htrim.
  destruct label as [|c label]; [now destruct Hne|]. cbn [truthy negb orb].
  destruct (existsb (eqb (toLowerCase (c :: label))) seen) eqn:Hseen.
  - apply existsb_exists in Hseen as (k & Hk & Heq). apply eqb_eq in Heq.
    subst k. contradiction.
  - f_equal. apply IH; [|assumption].
    rewrite Forall_forall in Hrest |- *. intros r Hr.
    destruct (Hrest r Hr) as (H1 & H2 & H3). repeat split; auto.
    intros [Heq|Hin]; [|contradiction].
    apply Hfresh. rewrite Heq. now apply in_map.
Qed.

Lemma firstSeen_trimmed (labels : list JSString) :
  forall seen,
    firstSeen toLowerCase seen (map trim labels) = firstSeen toLowerCase seen labels.
Proof.
  induction labels as [|label rest IH]; intro seen; cbn [firstSeen map];
    [reflexivity|].
  cbv zeta. rewrite trim_idem.
  destruct (negb (truthy (trim label))
            || existsb (eqb (toLowerCase (trim label))) seen); now rewrite IH.
Qed.

End LabelFacts.

Lemma subsequence_firstn {A} (n : nat) (xs ys : list A) :
  subsequence xs ys -> subsequence (firstn n xs) ys.
Proof.
  intro H. revert n. induction H as [ys|x xs ys H IH|y xs ys H IH]; intro n.
  - rewrite firstn_nil. constructor.
  - destruct n; cbn [firstn]; constructor. apply IH.
  - constructor. apply IH.
Qed.

Lemma firstn_in {A} (n : nat) (xs : list A) (x : A) :
  In x (firstn n xs) -> In x xs.
Proof.
  intro H. rewrite <- (firstn_skipn n xs). apply in_or_app. now left.
Qed.

Section NormalizeFacts.
Variable toLowerCase : JSString -> JSString.
Hypothesis toLowerCase_trim : forall s, toLowerCase (trim s) = trim (toLowerCase s).
Variable context : TodoistMetadata.

Lemma canonicalLabel_restored (label : JSString) :
  canonicalLabel toLowerCase context label
  = if truthy (trim label) then Some (restored toLowerCase context label) else None.
Proof.
  unfold canonicalLabel, restored, catalogName.
  destruct (truthy (trim label)); cbn [negb]; [|reflexivity].
  destruct (find _ (meta_labels context)); reflexivity.
Qed.

Lemma filterBoolean_restored (source : list JSString) :
  filterBoolean (map (canonicalLabel toLowerCase context) source)
  = restoredLabels toLowerCase context source.
Proof.
  unfold restoredLabels.
  induction source as [|label rest IH]; cbn [map filterBoolean filter]; [reflexivity|].
  rewrite canonicalLabel_restored.
  destruct (truthy (trim label)); cbn [map filter]; [|exact IH].
  destruct (truthy (restored toLowerCase context label)); now rewrite IH.
Qed.

Lemma normalizeLabels_firstSeen (preferred fallback inferred : option (list JSString)) :
  normalizeLabels toLowerCase preferred fallback context inferred
  = match labelSource preferred fallback inferred with
    | Some source =>
        match firstn 5 (firstSeen toLowerCase []
                          (restoredLabels toLowerCase context source)) with
        | [] => None
        | result => Some result
        end
    | None => None
    end.
Proof.
  unfold normalizeLabels, labelSource, nullish.
  assert (Hsrc : forall source,
    match source with
    | [] => None
    | _ :: _ =>
        dedupeLabels toLowerCase
          (Some (filterBoolean (map (canonicalLabel toLowerCase context) source)))
    end
    = match firstn 5 (firstSeen toLowerCase []
                        (restoredLabels toLowerCase context source)) with
      | [] => None
      | result => Some result
      end).
  { intros [|l ls]; [reflexivity|].
    rewrite filterBoolean_restored. unfold dedupeLabels.
    destruct (restoredLabels toLowerCase context (l :: ls)) as [|n ns] eqn:Hn;
      [reflexivity|].
    rewrite dedupeLoop_firstSeen by (cbn; lia). reflexivity. }
  destruct preferred as [[|p ps]|].
  - destruct fallback as [f|]; [apply Hsrc|].
    destruct inferred as [i|]; [apply Hsrc|reflexivity].
  - apply (Hsrc (p :: ps)).
  - destruct fallback as [f|]; [apply Hsrc|].
    destruct inferred as [i|]; [apply Hsrc|reflexivity].
Qed.

Lemma catalogName_restored (label : JSString) :
  catalogName toLowerCase context (trim (restored toLowerCase context label))
  = catalogName toLowerCase context label.
Proof.
  unfold restored.
  destruct (catalogName toLowerCase context label) as [name|] eqn:Hname.
  - unfold catalogName in *.
    destruct (find _ (meta_labels context)) as [entry|] eqn:Hfind; [|discriminate].
    injection Hname as <-.
    destruct (find_some _ _ Hfind) as [_ Heq]. apply eqb_eq in Heq.
    rewrite trim_idem, toLowerCase_trim, Heq, <- toLowerCase_trim, trim_idem.
    now rewrite Hfind.
  - unfold catalogName in *. now rewrite !trim_idem.
Qed.

Lemma restored_fixed (label : JSString) :
  restored toLowerCase context (trim (restored toLowerCase context label))
  = restored toLowerCase context label.
Proof.
  unfold restored at 1. rewrite catalogName_restored.
  unfold restored.
  destruct (catalogName toLowerCase context label); [reflexivity|].
  now rewrite !trim_idem.
Qed.

Lemma trim_nonempty (s : JSString) : trim s <> [] -> s <> [].
Proof. intros H ->. now apply H. Qed.

Lemma restoredLabels_again (result : list JSString) :
  Forall (fun r => r <> []
                   /\ exists label, r = trim (restored toLowerCase context label))
         result ->
  map trim (restoredLabels toLowerCase context result) = result.
Proof.
  unfold restoredLabels.
  induction 1 as [|r rest (Hne & label & Hr) Hrest IH]; [reflexivity|].
  cbn [filter]. subst r. rewrite trim_idem.
  destruct (trim (restored toLowerCase context label)) as [|c t] eqn:Ht;
    [now destruct Hne|].
  cbn [truthy map filter]. rewrite <- Ht, restored_fixed.
  destruct (restored toLowerCase context label) as [|c' n] eqn:Hn;
    [discriminate|].
  cbn [truthy map]. now rewrite IH.
Qed.

End NormalizeFacts.

(** Within its own input, [dedupeLabels] keeps the first label of each kind
    with the casing it has there. *)
Lemma dedupeLabels_first_seen (toLowerCase : JSString -> JSString)
  (labels result : list JSString) (r : JSString) :
  dedupeLabels toLowerCase (Some labels) = Some result ->
  In r result -> first_seen toLowerCase labels r.
Proof.
  unfold dedupeLabels. destruct labels as [|l ls]; [discriminate|].
  rewrite dedupeLoop_firstSeen by (cbn; lia). cbn [app List.length Nat.sub].
  destruct (firstn 5 _) as [|x xs] eqn:Hfirst; [discriminate|].
  intros [= <-] Hin. rewrite <- Hfirst in Hin. apply firstn_in in Hin.
  destruct (firstSeen_in toLowerCase _ _ _ Hin)
    as (earlier & label & later & Hsplit & Hr & _ & _ & Hfirst').
  exists earlier, label, later. auto.
Qed.

Lemma normalizeLabels_undefined (toLowerCase : JSString -> JSString)
  (preferred fallback inferred : option (list JSString))
  (context : TodoistMetadata) :
  normalizeLabels toLowerCase preferred fallback context inferred = None
  <-> match labelSource preferred fallback inferred with
      | Some source =>
          firstSeen toLowerCase [] (restoredLabels toLowerCase context source) = []
      | None => True
      end.
Proof.
  rewrite normalizeLabels_firstSeen.
  destruct (labelSource preferred fallback inferred) as [source|]; [|tauto].
  destruct (firstSeen toLowerCase [] _) as [|x xs]; cbn [firstn].
  - tauto.
  - split; discriminate.
Qed.

(** Every label that is not blank is of a kind already seen, or its kind
    is kept. *)
Lemma firstSeen_complete (toLowerCase : JSString -> JSString)
  (labels : list JSString) :
  forall seen label,
    In label labels -> trim label <> [] ->
    In (toLowerCase (trim label)) seen
    \/ exists r, In r (firstSeen toLowerCase seen labels)
                 /\ toLowerCase r = toLowerCase (trim label).
Proof.
  induction labels as [|head rest IH]; intros seen label Hin Hnb; [destruct Hin|].
  cbn [firstSeen]. cbv zeta.
  destruct (truthy (trim head)) eqn:Hhead; cbn [negb orb].
  - destruct (existsb (eqb (toLowerCase (trim head))) seen) eqn:Hseen.
    + destruct Hin as [<-|Hin]; [|now apply IH].
      left. apply existsb_exists in Hseen as (k & Hk & Heq).
      apply eqb_eq in Heq. now rewrite Heq.
    + destruct Hin as [<-|Hin].
      * right. exists (trim head). split; [now left|reflexivity].
      * destruct (IH (toLowerCase (trim head) :: seen) label Hin Hnb)
          as [[Heq|Hold]|(r & Hr & Hsame)].
        -- right. exists (trim head). split; [now left|exact Heq].
        -- now left.
        -- right. exists r. split; [now right|exact Hsame].
  - destruct Hin as [<-|Hin]; [|now apply IH].
    destruct (trim head); [now destruct Hnb|discriminate Hhead].
Qed.

Lemma firstSeen_app (toLowerCase : JSString -> JSString)
  (front back : list JSString) :
  forall seen,
    firstSeen toLowerCase seen (front ++ back)
    = firstSeen toLowerCase seen front
      ++ firstSeen toLowerCase
           (rev (map toLowerCase (firstSeen toLowerCase seen front)) ++ seen) back.
Proof.
  induction front as [|head rest IH]; intro seen; [reflexivity|].
  cbn [app firstSeen]. cbv zeta.
  destruct (negb (truthy (trim head))
            || existsb (eqb (toLowerCase (trim head))) seen); [apply IH|].
  rewrite IH. cbn [map rev app]. now rewrite <- app_assoc.
Qed.

Lemma firstn_keeps_front {A} (n : nat) (front back : list A) (x : A) :
  In x (firstn n (front ++ x :: back)) -> ~ In x front ->
  forall y, In y front -> In y (firstn n (front ++ x :: back)).
Proof.
  intros Hx Hfresh y Hy. rewrite firstn_app in Hx |- *.
  destruct (Nat.le_gt_cases n (List.length front)) as [Hshort|Hlong].
  - replace (n - List.length front)%nat with 0%nat in Hx by lia.
    cbn [firstn] in Hx. rewrite app_nil_r in Hx.
    apply firstn_in in Hx. contradiction.
  - rewrite firstn_all2 by lia. apply in_or_app. now left.
Qed.

(** The label kept for a kind comes after the labels kept for the kinds
    seen before it. *)
Lemma firstSeen_front (toLowerCase : JSString -> JSString)
  (earlier later : list JSString) (label : JSString) :
  trim label <> [] ->
  (forall other, In other earlier -> trim other <> [] ->
                 ~ same_label toLowerCase other label) ->
  exists back,
    firstSeen toLowerCase [] (earlier ++ label :: later)
    = firstSeen toLowerCase [] earlier ++ trim label :: back
    /\ ~ In (trim label) (firstSeen toLowerCase [] earlier).
Proof.
  intros Hnb Hfirst.
  assert (Hfresh : forall r, In r (firstSeen toLowerCase [] earlier) ->
                             toLowerCase r <> toLowerCase (trim label)).
  { intros r Hr Hsame.
    destruct (firstSeen_in toLowerCase _ _ _ Hr)
      as (before & l & after & Hsplit & -> & Hl & _).
    apply (Hfirst l); [|exact Hl|exact Hsame].
    rewrite Hsplit. apply in_or_app. right. now left. }
  rewrite firstSeen_app. cbn [firstSeen]. cbv zeta.
  destruct (trim label) as [|c t] eqn:Ht; [now destruct Hnb|].
  cbn [truthy negb orb].
  destruct (existsb _ _) eqn:Hseen.
  - apply existsb_exists in Hseen as (k & Hk & Heq). apply eqb_eq in Heq.
    rewrite app_nil_r in Hk. apply in_rev in Hk.
    apply in_map_iff in Hk as (r & Hr & Hin). subst k.
    destruct (Hfresh r Hin). now symmetry.
  - eexists. split; [reflexivity|].
    intro Hin. now apply (Hfresh _ Hin).
Qed.

(** C9 (amended): label normalisation is idempotent and order-stable.  The
    source labels are trimmed and take the catalog's casing where the
    catalog knows them up to case; of these restored labels the result
    keeps, in their order, the first of each kind up to case, at most five
    of them, and is never an empty list: it is the first five of the labels
    seen first, so that every kind is kept when fewer than five are, and the
    kinds that come before a kept one are kept as well; normalising the
    result again, against the same catalog, returns it unchanged.  The
    result is undefined exactly when there is no source or every restored
    label is blank.  Lower-casing is only assumed to commute with
    trimming. *)
Theorem normalizeLabels_stable (toLowerCase : JSString -> JSString)
  (toLowerCase_trim : forall s, toLowerCase (trim s) = trim (toLowerCase s))
  (preferred fallback : option (list JSString)) (context : TodoistMetadata)
  (inferred : option (list JSString)) :
  match normalizeLabels toLowerCase preferred fallback context inferred with
  | Some result =>
      exists source,
        labelSource preferred fallback inferred = Some source
        /\ result <> []
        /\ (List.length result <= 5)%nat
        /\ NoDup (map toLowerCase result)
        /\ subsequence result (map trim (restoredLabels toLowerCase context source))
        /\ (forall r, In r result ->
                      first_seen toLowerCase
                        (restoredLabels toLowerCase context source) r)
        /\ result
           = firstn 5 (firstSeen toLowerCase []
                         (restoredLabels toLowerCase context source))
        /\ ((List.length result < 5)%nat ->
            forall label,
              In label (restoredLabels toLowerCase context source) ->
              trim label <> [] ->
              exists r, In r result /\ same_label toLowerCase r label)
        /\ (forall earlier label later,
              restoredLabels toLowerCase context source
              = earlier ++ label :: later ->
              In (trim label) result ->
              (forall other, In other earlier -> trim other <> [] ->
                             ~ same_label toLowerCase other label) ->
              forall other, In other earlier -> trim other <> [] ->
                            exists r, In r result
                                      /\ same_label toLowerCase r other)
        /\ normalizeLabels toLowerCase (Some result) fallback context inferred
           = Some result
  | None =>
      forall source,
        labelSource preferred fallback inferred = Some source ->
        forall label,
          In label (restoredLabels toLowerCase context source) ->
          trim label = []
  end.
Proof.
  rewrite normalizeLabels_firstSeen.
  destruct (labelSource preferred fallback inferred) as [source|];
    [|intros source' Hs; discriminate Hs].
  set (normalized := restoredLabels toLowerCase context source) in *.
  set (kept := firstSeen toLowerCase [] normalized) in *.
  assert (Hkinds : forall label, In label normalized -> trim label <> [] ->
            exists r, In r kept /\ same_label toLowerCase r label).
  { intros label Hin Hnb.
    destruct (firstSeen_complete toLowerCase normalized [] label Hin Hnb)
      as [[]|(r & Hr & Hsame)].
    exists r. split; [exact Hr|]. unfold same_label.
    destruct (firstSeen_in toLowerCase _ _ _ Hr) as (_ & l & _ & _ & -> & _).
    now rewrite trim_idem. }
  destruct (firstn 5 kept) as [|x xs] eqn:Hfirst.
  - intros source' [= <-] label Hin.
    destruct (trim label) as [|c t] eqn:Ht; [reflexivity|exfalso].
    destruct (Hkinds label Hin) as (r & Hr & _); [rewrite Ht; discriminate|].
    destruct kept; [destruct Hr|discriminate Hfirst].
  - rewrite <- Hfirst. set (result := firstn 5 kept).
    assert (Hne : result <> []) by (unfold result; rewrite Hfirst; discriminate).
    exists source. split; [reflexivity|].
    assert (Hlen : (List.length result <= 5)%nat).
    { unfold result. rewrite length_firstn. lia. }
    assert (Hnodup : NoDup (map toLowerCase result)).
    { unfold result. rewrite <- firstn_map.
      apply (NoDup_app_remove_r _ (skipn 5 (map toLowerCase kept))).
      rewrite firstn_skipn. apply firstSeen_nodup. }
    assert (Hin : forall r, In r result ->
              exists earlier label later,
                normalized = earlier ++ label :: later
                /\ r = trim label /\ trim label <> []
                /\ forall other, In other earlier -> trim other <> [] ->
                                 ~ same_label toLowerCase other label).
    { intros r Hr. apply firstn_in in Hr.
      destruct (firstSeen_in toLowerCase _ _ _ Hr)
        as (earlier & label & later & H1 & H2 & H3 & _ & H4).
      exists earlier, label, later. auto. }
    split; [exact Hne|]. split; [exact Hlen|]. split; [exact Hnodup|].
    split; [apply subsequence_firstn, firstSeen_subsequence|].
    split.
    { intros r Hr. destruct (Hin r Hr) as (earlier & label & later & H1 & H2 & _ & H4).
      exists earlier, label, later. auto. }
    split; [reflexivity|].
    split.
    { intros Hshort label Hlabel Hnb.
      assert (Hall : result = kept).
      { unfold result. apply firstn_all2.
        unfold result in Hshort. rewrite length_firstn in Hshort. lia. }
      rewrite Hall. now apply Hkinds. }
    split.
    { intros earlier label later Hsplit Hkept Hfirstkind other Hother Hnb.
      assert (Hlabel : trim label <> []).
      { destruct (Hin _ Hkept) as (_ & l & _ & _ & Heq & Hl & _). now rewrite Heq. }
      destruct (firstSeen_front toLowerCase earlier later label Hlabel Hfirstkind)
        as (back & Hshape & Hfresh).
      destruct (firstSeen_complete toLowerCase earlier [] other Hother Hnb)
        as [[]|(r & Hr & Hsame)].
      exists r. split.
      - unfold result, kept, normalized. rewrite Hsplit, Hshape.
        apply firstn_keeps_front; [|exact Hfresh|exact Hr].
        rewrite <- Hshape, <- Hsplit. exact Hkept.
      - unfold same_label.
        destruct (firstSeen_in toLowerCase _ _ _ Hr) as (_ & l & _ & _ & -> & _).
        now rewrite trim_idem. }
    rewrite normalizeLabels_firstSeen.
    assert (Hsrc : labelSource (Some result) fallback inferred = Some result).
    { unfold labelSource. destruct result; [now destruct Hne|reflexivity]. }
    rewrite Hsrc.
    rewrite <- firstSeen_trimmed, (restoredLabels_again toLowerCase toLowerCase_trim).
    + rewrite firstSeen_fixed.
      * rewrite firstn_all2 by exact Hlen.
        destruct result; [now destruct Hne|reflexivity].
      * apply Forall_forall. intros r Hr.
        destruct (Hin r Hr) as (_ & label & _ & _ & -> & Hnb & _).
        repeat split; auto. apply trim_idem.
      * exact Hnodup.
    + apply Forall_forall. intros r Hr.
      destruct (Hin r Hr) as (earlier & label & later & Hsplit & -> & Hnb & _).
      split; [exact Hnb|].
      assert (Hlabel : In label normalized).
      { rewrite Hsplit. apply in_or_app. right. now left. }
      unfold normalized, restoredLabels in Hlabel.
      apply filter_In in Hlabel as [Hlabel _].
      apply in_map_iff in Hlabel as (x' & <- & _).
      now exists x'.
Qed.

(** C9, witness: nine labels of seven kinds against a catalog that knows one
    of them; the first five kinds are kept, and kept again. *)
Lemma normalizeLabels_stable_witness :
  normalizeLabels asciiLower
    (Some [js " work"; js "Home"; js "WORK"; js "a"; js "b"; js "home ";
           js "c"; js "d"; js "e"])
    None workCatalog None
  = Some [js "WORK"; js "Home"; js "a"; js "b"; js "c"]
  /\ normalizeLabels asciiLower (Some [js "WORK"; js "Home"; js "a"; js "b"; js "c"])
       None workCatalog None
     = Some [js "WORK"; js "Home"; js "a"; js "b"; js "c"]
  /\ NoDup (map asciiLower [js "WORK"; js "Home"; js "a"; js "b"; js "c"]).
Proof.
  split; [reflexivity|].
  pose proof (normalizeLabels_stable asciiLower asciiLower_trim
                (Some [js " work"; js "Home"; js "WORK"; js "a"; js "b";
                       js "home "; js "c"; js "d"; js "e"])
                None workCatalog None) as H.
  change (normalizeLabels asciiLower
            (Some [js " work"; js "Home"; js "WORK"; js "a"; js "b";
                   js "home "; js "c"; js "d"; js "e"])
            None workCatalog None)
    with (Some [js "WORK"; js "Home"; js "a"; js "b"; js "c"]) in H.
  destruct H as (source & _ & _ & _ & Hnodup & _ & _ & _ & _ & _ & Hagain).
  split; [exact Hagain|exact Hnodup].
Defined.

(** C9, counterexample: two spellings of a label the catalog knows collapse
    to the catalog's spelling, which is not the one seen first. *)
Lemma normalizeLabels_catalog_casing :
  normalizeLabels asciiLower (Some [js "Work"; js "work"]) None workCatalog None
  = Some [js "WORK"]
  /\ ~ labels_claim_as_stated asciiLower.
Proof.
  split; [reflexivity|].
  intro H.
  destruct (H (Some [js "Work"; js "work"]) None workCatalog None
              [js "WORK"] (js "WORK") eq_refl (or_introl eq_refl))
    as (source & Hsource & earlier & label & later & Hsplit & Hr & _).
  injection Hsource as <-.
  destruct earlier as [|a [|b [|c earlier]]]; cbn in Hsplit.
  - injection Hsplit as <- _. discriminate Hr.
  - injection Hsplit as _ <- _. discriminate Hr.
  - discriminate Hsplit.
  - discriminate Hsplit.
Qed.

(** ** Sample runs *)

Example createTransport_sample :
  createTransport sampleURL sampleEnv
  = Returned (Some {| transport_url := js "https://ai.todoist.net/mcp";
                      transport_token := js "secret" |}).
Proof. reflexivity. Qed.

Example POST_sample_final :
  last (POST asciiLower sampleParse sampleURL sampleDatetime sampleWorld sampleRequest)
       (ev_error [] [])
  = ev_final 2 1
      (map (fun r => {| planned := fst r; status := fst (snd r);
                        todoistId := fst (snd (snd r));
                        error := snd (snd (snd r)) |})
         [ (normalizedTitled "Write report", (created, (JStr (js "t"), None)));
           (normalizedTitled "Meet client",
            (failed, (JUndefined, Some (js "rate limited"))));
           (normalizedTitled "Recap", (created, (JStr (js "t"), None))) ]).
Proof. reflexivity. Qed.

Example POST_sample_invalid_url :
  POST asciiLower sampleParse sampleURL sampleDatetime
    {| env := {| TODOIST_MCP_URL := Some (js "not a url");
                 TODOIST_TOKEN := None |};
       connect := connect sampleWorld;
       listTools := listTools sampleWorld;
       intentResponse := intentResponse sampleWorld;
       listMetadata := listMetadata sampleWorld;
       planResponse := planResponse sampleWorld;
       createCall := createCall sampleWorld |} sampleRequest
  = [ev_error (js "Failed to generate the plan")
       (js "TODOIST_MCP_URL must be a valid URL")].
Proof. reflexivity. Qed.

(** An answer without tasks fails the schema and is thrown, whatever the
    scenario. *)
Lemma generatePlan_rejects_empty
  (toLowerCase : JSString -> JSString) (isIsoDatetime : JSString -> bool)
  (w : World) (input : PlanRequestBody) (scenario : PlanScenario)
  (context : TodoistMetadata) (priorityHint : option Z)
  (inferredProject : option TodoistProjectSummary)
  (inferredLabels : option (list JSString)) (raw : AiPlan) :
  planResponse w = Returned raw ->
  plan_tasks raw = [] ->
  generatePlan toLowerCase isIsoDatetime w input scenario context priorityHint
    inferredProject inferredLabels = Threw zodError.
Proof.
  intros Hraw Hempty. unfold generatePlan, aiPlanSchema_parse.
  rewrite Hraw. cbn [bindO]. rewrite Hempty. reflexivity.
Qed.

(** A due object whose [string] is empty passes the plan schema. *)
Example empty_due_string_is_valid :
  aiPlanSchema_parse sampleDatetime
    {| plan_summary := None;
       plan_tasks :=
         [ {| title := js "Pay rent"; description := None; priority := None;
              labels := None; projectId := None; project := None;
              due := Some {| due_string := Some []; due_date := None;
                             due_datetime := None |} |} ] |}
  = Returned
      {| plan_summary := None;
         plan_tasks :=
           [ {| title := js "Pay rent"; description := None; priority := None;
                labels := None; projectId := None; project := None;
                due := Some {| due_string := Some []; due_date := None;
                               due_datetime := None |} |} ] |}.
Proof. reflexivity. Qed.

Example recipe_three_days :
  maxTasks (determineScenario
              {| intent := recipe_plan; decision_summary := None;
                 days := Some 3; keywords := None |} sampleRequest) = 6.
Proof. reflexivity. Qed.

Example recipe_seven_days :
  maxTasks (determineScenario
              {| intent := recipe_plan; decision_summary := None;
                 days := Some 7; keywords := None |} sampleRequest) = 10.
Proof. reflexivity. Qed.

(** An exact alias name wins over a tool that only matches the keywords. *)
Example project_alias_before_heuristic :
  option_map config_name
    (resolveListToolConfig
       [ {| tool_name := js "get-projects";
            tool_description := Some (js "List all projects") |};
         {| tool_name := js "todoist_projects"; tool_description := None |} ]
       (PROJECT_TOOL_ALIASES asciiLower))
  = Some (js "todoist_projects").
Proof. reflexivity. Qed.

Example heuristic_skips_mutating_tools :
  option_map config_name
    (resolveListToolConfig
       [ {| tool_name := js "add-projects";
            tool_description := Some (js "List then create projects") |};
         {| tool_name := js "projects-overview"; tool_description := None |} ]
       (PROJECT_TOOL_ALIASES asciiLower))
  = Some (js "projects-overview").
Proof. reflexivity. Qed.

Example stripJsonFence_fenced :
  stripJsonFence
    (js "```json" ++ [10%N] ++ js "{}" ++ [10%N] ++ js "```")
  = js "{}".
Proof. reflexivity. Qed.

Example bulk_priority_flag : mapApiPriorityToUiFlag 4 = js "p1".
Proof. reflexivity. Qed.

Example nested_payload :
  pluckArray
    (JObj [(js "data", JObj [(js "meta", JNum 1);
                             (js "results", JArr [JNum 7])])])
    DEFAULT_COLLECTION_KEYS
  = Some [JNum 7].
Proof. reflexivity. Qed.

Example deep_payload :
  pluckArray
    (JObj [(js "data",
            JObj [(js "data", JObj [(js "items", JArr [JNum 7])])])])
    DEFAULT_COLLECTION_KEYS
  = Some [JNum 7].
Proof. reflexivity. Qed.
(** * Further properties of the handler *)

(** ** Priorities *)

Lemma clampPriority_range (priority : option Z) (p : Z) :
  clampPriority priority = Some p -> 1 <= p <= 4.
Proof. destruct priority; cbn; [intros [= <-]; lia|discriminate]. Qed.

(** X1: the priority of a normalised task is the first defined of the task's
    own priority, the hint found in the prompt and the request's priority,
    brought into the range 1 to 4; a value already in range is kept. *)
Theorem normalizeTask_priority (toLowerCase : JSString -> JSString)
  (task : PlannedTask) (input : PlanRequestBody) (context : TodoistMetadata)
  (priorityHint : option Z) (inferredProject : option TodoistProjectSummary)
  (inferredLabels : option (list JSString)) :
  let chosen := firstDefined [priority task; priorityHint; req_priority input] in
  let result := n_priority (normalizeTask toLowerCase task input context
                              priorityHint inferredProject inferredLabels) in
  (chosen = None <-> result = None)
  /\ (forall p, result = Some p -> 1 <= p <= 4)
  /\ (forall p, chosen = Some p -> 1 <= p <= 4 -> result = Some p)
  /\ (forall p, chosen = Some p -> p < 1 -> result = Some 1)
  /\ (forall p, chosen = Some p -> 4 < p -> result = Some 4).
Proof.
  cbv zeta. unfold normalizeTask. cbn [n_priority firstDefined].
  unfold nullish.
  destruct (priority task) as [a|], priorityHint as [b|],
    (req_priority input) as [c|]; cbn [clampPriority];
    repeat match goal with |- _ /\ _ => split end;
    try (split; congruence); intros q Hq; intros;
    try discriminate Hq; injection Hq as Hq; subst;
    try (f_equal; lia); lia.
Qed.

(** X2: the flag sent to the bulk tool and the cue read from a prompt are
    inverse to each other: reading the flag of a priority gives that
    priority back, brought into the range 1 to 4. *)
Theorem priority_flag_round_trip (toLowerCase : JSString -> JSString) (p : Z)
  (Hfixed : toLowerCase (mapApiPriorityToUiFlag p) = mapApiPriorityToUiFlag p) :
  detectPriorityFromPrompt toLowerCase (mapApiPriorityToUiFlag p)
  = clampPriority (Some p).
Proof.
  unfold detectPriorityFromPrompt. rewrite Hfixed.
  unfold mapApiPriorityToUiFlag, clampPriority.
  assert (H : Z.min 4 (Z.max 1 p) = 1 \/ Z.min 4 (Z.max 1 p) = 2
              \/ Z.min 4 (Z.max 1 p) = 3 \/ Z.min 4 (Z.max 1 p) = 4) by lia.
  destruct H as [-> | [-> | [-> | ->]]]; reflexivity.
Qed.

Lemma asciiLower_flag (p : Z) :
  asciiLower (mapApiPriorityToUiFlag p) = mapApiPriorityToUiFlag p.
Proof.
  unfold mapApiPriorityToUiFlag, clampPriority.
  assert (H : Z.min 4 (Z.max 1 p) = 1 \/ Z.min 4 (Z.max 1 p) = 2
              \/ Z.min 4 (Z.max 1 p) = 3 \/ Z.min 4 (Z.max 1 p) = 4) by lia.
  destruct H as [-> | [-> | [-> | ->]]]; reflexivity.
Qed.

Lemma priority_flag_round_trip_witness :
  asciiLower (mapApiPriorityToUiFlag 3) = mapApiPriorityToUiFlag 3
  /\ detectPriorityFromPrompt asciiLower (mapApiPriorityToUiFlag 3) = Some 3.
Proof.
  split; [reflexivity|].
  apply (priority_flag_round_trip asciiLower 3). reflexivity.
Defined.
(** ** Normalised tasks *)

Lemma selectDue_single (fromTask : option Due) (fallback : option JSString)
  (d : Due) :
  selectDue fromTask fallback = Some d ->
  representations d = 1%nat
  /\ (truthyOpt (due_string d) || truthyOpt (due_date d)
      || truthyOpt (due_datetime d) = true).
Proof.
  unfold selectDue.
  destruct (negb _ && negb _); [discriminate|].
  repeat match goal with
  | |- context [if truthyOpt ?x then _ else _] =>
      let E := fresh "E" in destruct (truthyOpt x) eqn:E
  end; try discriminate; intros [= <-];
    cbn [representations due_string due_date due_datetime count_defined];
    match goal with
    | E : truthyOpt ?x = true |- _ =>
        destruct x; [|discriminate E]; cbn [count_defined]; rewrite ?E
    end; split; try reflexivity; cbn; rewrite ?orb_true_r; reflexivity.
Qed.

Lemma firstn_nodup {A} (n : nat) (xs : list A) : NoDup xs -> NoDup (firstn n xs).
Proof.
  intro H. apply (NoDup_app_remove_r _ (skipn n xs)). now rewrite firstn_skipn.
Qed.

Lemma normalizeLabels_shape (toLowerCase : JSString -> JSString)
  (preferred fallback : option (list JSString)) (context : TodoistMetadata)
  (inferred : option (list JSString)) (result : list JSString) :
  normalizeLabels toLowerCase preferred fallback context inferred = Some result ->
  result <> [] /\ (List.length result <= 5)%nat
  /\ Forall (fun l => l <> [] /\ trim l = l) result
  /\ NoDup (map toLowerCase result).
Proof.
  rewrite normalizeLabels_firstSeen.
  destruct (labelSource preferred fallback inferred) as [source|]; [|discriminate].
  destruct (firstn 5 _) as [|x xs] eqn:Hfirst; [discriminate|].
  intros [= <-]. rewrite <- Hfirst. repeat split.
  - rewrite Hfirst. discriminate.
  - rewrite length_firstn. lia.
  - apply Forall_forall. intros r Hr. apply firstn_in in Hr.
    destruct (firstSeen_in toLowerCase _ _ _ Hr) as (_ & label & _ & _ & -> & Hnb & _).
    split; [exact Hnb|apply trim_idem].
  - rewrite <- firstn_map. apply firstn_nodup, firstSeen_nodup.
Qed.

(** X3: every normalised task is well formed: its title is trimmed, its
    priority lies between 1 and 4, its labels are at most five non-blank
    trimmed labels that differ up to case, its due object carries exactly
    one representation, which is not empty, and a project id never comes
    without a project name. *)
Theorem normalizeTask_well_formed (toLowerCase : JSString -> JSString)
  (task : PlannedTask) (input : PlanRequestBody) (context : TodoistMetadata)
  (priorityHint : option Z) (inferredProject : option TodoistProjectSummary)
  (inferredLabels : option (list JSString)) :
  let t := normalizeTask toLowerCase task input context priorityHint
             inferredProject inferredLabels in
  trim (n_title t) = n_title t
  /\ (forall d, n_description t = Some d -> trim d = d)
  /\ (forall p, n_priority t = Some p -> 1 <= p <= 4)
  /\ (forall ls, n_labels t = Some ls ->
        ls <> [] /\ (List.length ls <= 5)%nat
        /\ Forall (fun l => l <> [] /\ trim l = l) ls
        /\ NoDup (map toLowerCase ls))
  /\ (forall d, n_due t = Some d ->
        representations d = 1%nat
        /\ (truthyOpt (due_string d) || truthyOpt (due_date d)
            || truthyOpt (due_datetime d) = true))
  /\ (forall id, n_projectId t = Some id -> n_projectName t <> None).
Proof.
  cbv zeta. unfold normalizeTask.
  cbn [n_title n_description n_priority n_labels n_due n_projectId n_projectName].
  split; [apply trim_idem|].
  split.
  { destruct (description task); cbn; [intros d [= <-]; apply trim_idem|discriminate]. }
  split; [intros p; apply clampPriority_range|].
  split; [intros ls; apply normalizeLabels_shape|].
  split; [intros d; apply selectDue_single|].
  intros id. destruct (resolveProjectReference _ _ _ _); cbn; [discriminate|discriminate].
Qed.
(** ** Projects and labels named in the prompt *)

Lemma includes_contains (haystack needle : JSString) :
  includes haystack needle = true <-> contains haystack needle.
Proof.
  unfold contains. induction haystack as [|c h IH]; cbn [includes].
  - destruct (stripPrefix needle []) as [r|] eqn:Hp.
    + apply stripPrefix_spec in Hp. split; [|reflexivity].
      intros _. exists [], r. exact Hp.
    + split; [discriminate|]. intros (b & a & H).
      symmetry in H. apply app_eq_nil in H as [-> H].
      apply app_eq_nil in H as [-> ->]. discriminate Hp.
  - destruct (stripPrefix needle (c :: h)) as [r|] eqn:Hp.
    + apply stripPrefix_spec in Hp. split; [|reflexivity].
      intros _. exists [], r. exact Hp.
    + rewrite IH. split.
      * intros (b & a & ->). exists (c :: b), a. reflexivity.
      * intros ([|x b] & a & H).
        -- cbn in H. assert (Hs : stripPrefix needle (c :: h) = Some a)
             by now apply stripPrefix_spec.
           congruence.
        -- injection H as _ ->. exists b, a. reflexivity.
Qed.

(** X4: the project inferred from a prompt is the first project of the catalog
    that is not the inbox and whose name occurs in the prompt, both
    lower-cased; no project is inferred exactly when there is none. *)
Theorem inferProjectFromPrompt_first (toLowerCase : JSString -> JSString)
  (prompt : JSString) (context : TodoistMetadata) :
  match inferProjectFromPrompt toLowerCase prompt context with
  | Some p =>
      exists earlier later,
        projects context = earlier ++ p :: later
        /\ isInbox p = false
        /\ contains (toLowerCase prompt) (toLowerCase (project_name p))
        /\ forall q, In q earlier ->
                     isInbox q = true
                     \/ ~ contains (toLowerCase prompt) (toLowerCase (project_name q))
  | None =>
      forall q, In q (projects context) ->
                isInbox q = true
                \/ ~ contains (toLowerCase prompt) (toLowerCase (project_name q))
  end.
Proof.
  unfold inferProjectFromPrompt.
  assert (Hfail : forall q,
            includes (toLowerCase prompt) (toLowerCase (project_name q))
            && negb (isInbox q) = false ->
            isInbox q = true
            \/ ~ contains (toLowerCase prompt) (toLowerCase (project_name q))).
  { intros q Hq. destruct (isInbox q); [now left|right].
    rewrite andb_true_r in Hq. rewrite <- includes_contains. congruence. }
  destruct (projects context) as [|p0 ps] eqn:Hps; [intros q []|].
  rewrite <- Hps.
  destruct (find _ (projects context)) as [p|] eqn:Hfind.
  - apply find_first in Hfind as (earlier & later & Hsplit & Hp & Hearlier).
    apply andb_prop in Hp as [Hinc Hinbox].
    exists earlier, later. repeat split; auto.
    + now destruct (isInbox p).
    + now apply includes_contains.
  - intros q Hq. apply Hfail. exact (find_none _ _ Hfind q Hq).
Qed.

Lemma filter_subsequence {A} (f : A -> bool) (xs : list A) :
  subsequence (filter f xs) xs.
Proof.
  induction xs as [|x xs IH]; cbn; [constructor|].
  destruct (f x); constructor; exact IH.
Qed.

Lemma map_subsequence {A B} (f : A -> B) (xs ys : list A) :
  subsequence xs ys -> subsequence (map f xs) (map f ys).
Proof. induction 1; cbn; constructor; assumption. Qed.

(** X5: the labels inferred from a prompt are the catalog's label names that
    occur in the prompt, both lower-cased, in the order of the catalog; the
    result is never an empty list, and it is undefined exactly when no
    label name occurs. *)
Theorem inferLabelsFromPrompt_occurring (toLowerCase : JSString -> JSString)
  (prompt : JSString) (context : TodoistMetadata) :
  match inferLabelsFromPrompt toLowerCase prompt context with
  | Some names =>
      names <> []
      /\ subsequence names (map label_name (meta_labels context))
      /\ (forall l, In l (meta_labels context) ->
                    contains (toLowerCase prompt) (toLowerCase (label_name l)) ->
                    In (label_name l) names)
      /\ (forall name, In name names ->
                       contains (toLowerCase prompt) (toLowerCase name))
  | None =>
      forall l, In l (meta_labels context) ->
                ~ contains (toLowerCase prompt) (toLowerCase (label_name l))
  end.
Proof.
  unfold inferLabelsFromPrompt.
  destruct (meta_labels context) as [|l0 ls] eqn:Hls; [intros l []|].
  rewrite <- Hls. clear Hls l0 ls.
  set (keep := fun l => includes (toLowerCase prompt) (toLowerCase (label_name l))).
  destruct (map label_name (filter keep (meta_labels context))) as [|n ns] eqn:Hm.
  - intros l Hl Hc. apply includes_contains in Hc.
    assert (Hin : In (label_name l) (map label_name (filter keep (meta_labels context)))).
    { apply in_map, filter_In. auto. }
    rewrite Hm in Hin. destruct Hin.
  - rewrite <- Hm. repeat split.
    + rewrite Hm. discriminate.
    + apply map_subsequence, filter_subsequence.
    + intros l Hl Hc. apply in_map, filter_In. split; [assumption|].
      now apply includes_contains.
    + intros name Hname. apply in_map_iff in Hname as (l & <- & Hl).
      apply filter_In in Hl as [_ Hl]. now apply includes_contains.
Qed.
(** ** The project a task goes to *)

Section ProjectFacts.
Variable toLowerCase : JSString -> JSString.
Variable task : PlannedTask.
Variable context : TodoistMetadata.
Variable inferred : option TodoistProjectSummary.

Lemma resolveProjectReference_by_id (pid : JSString) :
  projectId task = Some pid -> truthy pid = true ->
  resolveProjectReference toLowerCase task context inferred
  = Some {| ref_id := Some pid;
            ref_name :=
              match find (fun p => eqb (project_id p) pid) (projects context) with
              | Some k => project_name k
              | None => match project task with Some n => n | None => pid end
              end |}.
Proof.
  intros Hpid Ht. unfold resolveProjectReference. rewrite Hpid.
  destruct pid as [|c pid]; [discriminate|].
  cbn [truthyOpt truthy negb andb]. rewrite andb_false_r. reflexivity.
Qed.

Lemma resolveProjectReference_by_name (name : JSString) :
  truthyOpt (projectId task) = false ->
  project task = Some name -> truthy name = true ->
  resolveProjectReference toLowerCase task context inferred
  = match find (fun p => eqb (toLowerCase (project_name p))
                             (toLowerCase (trim name)))
               (projects context) with
    | Some known => Some {| ref_id := Some (project_id known);
                            ref_name := project_name known |}
    | None => Some {| ref_id := None; ref_name := trim name |}
    end.
Proof.
  intros Hpid Hname Ht. unfold resolveProjectReference. rewrite Hname.
  destruct name as [|c name]; [discriminate|].
  cbn [truthyOpt truthy negb andb]. rewrite andb_false_r. cbn [andb].
  destruct (projectId task) as [[|c' pid]|]; try discriminate Hpid; reflexivity.
Qed.

Lemma resolveProjectReference_by_prompt :
  truthyOpt (projectId task) = false -> truthyOpt (project task) = false ->
  resolveProjectReference toLowerCase task context inferred
  = option_map (fun p => {| ref_id := Some (project_id p);
                            ref_name := project_name p |}) inferred.
Proof.
  intros Hpid Hname. unfold resolveProjectReference.
  rewrite Hpid, Hname. cbn [negb]. rewrite !andb_true_r.
  destruct (projectId task) as [[|c' pid]|]; try discriminate Hpid;
    destruct (project task) as [[|c name]|]; try discriminate Hname;
    destruct (projects context), inferred; reflexivity.
Qed.

(** X6: project resolution follows the task's own project id, then the task's
    project name, then the project inferred from the prompt.  A project id
    of the task is kept as it is, known to the catalog or not; a project
    name is matched against the catalog up to case, the first match giving
    id and name, and without a match it is kept, trimmed, without an id;
    the inferred project only serves when the task has neither; and the
    result is undefined exactly when all three are missing. *)
Theorem resolveProjectReference_precedence :
  let result := resolveProjectReference toLowerCase task context inferred in
  (result = None <->
   truthyOpt (projectId task) = false /\ truthyOpt (project task) = false
   /\ inferred = None)
  /\ (truthyOpt (projectId task) = true ->
      exists r, result = Some r /\ ref_id r = projectId task)
  /\ (truthyOpt (projectId task) = false -> truthyOpt (project task) = true ->
      (forall earlier k later,
         projects context = earlier ++ k :: later ->
         toLowerCase (project_name k) = toLowerCase (trim (orEmpty (project task))) ->
         (forall q, In q earlier ->
                    toLowerCase (project_name q)
                    <> toLowerCase (trim (orEmpty (project task)))) ->
         result = Some {| ref_id := Some (project_id k);
                          ref_name := project_name k |})
      /\ ((forall q, In q (projects context) ->
                     toLowerCase (project_name q)
                     <> toLowerCase (trim (orEmpty (project task)))) ->
          result = Some {| ref_id := None;
                           ref_name := trim (orEmpty (project task)) |}))
  /\ (truthyOpt (projectId task) = false -> truthyOpt (project task) = false ->
      result = option_map (fun p => {| ref_id := Some (project_id p);
                                       ref_name := project_name p |}) inferred).
Proof.
  cbv zeta. split; [|split; [|split]].
  - destruct (truthyOpt (projectId task)) eqn:Hpid.
    + destruct (projectId task) as [pid|] eqn:Hp; [|discriminate].
      rewrite (resolveProjectReference_by_id pid Hp Hpid).
      split; [discriminate|]. intros (H & _). discriminate.
    + destruct (truthyOpt (project task)) eqn:Hname.
      * destruct (project task) as [name|] eqn:Hn; [|discriminate].
        rewrite (resolveProjectReference_by_name name Hpid Hn Hname).
        destruct (find _ _); (split; [discriminate|intros (_ & H & _); discriminate]).
      * rewrite (resolveProjectReference_by_prompt Hpid Hname).
        destruct inferred; cbn; split; try discriminate; auto.
        intros (_ & _ & H). discriminate.
  - intros Hpid. destruct (projectId task) as [pid|] eqn:Hp; [|discriminate].
    rewrite (resolveProjectReference_by_id pid Hp Hpid).
    eexists. split; reflexivity.
  - intros Hpid Hname. destruct (project task) as [name|] eqn:Hn; [|discriminate].
    rewrite (resolveProjectReference_by_name name Hpid Hn Hname).
    cbn [orEmpty]. split.
    + intros earlier k later Hsplit Hk Hearlier.
      assert (Hfind : find (fun p => eqb (toLowerCase (project_name p))
                                         (toLowerCase (trim name)))
                        (projects context) = Some k).
      { apply find_first. exists earlier, later. split; [assumption|].
        split; [now apply eqb_eq|].
        intros q Hq. destruct (eqb _ _) eqn:E; [|reflexivity].
        apply eqb_eq in E. now destruct (Hearlier q Hq). }
      now rewrite Hfind.
    + intros Hnone.
      assert (Hfind : find (fun p => eqb (toLowerCase (project_name p))
                                         (toLowerCase (trim name)))
                        (projects context) = None).
      { apply find_none_iff. intros q Hq.
        destruct (eqb _ _) eqn:E; [|reflexivity].
        apply eqb_eq in E. now destruct (Hnone q Hq). }
      now rewrite Hfind.
  - apply resolveProjectReference_by_prompt.
Qed.

End ProjectFacts.

(** ** The arguments of the creation tool *)

Lemma getProp_app_absent (a b : list (JSString * JSON)) (key : JSString) :
  forallb (fun kv => negb (eqb (fst kv) key)) a = true ->
  getProp (JObj (a ++ b)) key = getProp (JObj b) key.
Proof.
  cbn [getProp]. induction a as [|[k v] a IH]; cbn; [reflexivity|].
  destruct (eqb k key); cbn; [discriminate|exact IH].
Qed.

Ltac skip_fields :=
  rewrite getProp_app_absent
    by (unfold optField;
        repeat match goal with
        | |- context [match ?x with _ => _ end] => destruct x
        end; reflexivity).

Section ArgumentFacts.
Variable task : NormalizedTask.
Variable input : PlanRequestBody.
Variable style : PriorityStyle.

Lemma toTodoistArgs_dueDatetime :
  getProp (toTodoistArgs task input style) (js "dueDatetime")
  = if truthyOpt (dueField due_datetime task)
    then jsonOfString (dueField due_datetime task) else JUndefined.
Proof.
  unfold toTodoistArgs, dueField. cbv zeta. do 5 skip_fields.
  repeat match goal with
  | |- context [if truthyOpt ?x then _ else _] => destruct (truthyOpt x)
  end; reflexivity.
Qed.

Lemma toTodoistArgs_dueDate :
  getProp (toTodoistArgs task input style) (js "dueDate")
  = if truthyOpt (dueField due_datetime task) then JUndefined
    else if truthyOpt (dueField due_date task)
         then jsonOfString (dueField due_date task) else JUndefined.
Proof.
  unfold toTodoistArgs, dueField. cbv zeta. do 5 skip_fields.
  repeat match goal with
  | |- context [if truthyOpt ?x then _ else _] => destruct (truthyOpt x)
  end; reflexivity.
Qed.

Lemma toTodoistArgs_dueString :
  getProp (toTodoistArgs task input style) (js "dueString")
  = if truthyOpt (dueField due_datetime task) then JUndefined
    else if truthyOpt (dueField due_date task) then JUndefined
    else if truthyOpt (dueField due_string task)
         then jsonOfString (dueField due_string task)
    else if truthyOpt (req_due input) then jsonOfString (req_due input)
    else JUndefined.
Proof.
  unfold toTodoistArgs, dueField. cbv zeta. do 5 skip_fields.
  repeat match goal with
  | |- context [if truthyOpt ?x then _ else _] => destruct (truthyOpt x)
  end; reflexivity.
Qed.

Lemma toTodoistArgs_project (key : JSString) :
  key = js "projectId" \/ key = js "project_id" ->
  getProp (toTodoistArgs task input style) key
  = if truthyOpt (n_projectId task) then jsonOfString (n_projectId task)
    else JUndefined.
Proof.
  intros [-> | ->]; unfold toTodoistArgs; cbv zeta; do 4 skip_fields;
    destruct (truthyOpt (n_projectId task)); [reflexivity| |reflexivity|];
    cbn [app];
    repeat match goal with
    | |- context [if truthyOpt ?x then _ else _] => destruct (truthyOpt x)
    end; reflexivity.
Qed.

Lemma truthy_jsonOfString (x : option JSString) :
  truthyOpt x = true -> isUndefined (jsonOfString x) = false.
Proof. destruct x; [reflexivity|discriminate]. Qed.

(** X7: the payload of a creation call always carries the title as [content];
    it names the project under both [projectId] and [project_id], with the
    same value, or under neither; and it carries at most one of the due
    keys. *)
Theorem toTodoistArgs_shape :
  let args := toTodoistArgs task input style in
  getProp args (js "content") = JStr (n_title task)
  /\ getProp args (js "projectId") = getProp args (js "project_id")
  /\ hasProp args (js "projectId") = truthyOpt (n_projectId task)
  /\ (List.length (filter (hasProp args) dueKeys) <= 1)%nat.
Proof.
  cbv zeta. split; [reflexivity|]. split; [|split].
  - rewrite !toTodoistArgs_project by auto. reflexivity.
  - unfold hasProp. rewrite toTodoistArgs_project by auto.
    destruct (truthyOpt (n_projectId task)) eqn:H; [|reflexivity].
    now rewrite truthy_jsonOfString.
  - unfold dueKeys, hasProp. cbn [filter].
    rewrite toTodoistArgs_dueDatetime, toTodoistArgs_dueDate, toTodoistArgs_dueString.
    repeat match goal with
    | |- context [if truthyOpt ?x then _ else _] =>
        let E := fresh "E" in
        destruct (truthyOpt x) eqn:E;
        [rewrite (truthy_jsonOfString _ E) || idtac|]
    end; cbn; lia.
Qed.

End ArgumentFacts.

(** X8: for a task that went through normalisation with the same request, the
    payload mirrors the task's due object: each due key carries the
    corresponding field of the normalised due, and the request's own hint
    adds nothing further. *)
Theorem toTodoistArgs_due_of_normalized (toLowerCase : JSString -> JSString)
  (task : PlannedTask) (input : PlanRequestBody) (context : TodoistMetadata)
  (priorityHint : option Z) (inferredProject : option TodoistProjectSummary)
  (inferredLabels : option (list JSString)) (style : PriorityStyle) :
  let t := normalizeTask toLowerCase task input context priorityHint
             inferredProject inferredLabels in
  let args := toTodoistArgs t input style in
  getProp args (js "dueDatetime") = jsonOfString (dueField due_datetime t)
  /\ getProp args (js "dueDate") = jsonOfString (dueField due_date t)
  /\ getProp args (js "dueString") = jsonOfString (dueField due_string t).
Proof.
  cbv zeta.
  rewrite toTodoistArgs_dueDatetime, toTodoistArgs_dueDate, toTodoistArgs_dueString.
  unfold dueField, normalizeTask. cbn [n_due]. unfold selectDue.
  destruct (due task) as [[s d dt]|]; cbn [due_string due_date due_datetime];
    [destruct dt as [[|c1 dt]|], d as [[|c2 d]|], s as [[|c3 s]|]|];
    destruct (req_due input) as [[|c4 h]|]; cbn; repeat split; reflexivity.
Qed.

(** ** Discovery of the list tools *)

Lemma alias_no_match (alias : TodoistListToolAlias) (tools : list Tool) :
  match alias_names alias with
  | Some ((_ :: _) as names) =>
      find (fun tool => existsb (eqb (tool_name tool)) names) tools
  | _ => None
  end = None ->
  match alias_match alias with
  | Some pred => find pred tools
  | None => None
  end = None ->
  forall t, In t tools -> aliasMatches alias t = false.
Proof.
  intros Hname Hpred t Ht. unfold aliasMatches.
  apply orb_false_intro.
  - destruct (alias_names alias) as [[|n ns]|]; try reflexivity.
    exact (find_none _ _ Hname t Ht).
  - destruct (alias_match alias) as [pred|]; [|reflexivity].
    exact (find_none _ _ Hpred t Ht).
Qed.

(** X9: list-tool resolution answers with the first alias rule, in the order of
    the table, that matches some tool of the catalog, and with a tool that
    this rule matches; the tool is one of the catalog and the result keys
    are those of the rule.  It answers nothing exactly when no rule matches
    any tool. *)
Theorem resolveListToolConfig_first_rule (tools : list Tool)
  (aliases : list TodoistListToolAlias) :
  match resolveListToolConfig tools aliases with
  | Some config =>
      exists earlier alias later tool,
        aliases = earlier ++ alias :: later
        /\ (forall a t, In a earlier -> In t tools -> aliasMatches a t = false)
        /\ In tool tools
        /\ aliasMatches alias tool = true
        /\ config_name config = tool_name tool
        /\ config_resultKeys config = alias_resultKeys alias
  | None =>
      forall a t, In a aliases -> In t tools -> aliasMatches a t = false
  end.
Proof.
  induction aliases as [|alias rest IH]; cbn [resolveListToolConfig].
  - intros a t [].
  - cbv zeta.
    destruct (match alias_names alias with
              | Some ((_ :: _) as names) =>
                  find (fun tool => existsb (eqb (tool_name tool)) names) tools
              | _ => None
              end) as [tool|] eqn:Hname.
    + exists [], alias, rest, tool. cbn [config_name config_resultKeys].
      destruct (alias_names alias) as [[|n ns]|] eqn:Hn; try discriminate.
      apply find_some in Hname as [Hin Hmatch].
      repeat split; auto.
      * intros a t [].
      * unfold aliasMatches. rewrite Hn, Hmatch. reflexivity.
    + destruct (match alias_match alias with
                | Some pred => find pred tools
                | None => None
                end) as [tool|] eqn:Hpred.
      * exists [], alias, rest, tool.
        cbn [config_name config_resultKeys].
        destruct (alias_match alias) as [pred|] eqn:Hp; [|discriminate].
        apply find_some in Hpred as [Hin Hmatch].
        repeat split; auto.
        -- intros a t [].
        -- unfold aliasMatches. rewrite Hp, Hmatch. apply orb_true_r.
      * assert (Hnone : forall t, In t tools -> aliasMatches alias t = false)
          by (apply alias_no_match; assumption).
        destruct (resolveListToolConfig tools rest) as [config|].
        -- destruct IH as (earlier & a & later & tool & -> & He & Hin & Hma & Hn & Hk).
           exists (alias :: earlier), a, later, tool. repeat split; auto.
           intros a' t [<-|Ha'] Ht; auto.
        -- intros a t [<-|Ha] Ht; auto.
Qed.

Lemma resolveListToolConfig_some (tools : list Tool)
  (aliases : list TodoistListToolAlias) (config : TodoistListToolConfig) :
  resolveListToolConfig tools aliases = Some config ->
  exists alias tool,
    In alias aliases /\ In tool tools /\ aliasMatches alias tool = true
    /\ config_name config = tool_name tool
    /\ config_resultKeys config = alias_resultKeys alias
    /\ config_args config
       = match alias_buildArgs alias with
         | Some build => build (tool_name tool) tool
         | None => None
         end.
Proof.
  induction aliases as [|alias rest IH]; cbn [resolveListToolConfig];
    [discriminate|].
  cbv zeta.
  destruct (match alias_names alias with
            | Some ((_ :: _) as names) =>
                find (fun tool => existsb (eqb (tool_name tool)) names) tools
            | _ => None
            end) as [tool|] eqn:Hname.
  - intros [= <-]. exists alias, tool. cbn.
    destruct (alias_names alias) as [[|n ns]|] eqn:Hn; try discriminate.
    apply find_some in Hname as [Hin Hmatch].
    repeat split; auto. unfold aliasMatches. now rewrite Hn, Hmatch.
  - destruct (match alias_match alias with
              | Some pred => find pred tools
              | None => None
              end) as [tool|] eqn:Hpred.
    + intros [= <-]. exists alias, tool. cbn.
      destruct (alias_match alias) as [pred|] eqn:Hp; [|discriminate].
      apply find_some in Hpred as [Hin Hmatch].
      repeat split; auto. unfold aliasMatches. rewrite Hp, Hmatch.
      apply orb_true_r.
    + intros H. destruct (IH H) as (a & tool & Ha & Hrest).
      exists a, tool. split; [now right|exact Hrest].
Qed.

Lemma matchesListTool_reads_only (toLowerCase : JSString -> JSString)
  (tool : Tool) (keywords : list JSString) :
  matchesListTool toLowerCase tool keywords = true ->
  (exists k, In k keywords /\ contains (buildToolText toLowerCase tool) k)
  /\ (exists v, In v LIST_VERB_KEYWORDS
                /\ contains (buildToolText toLowerCase tool) v)
  /\ forall m, In m MUTATING_KEYWORDS ->
               ~ contains (buildToolText toLowerCase tool) m.
Proof.
  unfold matchesListTool. cbv zeta.
  destruct (existsb _ keywords) eqn:Hk; cbn [negb]; [|discriminate].
  destruct (existsb _ LIST_VERB_KEYWORDS) eqn:Hv; cbn [negb]; [|discriminate].
  destruct (existsb _ MUTATING_KEYWORDS) eqn:Hm; [discriminate|].
  intros _. repeat split.
  - apply existsb_exists in Hk as (k & Hin & Hinc).
    exists k. split; [assumption|now apply includes_contains].
  - apply existsb_exists in Hv as (v & Hin & Hinc).
    exists v. split; [assumption|now apply includes_contains].
  - intros m Hin Hc. apply includes_contains in Hc.
    assert (He : existsb (includes (buildToolText toLowerCase tool))
                   MUTATING_KEYWORDS = true)
      by (apply existsb_exists; eauto).
    congruence.
Qed.

(** X10: discovery never settles on a tool that looks like a mutating one: the
    tool resolved for the projects or for the labels either bears one of
    the names the alias tables list, or its name and description mention a
    listing verb and none of the mutating verbs. *)
Theorem discovery_avoids_mutating_tools (toLowerCase : JSString -> JSString)
  (tools : list Tool) (config : TodoistListToolConfig) :
  resolveListToolConfig tools (PROJECT_TOOL_ALIASES toLowerCase) = Some config
  \/ resolveListToolConfig tools (LABEL_TOOL_ALIASES toLowerCase) = Some config ->
  In (config_name config) knownListToolNames
  \/ exists tool,
       In tool tools /\ tool_name tool = config_name config
       /\ (exists v, In v LIST_VERB_KEYWORDS
                     /\ contains (buildToolText toLowerCase tool) v)
       /\ forall m, In m MUTATING_KEYWORDS ->
                    ~ contains (buildToolText toLowerCase tool) m.
Proof.
  assert (Hname : forall (tool : Tool) (names : list JSString),
            existsb (eqb (tool_name tool)) names = true ->
            incl names knownListToolNames ->
            In (tool_name tool) knownListToolNames).
  { intros tool names H Hincl. apply existsb_exists in H as (n & Hn & He).
    apply eqb_eq in He. rewrite He. now apply Hincl. }
  assert (Hpred : forall (tool : Tool) (name : JSString),
            eqb (tool_name tool) name = true -> In name knownListToolNames ->
            In (tool_name tool) knownListToolNames).
  { intros tool name He Hin. apply eqb_eq in He. now rewrite He. }
  intros [H|H]; apply resolveListToolConfig_some in H
    as (alias & tool & Halias & Htool & Hmatch & Hn & _); rewrite Hn;
    unfold aliasMatches in Hmatch;
    destruct Halias as [<-|[<-|[<-|[<-|[]]]]];
    cbn [alias_names alias_match orb] in Hmatch;
    rewrite ?orb_false_r in Hmatch.
  1, 2, 5, 6: left; apply (Hname _ _ Hmatch); intros x Hx; cbn in Hx |- *; tauto.
  1, 3: left; apply (Hpred _ _ Hmatch); cbn; tauto.
  all: right; exists tool; split; [assumption|]; split; [reflexivity|];
    apply matchesListTool_reads_only in Hmatch as (_ & Hv & Hm); auto.
Qed.

(** X11: an exact alias name wins over everything else in the catalog: if the
    catalog offers [todoist_projects], that tool is resolved for the
    projects, with the arguments and the result keys of its rule, whatever
    other tools the catalog contains. *)
Theorem resolveListToolConfig_exact_name (toLowerCase : JSString -> JSString)
  (tools : list Tool)
  (Hoffered : In (js "todoist_projects") (map tool_name tools)) :
  resolveListToolConfig tools (PROJECT_TOOL_ALIASES toLowerCase)
  = Some {| config_name := js "todoist_projects";
            config_args :=
              Some (JObj [(js "action", JStr (js "list"));
                          (js "include_archived", JBool false)]);
            config_resultKeys := Some [js "data"; js "projects"] |}.
Proof.
  unfold PROJECT_TOOL_ALIASES. cbn [resolveListToolConfig alias_names].
  cbv zeta.
  destruct (find (fun tool => existsb (eqb (tool_name tool)) [js "todoist_projects"])
              tools) as [tool|] eqn:Hfind.
  - apply find_some in Hfind as [_ Hname]. cbn [existsb] in Hname.
    rewrite orb_false_r in Hname. apply eqb_eq in Hname.
    cbn. now rewrite Hname.
  - exfalso. apply in_map_iff in Hoffered as (t & Ht & Hin).
    pose proof (find_none _ _ Hfind t Hin) as Hno. cbn [existsb] in Hno.
    rewrite Ht, eqb_refl in Hno. discriminate.
Qed.

Lemma resolveListToolConfig_exact_name_witness :
  option_map config_name
    (resolveListToolConfig
       [ {| tool_name := js "get-projects";
            tool_description := Some (js "List all projects") |};
         {| tool_name := js "todoist_projects"; tool_description := None |} ]
       (PROJECT_TOOL_ALIASES asciiLower))
  = Some (js "todoist_projects").
Proof.
  rewrite (resolveListToolConfig_exact_name asciiLower
             [ {| tool_name := js "get-projects";
                  tool_description := Some (js "List all projects") |};
               {| tool_name := js "todoist_projects"; tool_description := None |} ]).
  - reflexivity.
  - cbn. right. left. reflexivity.
Defined.

Lemma discovery_avoids_mutating_tools_witness :
  let tools := [ {| tool_name := js "get-projects";
                    tool_description := Some (js "List all projects") |} ] in
  let config := {| config_name := js "get-projects"; config_args := None;
                   config_resultKeys := None |} in
  resolveListToolConfig tools (PROJECT_TOOL_ALIASES asciiLower) = Some config
  /\ (In (config_name config) knownListToolNames
      \/ exists tool,
           In tool tools /\ tool_name tool = config_name config
           /\ (exists v, In v LIST_VERB_KEYWORDS
                         /\ contains (buildToolText asciiLower tool) v)
           /\ forall m, In m MUTATING_KEYWORDS ->
                        ~ contains (buildToolText asciiLower tool) m).
Proof.
  cbv zeta. split; [reflexivity|].
  apply (discovery_avoids_mutating_tools asciiLower).
  left. reflexivity.
Defined.

(** ** Intent classification *)

(** X12: whatever the intent model answers, the decision the handler works with
    satisfies the decision schema: its days, when set, lie between 1 and 7
    and it has at most ten keywords, none empty; an answer that is thrown
    or does not validate is replaced by the general-plan fallback. *)
Theorem classifyIntent_always_valid (w : World) :
  intentDecisionSchema_parse (classifyIntent w) = Returned (classifyIntent w)
  /\ (forall d, days (classifyIntent w) = Some d -> 1 <= d <= 7)
  /\ (forall ks, keywords (classifyIntent w) = Some ks ->
        (List.length ks <= 10)%nat /\ Forall (fun k => k <> []) ks)
  /\ (forall raw, intentResponse w = Returned raw ->
        intentDecisionSchema_parse raw = Returned raw ->
        classifyIntent w = raw)
  /\ ((forall raw, intentResponse w = Returned raw ->
         intentDecisionSchema_parse raw <> Returned raw) ->
      classifyIntent w = fallbackDecision).
Proof.
  assert (Hvalid : forall raw d, intentDecisionSchema_parse raw = Returned d ->
            d = raw
            /\ (forall x, days raw = Some x -> 1 <= x <= 7)
            /\ (forall ks, keywords raw = Some ks ->
                  (List.length ks <= 10)%nat /\ Forall (fun k => k <> []) ks)).
  { intros raw d. unfold intentDecisionSchema_parse.
    destruct (optAll _ (days raw) && optAll _ (keywords raw)) eqn:H; [|discriminate].
    intros [= <-]. apply andb_prop in H as [Hd Hk]. repeat split.
    - destruct (days raw) as [y|]; [|discriminate]. injection H as ->.
      cbn in Hd. lia.
    - destruct (days raw) as [y|]; [|discriminate]. injection H as ->.
      cbn in Hd. lia.
    - destruct (keywords raw) as [l|]; [|discriminate]. injection H as ->.
      cbn in Hk. unfold validLabels in Hk. apply andb_prop in Hk as [Hk _].
      now apply Nat.leb_le in Hk.
    - destruct (keywords raw) as [l|]; [|discriminate]. injection H as ->.
      cbn in Hk. unfold validLabels in Hk. apply andb_prop in Hk as [_ Hk].
      rewrite forallb_forall in Hk. apply Forall_forall. intros k Hin ->.
      specialize (Hk [] Hin). discriminate. }
  unfold classifyIntent.
  destruct (intentResponse w) as [raw|e]; cbn [bindO].
  - destruct (intentDecisionSchema_parse raw) as [d|e] eqn:Hparse.
    + destruct (Hvalid raw d Hparse) as (-> & Hd & Hk).
      repeat split; try (apply Hd || apply Hk); auto.
      * intros raw' [= <-] _. reflexivity.
      * intros H. now destruct (H raw eq_refl).
    + repeat split; try discriminate; try reflexivity.
      * intros raw' [= <-] H. congruence.
  - repeat split; try discriminate; reflexivity.
Qed.

(** ** Plan generation, continued *)

(** X13: the tasks of a generated plan are the normalised forms of the first
    tasks of the model's answer, in the answer's order, cut at the
    scenario's bound; every task of the answer passed the schema. *)
Theorem generatePlan_prefix
  (toLowerCase : JSString -> JSString) (isIsoDatetime : JSString -> bool)
  (w : World) (input : PlanRequestBody) (decision : IntentDecision)
  (context : TodoistMetadata) (priorityHint : option Z)
  (inferredProject : option TodoistProjectSummary)
  (inferredLabels : option (list JSString)) (plan : GeneratedPlan)
  (Hplan : generatePlan toLowerCase isIsoDatetime w input
             (determineScenario decision input) context priorityHint
             inferredProject inferredLabels = Returned plan) :
  exists raw,
    planResponse w = Returned raw
    /\ summary plan = plan_summary raw
    /\ tasks plan
       = map (fun task => normalizeTask toLowerCase task input context
                            priorityHint inferredProject inferredLabels)
           (firstn (Z.to_nat (maxTasks (determineScenario decision input)))
              (plan_tasks raw))
    /\ Forall (fun task => validTask isIsoDatetime task = true) (plan_tasks raw).
Proof.
  unfold generatePlan in Hplan.
  destruct (planResponse w) as [raw|e]; cbn [bindO] in Hplan; [|discriminate].
  exists raw. split; [reflexivity|].
  unfold aiPlanSchema_parse in Hplan.
  destruct (forallb _ _ && _) eqn:Hok; cbn [bindO] in Hplan; [|discriminate].
  apply andb_prop in Hok as [Hall _].
  pose proof (determineScenario_range decision input) as Hrange.
  unfold sliceTo in Hplan.
  destruct (Z.ltb_spec (maxTasks (determineScenario decision input)) 0); [lia|].
  destruct (map _ (firstn _ (plan_tasks raw))) as [|t ts] eqn:Hmap; [discriminate|].
  injection Hplan as <-. cbn [summary tasks]. repeat split.
  apply Forall_forall. rewrite forallb_forall in Hall. exact Hall.
Qed.

Lemma generatePlan_prefix_witness :
  exists plan raw,
    generatePlan asciiLower sampleDatetime sampleWorld sampleRequest
      (determineScenario sampleDecision sampleRequest) noMetadata None None None
    = Returned plan
    /\ planResponse sampleWorld = Returned raw
    /\ List.length (tasks plan) = 3%nat.
Proof.
  eexists.
  destruct (generatePlan_prefix asciiLower sampleDatetime sampleWorld sampleRequest
              sampleDecision noMetadata None None None _ eq_refl)
    as (raw & Hraw & _ & Htasks & _).
  exists raw. split; [reflexivity|]. split; [exact Hraw|reflexivity].
Defined.

(** ** Creation-tool resolution, its failures *)

(** X14: resolution fails in three ways.  Without a token it throws before
    anything else, catalog or not; when it has to list the tools itself a
    failure of the listing is passed on; and when the catalog offers no
    creation tool the error names the tools that are available, or "none"
    when their joined names are empty, and the endpoint. *)
Theorem resolveToolName_failures (listed : Outcome (option (list Tool)))
  (url : JSString) (token : option JSString)
  (availableTools : option (list Tool)) :
  (truthyOpt token = false ->
   resolveToolName listed url token availableTools
   = Threw (js "TODOIST_TOKEN is required to contact the MCP server"))
  /\ (truthyOpt token = true ->
      forall e, listed = Threw e ->
                resolveToolName listed url token None = Threw e)
  /\ (truthyOpt token = true ->
      forall tools,
        (forall m, In m preferredCreateTools -> ~ In m (map tool_name tools)) ->
        resolveToolName listed url token (Some tools)
        = Threw (js "No Todoist create task tool found. Available tools: "
                 ++ (match join (js ", ") (map tool_name tools) with
                     | [] => js "none"
                     | names => names
                     end)
                 ++ js " @ " ++ url)).
Proof.
  unfold resolveToolName. repeat split.
  - intros ->. reflexivity.
  - intros -> e ->. reflexivity.
  - intros -> tools Hnone. cbn [negb bindO].
    destruct (find _ preferredCreateTools) as [c|] eqn:Hfind.
    + apply find_some in Hfind as [Hin Hoff]. apply offers_name in Hoff.
      destruct (Hnone c Hin Hoff).
    + destruct (join (js ", ") (map tool_name tools)); reflexivity.
Qed.

(** ** Array payloads, continued *)

Lemma pluckArray_settles (keys : list JSString) (value : JSON) :
  forall arr, pluckArray value keys = Some arr <-> settles keys value arr.
Proof.
  intro arr. split.
  - revert arr.
    induction value as [| | | | |items|fields IH] using JSON_induction;
      intros arr H; try discriminate H.
    + injection H as <-. constructor.
    + rewrite pluckArray_obj in H.
      apply firstSome_some in H as (earlier & key & later & Hkeys & Hkey & Hnone).
      apply settles_under with (earlier := earlier) (key := key) (later := later).
      * exact Hkeys.
      * intros k Hk. apply pluckArray_barren. now apply Hnone.
      * destruct (getProp_cases fields key) as [Hu|[k Hin]].
        -- rewrite Hu in Hkey. discriminate.
        -- rewrite Forall_forall in IH. exact (IH _ Hin arr Hkey).
  - induction 1 as [items|fields earlier key later arr Hkeys Hearlier _ IH].
    + reflexivity.
    + rewrite pluckArray_obj. apply firstSome_some.
      exists earlier, key, later. repeat split; [exact Hkeys|exact IH|].
      intros k Hk. apply pluckArray_barren. now apply Hearlier.
Qed.

(** X15: with the default keys in force, extraction returns the array the
    search settles on in the decoded payload, which is the structured
    content when the response has one: the payload itself when it is an
    array, and otherwise what is found under the first of the six keys, in
    their order, from which an array can be reached at any depth, whatever
    other fields the objects have; so an array directly under a key is
    returned when no earlier key leads to an array, and so is an array one
    object deeper.  The empty array is returned exactly when no array can
    be reached. *)
Theorem extractArrayPayload_default_envelopes
  (JSON_parse : JSString -> option JSON) (response payload : JSON)
  (Hdecoded : parseToolJson JSON_parse response = Returned payload) :
  (isUndefined (extractStructuredContent response) = false ->
   payload = extractStructuredContent response)
  /\ (forall arr,
        settles DEFAULT_COLLECTION_KEYS payload arr ->
        extractArrayPayload JSON_parse response None = Returned arr)
  /\ (barren DEFAULT_COLLECTION_KEYS payload ->
      extractArrayPayload JSON_parse response None = Returned [])
  /\ ((exists arr, settles DEFAULT_COLLECTION_KEYS payload arr)
      \/ barren DEFAULT_COLLECTION_KEYS payload)
  /\ (forall fields earlier key later arr,
        payload = JObj fields ->
        DEFAULT_COLLECTION_KEYS = earlier ++ key :: later ->
        (forall k, In k earlier ->
                   barren DEFAULT_COLLECTION_KEYS (getProp payload k)) ->
        (getProp payload key = JArr arr ->
         extractArrayPayload JSON_parse response None = Returned arr)
        /\ (forall inner earlier' key' later',
              getProp payload key = JObj inner ->
              DEFAULT_COLLECTION_KEYS = earlier' ++ key' :: later' ->
              (forall k, In k earlier' ->
                         barren DEFAULT_COLLECTION_KEYS (getProp (JObj inner) k)) ->
              getProp (JObj inner) key' = JArr arr ->
              extractArrayPayload JSON_parse response None = Returned arr)).
Proof.
  assert (Hsettled : forall arr,
            settles DEFAULT_COLLECTION_KEYS payload arr ->
            extractArrayPayload JSON_parse response None = Returned arr).
  { intros arr Harr. apply pluckArray_settles in Harr.
    unfold extractArrayPayload. rewrite Hdecoded. cbn [bindO]. now rewrite Harr. }
  split; [|split; [exact Hsettled|split; [|split]]].
  - intro Hsc. rewrite (parseToolJson_structured _ _ Hsc) in Hdecoded.
    now injection Hdecoded as <-.
  - intro Hbarren. apply pluckArray_barren in Hbarren.
    unfold extractArrayPayload. rewrite Hdecoded. cbn [bindO]. now rewrite Hbarren.
  - destruct (pluckArray payload DEFAULT_COLLECTION_KEYS) as [arr|] eqn:Hfound.
    + left. exists arr. now apply pluckArray_settles.
    + right. now apply pluckArray_barren.
  - intros fields earlier key later arr -> Hkeys Hearlier. split.
    + intro Hkey. apply Hsettled.
      apply (settles_under _ fields earlier key later arr Hkeys Hearlier).
      rewrite Hkey. constructor.
    + intros inner earlier' key' later' Hkey Hkeys' Hearlier' Hkey'.
      apply Hsettled.
      apply (settles_under _ fields earlier key later arr Hkeys Hearlier).
      rewrite Hkey.
      apply (settles_under _ inner earlier' key' later' arr Hkeys' Hearlier').
      rewrite Hkey'. constructor.
Qed.

Lemma extractArrayPayload_default_envelopes_witness :
  parseToolJson sampleParse nestedReply
  = Returned (extractStructuredContent nestedReply)
  /\ getProp (extractStructuredContent nestedReply) (js "labels") = JArr [JNum 2]
  /\ extractArrayPayload sampleParse nestedReply None = Returned [JNum 1].
Proof.
  split; [reflexivity|]. split; [reflexivity|].
  apply (proj1 (proj2 (extractArrayPayload_default_envelopes sampleParse
                         nestedReply _ eq_refl))).
  cbn.
  apply (settles_under _ _ [] (js "projects")
           [js "labels"; js "data"; js "items"; js "results";
            js "structuredContent"]); [reflexivity|intros k []|].
  cbn.
  apply (settles_under _ _ [js "projects"; js "labels"] (js "data")
           [js "items"; js "results"; js "structuredContent"]);
    [reflexivity| |].
  { intros k [<-|[<-|[]]]; apply barren_undefined. }
  cbn.
  apply (settles_under _ _ [js "projects"; js "labels"; js "data"] (js "items")
           [js "results"; js "structuredContent"]);
    [reflexivity| |].
  { intros k [<-|[<-|[<-|[]]]]; apply barren_undefined. }
  cbn. constructor.
Defined.

Lemma findItem_well_formed (pred : JSON -> bool) (items : list JSON) :
  forallb wellFormedBlock items = true ->
  exists found,
    findItem pred items = Returned found
    /\ (found = JUndefined \/ wellFormedBlock found = true).
Proof.
  induction items as [|item rest IH]; cbn [findItem forallb].
  - intros _. exists JUndefined. auto.
  - intros H. apply andb_prop in H as [Hitem Hrest].
    pose proof Hitem as Hwf. unfold wellFormedBlock in Hitem.
    apply andb_prop in Hitem as [Hnn _].
    destruct (isNullish item); [discriminate|].
    destruct (pred item); [exists item; auto|apply IH, Hrest].
Qed.

Lemma filterItems_well_formed (pred : JSON -> bool) (items : list JSON) :
  forallb wellFormedBlock items = true ->
  exists kept,
    filterItems pred items = Returned kept
    /\ forallb wellFormedBlock kept = true.
Proof.
  induction items as [|item rest IH]; cbn [filterItems forallb].
  - intros _. exists []. auto.
  - intros H. apply andb_prop in H as [Hitem Hrest].
    pose proof Hitem as Hwf. unfold wellFormedBlock in Hitem.
    apply andb_prop in Hitem as [Hnn _].
    destruct (isNullish item); [discriminate|].
    destruct (IH Hrest) as (kept & -> & Hkept). cbn [bindO].
    destruct (pred item); eexists; split; try reflexivity; auto.
    cbn [forallb]. now rewrite Hwf, Hkept.
Qed.

Lemma extractToolText_well_formed (response : JSON) :
  wellFormedResult response = true ->
  exists text, extractToolText response = Returned text.
Proof.
  unfold wellFormedResult, extractToolText, contentOf, getMember.
  destruct response as [| | | | | |fields]; try discriminate.
  cbn [isNullish bindO].
  destruct (getProp (JObj fields) (js "content")) as [| | | | |items|];
    try discriminate; intros Hwf; cbn [bindO]; try (eexists; reflexivity).
  destruct (filterItems_well_formed
              (fun item => isStr (js "text") (getProp item (js "type"))) items Hwf)
    as (kept & -> & Hkept).
  cbn [bindO]. destruct kept as [|b bs]; [eexists; reflexivity|].
  set (blocks := b :: bs) in *.
  match goal with
  | |- context [match ?t with Some _ => _ | None => Returned None end] =>
      destruct t as [block|] eqn:Htarget
  end; [|eexists; reflexivity].
  assert (Hblock : wellFormedBlock block = true).
  { rewrite forallb_forall in Hkept. apply Hkept.
    destruct (find _ blocks) as [b'|] eqn:Hplain.
    - injection Htarget as <-. now apply find_some in Hplain.
    - now apply find_some in Htarget. }
  unfold wellFormedBlock in Hblock. apply andb_prop in Hblock as [_ Htext].
  destruct (getProp block (js "text")) as [| |x|n|s| |];
    cbn in Htext |- *; try (eexists; reflexivity);
    try (apply negb_true_iff in Htext; rewrite ?Htext; eexists; reflexivity);
    try discriminate.
  destruct (truthy s); eexists; reflexivity.
Qed.

Lemma extractToolJsonBlock_well_formed (response : JSON) :
  wellFormedResult response = true ->
  exists block, extractToolJsonBlock response = Returned block.
Proof.
  unfold wellFormedResult, extractToolJsonBlock, contentOf, getMember.
  destruct response as [| | | | | |fields]; try discriminate.
  cbn [isNullish bindO].
  destruct (getProp (JObj fields) (js "content")) as [| | | | |items|];
    try discriminate; intros Hwf; cbn [bindO]; try (eexists; reflexivity).
  destruct (findItem_well_formed
              (fun item => isStr (js "json") (getProp item (js "type"))) items Hwf)
    as (found & -> & _).
  cbn [bindO].
  destruct (negb (isUndefined (getProp found (js "json")))); [eexists; reflexivity|].
  destruct (findItem_well_formed
              (fun item => isStr (js "application/json")
                             (getProp item (js "mimeType"))) items Hwf)
    as (found' & -> & _).
  cbn [bindO]. eexists; reflexivity.
Qed.

(** X16: on a tool result of the shape the SDK hands over, extraction never
    throws, whichever keys are in force and whatever [JSON.parse] makes of
    the text: it answers with an array. *)
Theorem extractArrayPayload_total (JSON_parse : JSString -> option JSON)
  (response : JSON) (preferredKeys : option (list JSString))
  (Hshape : wellFormedResult response = true) :
  exists arr, extractArrayPayload JSON_parse response preferredKeys = Returned arr.
Proof.
  assert (Hparse : exists payload, parseToolJson JSON_parse response = Returned payload).
  { unfold parseToolJson. cbv zeta.
    destruct (negb (isUndefined (extractStructuredContent response)));
      [eexists; reflexivity|].
    destruct (extractToolJsonBlock_well_formed response Hshape) as (block & ->).
    cbn [bindO].
    destruct (negb (isUndefined block)).
    - destruct block; try (eexists; reflexivity).
      destruct (JSON_parse s); eexists; reflexivity.
    - destruct (extractToolText_well_formed response Hshape) as (text & ->).
      cbn [bindO]. destruct text as [[|c t]|]; try (eexists; reflexivity).
      destruct (JSON_parse (c :: t)); eexists; reflexivity. }
  destruct Hparse as (payload & Hpayload).
  unfold extractArrayPayload. rewrite Hpayload. cbn [bindO].
  destruct (pluckArray payload _); eexists; reflexivity.
Qed.

Lemma extractArrayPayload_total_witness :
  wellFormedResult
    (JObj [(js "content",
            JArr [JObj [(js "type", JStr (js "text"));
                        (js "text", JStr (js "not json"))]])]) = true
  /\ exists arr,
       extractArrayPayload sampleParse
         (JObj [(js "content",
                 JArr [JObj [(js "type", JStr (js "text"));
                             (js "text", JStr (js "not json"))]])])
         None = Returned arr.
Proof.
  split; [reflexivity|].
  apply (extractArrayPayload_total sampleParse). reflexivity.
Defined.

(** ** Fenced answers *)

Lemma trimStart_blank (pad s : JSString) :
  blank pad -> trimStart (pad ++ s) = trimStart s.
Proof.
  induction 1 as [|c pad Hc Hpad IH]; [reflexivity|].
  cbn. now rewrite Hc.
Qed.

Lemma trimEnd_blank (s pad : JSString) :
  blank pad -> trimEnd (s ++ pad) = trimEnd s.
Proof.
  intro H. unfold trimEnd. rewrite rev_app_distr, trimStart_blank; [reflexivity|].
  unfold blank in *. apply Forall_forall. intros x Hx.
  rewrite Forall_forall in H. apply H. now apply in_rev.
Qed.

Lemma trimEnd_snoc (s : JSString) (c : N) :
  isWhiteSpace c = false -> trimEnd (s ++ [c]) = s ++ [c].
Proof.
  intro Hc. unfold trimEnd. rewrite rev_app_distr. cbn [rev app].
  rewrite (trimStart_fixed _ _ Hc). cbn [rev]. now rewrite rev_involutive.
Qed.

Lemma trimStart_incl (s : JSString) (x : N) : In x (trimStart s) -> In x s.
Proof.
  induction s as [|c s IH]; cbn; [tauto|].
  destruct (isWhiteSpace c); [intro H; right; auto|tauto].
Qed.

Lemma trim_incl (s : JSString) (x : N) : In x (trim s) -> In x s.
Proof.
  unfold trim, trimEnd. intro H. apply in_rev in H.
  apply trimStart_incl in H. apply in_rev in H. now apply trimStart_incl.
Qed.

Lemma indexOfUnit_absent (c : N) (s : JSString) :
  ~ In c s -> indexOfUnit c s = None.
Proof.
  induction s as [|x s IH]; cbn; [reflexivity|].
  intros H. destruct (N.eqb_spec x c) as [->|Hne]; [destruct H; now left|].
  rewrite IH; [reflexivity|]. intro Hin. apply H. now right.
Qed.

Lemma indexOfUnit_first (c : N) (before after : JSString) :
  ~ In c before -> indexOfUnit c (before ++ c :: after) = Some (List.length before).
Proof.
  induction before as [|x before IH]; cbn; intro H.
  - now rewrite N.eqb_refl.
  - destruct (N.eqb_spec x c) as [->|Hne]; [destruct H; now left|].
    rewrite IH; [reflexivity|]. intro Hin. apply H. now right.
Qed.

Lemma stripPrefix_short (needle s : JSString) :
  (List.length s < List.length needle)%nat -> stripPrefix needle s = None.
Proof.
  revert s. induction needle as [|x needle IH]; intros [|y s]; cbn; try lia;
    intro H; [reflexivity|].
  destruct (N.eqb x y); [apply IH; lia|reflexivity].
Qed.

Lemma lastIndexOf_short (needle s : JSString) :
  (List.length s < List.length needle)%nat -> lastIndexOf needle s = None.
Proof.
  induction s as [|y s IH]; cbn; intro H.
  - destruct needle; [cbn in H; lia|reflexivity].
  - rewrite IH by lia. rewrite stripPrefix_short by (cbn; lia). reflexivity.
Qed.

Lemma lastIndexOf_suffix (needle before : JSString) :
  needle <> [] ->
  lastIndexOf needle (before ++ needle) = Some (List.length before).
Proof.
  intro Hne. induction before as [|x before IH]; cbn [app List.length].
  - destruct needle as [|c needle]; [now destruct Hne|].
    cbn [lastIndexOf]. rewrite lastIndexOf_short by (cbn; lia).
    assert (H : stripPrefix (c :: needle) (c :: needle) = Some [])
      by (apply stripPrefix_spec; now rewrite app_nil_r).
    now rewrite H.
  - cbn [lastIndexOf]. now rewrite IH.
Qed.

Lemma slice_middle (a b c : JSString) :
  slice (List.length a) (List.length (a ++ b)) (a ++ b ++ c) = b.
Proof.
  unfold slice. induction a as [|x a IH]; cbn [List.length app skipn].
  - rewrite Nat.sub_0_r, firstn_app, Nat.sub_diag, firstn_all. cbn.
    now rewrite app_nil_r.
  - exact IH.
Qed.

Ltac same_text :=
  unfold fence; cbn;
  repeat (rewrite <- app_assoc || rewrite <- app_comm_cons);
  cbn; reflexivity.

(** X17: a fenced block is unwrapped to its body: the text between the first
    line break and the last fence, trimmed, whatever follows the opening
    fence on its line and whatever white space surrounds the block.
    Without any line break nothing is unwrapped: the text is only
    trimmed. *)
Theorem stripJsonFence_unwraps (lang body pad1 pad2 : JSString)
  (Hpad1 : blank pad1) (Hpad2 : blank pad2) (Hlang : ~ In 10%N lang) :
  stripJsonFence (pad1 ++ fence ++ lang ++ [10%N] ++ body ++ fence ++ pad2)
  = trim body
  /\ forall text, ~ In 10%N text -> stripJsonFence text = trim text.
Proof.
  split.
  - set (core := fence ++ lang ++ [10%N] ++ body ++ fence).
    assert (Htrim : trim (pad1 ++ fence ++ lang ++ [10%N] ++ body ++ fence ++ pad2)
                    = core).
    { unfold trim. rewrite trimStart_blank by assumption.
      change (fence ++ lang ++ [10%N] ++ body ++ fence ++ pad2)
        with (96%N :: (96%N :: 96%N :: lang ++ [10%N] ++ body ++ fence ++ pad2)).
      rewrite trimStart_fixed by reflexivity.
      replace (96%N :: 96%N :: 96%N :: lang ++ [10%N] ++ body ++ fence ++ pad2)
        with (core ++ pad2)
        by (unfold core; same_text).
      rewrite trimEnd_blank by assumption.
      replace core with ((fence ++ lang ++ [10%N] ++ body ++ js "``") ++ [96%N])
        by (unfold core; same_text).
      now apply trimEnd_snoc. }
    unfold stripJsonFence. rewrite Htrim.
    assert (Hprefix : stripPrefix fence core
                      = Some (lang ++ [10%N] ++ body ++ fence))
      by now apply stripPrefix_spec.
    rewrite Hprefix.
    assert (Hlast : lastIndexOf fence core
                    = Some (List.length (fence ++ lang ++ [10%N] ++ body))).
    { replace core with ((fence ++ lang ++ [10%N] ++ body) ++ fence)
        by (unfold core; same_text).
      apply lastIndexOf_suffix. discriminate. }
    rewrite Hlast.
    assert (Hbreak : indexOfUnit 10%N core = Some (List.length (fence ++ lang))).
    { replace core with ((fence ++ lang) ++ 10%N :: body ++ fence)
        by (unfold core; same_text).
      apply indexOfUnit_first. intro Hin. apply in_app_or in Hin as [Hin|Hin];
        [|contradiction].
      cbn in Hin. intuition discriminate. }
    rewrite Hbreak. f_equal.
    replace (S (List.length (fence ++ lang)))
      with (List.length (fence ++ lang ++ [10%N]))
      by (rewrite !length_app; cbn; lia).
    replace (fence ++ lang ++ [10%N] ++ body)
      with ((fence ++ lang ++ [10%N]) ++ body) by same_text.
    replace core with ((fence ++ lang ++ [10%N]) ++ body ++ fence)
      by (unfold core; same_text).
    apply slice_middle.
  - intros text Htext. unfold stripJsonFence.
    rewrite (indexOfUnit_absent 10%N (trim text))
      by (intro H; apply Htext; now apply trim_incl).
    destruct (stripPrefix fence (trim text)); [|reflexivity].
    destruct (lastIndexOf fence (trim text)); reflexivity.
Qed.

Lemma stripJsonFence_unwraps_witness :
  stripJsonFence (js " " ++ fence ++ js "json" ++ [10%N]
                  ++ (js "{}" ++ [10%N]) ++ fence ++ [10%N])
  = js "{}".
Proof.
  assert (H1 : blank (js " ")) by (repeat constructor).
  assert (H2 : blank [10%N]) by (repeat constructor).
  assert (H3 : ~ In 10%N (js "json")) by (cbn; intuition discriminate).
  exact (proj1 (stripJsonFence_unwraps (js "json") (js "{}" ++ [10%N])
                  (js " ") [10%N] H1 H2 H3)).
Defined.

(** ** The reports of a run *)

Lemma narrates_ret {A} (a : A) : narrates (ret a).
Proof. intro sent. exists []. cbn. rewrite app_nil_r. auto. Qed.

Lemma narrates_lift {A} (o : Outcome A) : narrates (lift o).
Proof. intro sent. exists []. cbn. rewrite app_nil_r. auto. Qed.

Lemma narrates_send (e : StreamEvent) : isProgress e = true -> narrates (send e).
Proof. intros He sent. exists [e]. cbn. auto. Qed.

Lemma narrates_bind {A B} (m : Pipe A) (k : A -> Pipe B) :
  narrates m -> (forall a, narrates (k a)) -> narrates (bind m k).
Proof.
  intros Hm Hk sent. unfold bind.
  destruct (Hm sent) as (added & Hsent & Hadded).
  destruct (m sent) as [sent' [a|e]]; cbn [fst] in Hsent; subst sent'.
  - destruct (Hk a (sent ++ added)) as (added' & Hsent' & Hadded').
    exists (added ++ added'). rewrite Hsent', app_assoc. split; [reflexivity|].
    apply Forall_app. auto.
  - exists added. auto.
Qed.

Lemma narrates_tryCatch {A} (body : Pipe A) (handler : JSString -> Pipe A) :
  narrates body -> (forall e, narrates (handler e)) ->
  narrates (tryCatch body handler).
Proof.
  intros Hm Hk sent. unfold tryCatch.
  destruct (Hm sent) as (added & Hsent & Hadded).
  destruct (body sent) as [sent' [a|e]]; cbn [fst] in Hsent; subst sent'.
  - exists added. auto.
  - destruct (Hk e (sent ++ added)) as (added' & Hsent' & Hadded').
    exists (added ++ added'). rewrite Hsent', app_assoc. split; [reflexivity|].
    apply Forall_app. auto.
Qed.

Ltac narrate_step :=
  first
    [ apply narrates_ret
    | apply narrates_lift
    | apply narrates_send; reflexivity
    | apply narrates_tryCatch; [|intro]
    | apply narrates_bind; [|intro] ].

Lemma followsPlan_progress (added : list StreamEvent) :
  Forall (fun e => isProgress e = true) added -> followsPlan added.
Proof.
  intro H. rewrite Forall_forall in H. split.
  - intros c f results Hin. specialize (H _ Hin). discriminate.
  - intros st task id err Hin. specialize (H _ Hin). discriminate.
Qed.

Lemma followsPlan_after_progress (before added : list StreamEvent) :
  Forall (fun e => isProgress e = true) before ->
  followsPlan added -> followsPlan (before ++ added).
Proof.
  intros Hb [Hfinal Htask]. rewrite Forall_forall in Hb. split.
  - intros c f results Hin. apply in_app_or in Hin as [Hin|Hin].
    + specialize (Hb _ Hin). discriminate.
    + destruct (Hfinal c f results Hin) as (H1 & H2 & H3 & H4 & s & i & H5).
      repeat split; auto. exists s, i. apply in_or_app. now right.
  - intros st task id err Hin. apply in_app_or in Hin as [Hin|Hin].
    + specialize (Hb _ Hin). discriminate.
    + destruct (Htask st task id err Hin) as (s & tasks & i & H1 & H2).
      exists s, tasks, i. split; [|assumption]. apply in_or_app. now right.
Qed.

Lemma reportsPlan_bind {A} (m : Pipe A) (k : A -> Pipe unit) :
  narrates m -> (forall a, reportsPlan (k a)) -> reportsPlan (bind m k).
Proof.
  intros Hm Hk sent. unfold bind.
  destruct (Hm sent) as (added & Hsent & Hadded).
  destruct (m sent) as [sent' [a|e]]; cbn [fst] in Hsent; subst sent'.
  - destruct (Hk a (sent ++ added)) as (added' & Hsent' & Hadded').
    exists (added ++ added'). rewrite Hsent', app_assoc. split; [reflexivity|].
    now apply followsPlan_after_progress.
  - exists added. split; [reflexivity|]. now apply followsPlan_progress.
Qed.

Lemma reportsPlan_bind_lift {A} (o : Outcome A) (k : A -> Pipe unit) :
  (forall a, o = Returned a -> reportsPlan (k a)) -> reportsPlan (bind (lift o) k).
Proof.
  intros Hk sent. unfold bind, lift. destruct o as [a|e].
  - apply (Hk a eq_refl).
  - exists []. cbn. rewrite app_nil_r. split; [reflexivity|].
    apply followsPlan_progress. constructor.
Qed.

Lemma status_counts (results : list TodoistTaskResult) :
  Forall wellReported results ->
  (List.length (filter (isStatus created) results)
   + List.length (filter (isStatus failed) results)
   = List.length results)%nat.
Proof.
  induction 1 as [|r rs Hr Hrs IH]; [reflexivity|].
  cbn [filter]. unfold wellReported in Hr.
  assert (Hc : isStatus created r
               = match status r with created => true | _ => false end)
    by (unfold isStatus; destruct (status r); reflexivity).
  assert (Hf : isStatus failed r
               = match status r with failed => true | _ => false end)
    by (unfold isStatus; destruct (status r); reflexivity).
  rewrite Hc, Hf.
  destruct (status r); [destruct Hr| |]; cbn [List.length]; lia.
Qed.

Section ReportFacts.
Variable JSON_parse : JSString -> option JSON.
Variable callTool : nat -> JSString -> JSON -> Outcome JSON.
Variable input : PlanRequestBody.
Variable toolName : JSString.

Lemma expectedResult_reported (task : NormalizedTask) (o : Outcome JSON) :
  wellReported (expectedResult task o) /\ planned (expectedResult task o) = task.
Proof.
  destruct o; cbn; split; auto. split; [reflexivity|eauto].
Qed.

Lemma mapFrom_expected (tasks : list NormalizedTask) :
  forall index,
    let results := mapFrom (fun i task =>
                      expectedResult task
                        (creationOutcome JSON_parse callTool input toolName i task))
                     index tasks in
    map planned results = tasks /\ Forall wellReported results.
Proof.
  induction tasks as [|task rest IH]; intro index; cbn [mapFrom map].
  - split; constructor.
  - destruct (IH (S index)) as [Hp Hw].
    destruct (expectedResult_reported task
                (creationOutcome JSON_parse callTool input toolName index task))
      as [Hr Hpl].
    cbv zeta. split; [now rewrite Hpl, Hp|now constructor].
Qed.

Lemma expectedEvents_tasks (tasks : list NormalizedTask) :
  forall index e,
    In e (List.concat (mapFrom (expectedEvents JSON_parse callTool input toolName)
                         index tasks)) ->
    exists st task id err,
      e = ev_todoist_task st task id err /\ In task tasks.
Proof.
  induction tasks as [|task rest IH]; intros index e Hin; cbn in Hin;
    [destruct Hin|].
  destruct Hin as [<-|[<-|Hin]].
  - do 4 eexists. split; [reflexivity|now left].
  - do 4 eexists. split; [reflexivity|now left].
  - destruct (IH _ _ Hin) as (st & t & id & err & -> & Ht).
    exists st, t, id, err. split; [reflexivity|now right].
Qed.

End ReportFacts.

Lemma reportsPlan_announce (s : option JSString) (tasks : list NormalizedTask)
  (i : IntentType) (run : Pipe (list TodoistTaskResult)) :
  tasks <> [] ->
  (forall sent, exists added,
     fst (run sent) = sent ++ added
     /\ (forall e, In e added ->
           exists st task id err,
             e = ev_todoist_task st task id err /\ In task tasks)
     /\ (forall results, snd (run sent) = Returned results ->
           map planned results = tasks /\ Forall wellReported results)) ->
  reportsPlan
    (bind (send (ev_ai_plan s tasks i))
       (fun _ =>
          bind run
            (fun results =>
               send (ev_final
                       (List.length (filter (isStatus created) results))
                       (List.length (filter (isStatus failed) results))
                       results)))).
Proof.
  intros Hne Hrun sent. unfold bind, send.
  destruct (Hrun (sent ++ [ev_ai_plan s tasks i])) as (added & Hsent & Hevents & Hres).
  destruct (run (sent ++ [ev_ai_plan s tasks i])) as [sent' [results|e]];
    cbn [fst snd] in *; subst sent'.
  - destruct (Hres results eq_refl) as [Hplanned Hwell].
    exists ([ev_ai_plan s tasks i] ++ added
            ++ [ev_final (List.length (filter (isStatus created) results))
                  (List.length (filter (isStatus failed) results)) results]).
    split; [now rewrite <- !app_assoc|]. split.
    + intros c f results' Hin. cbn [app] in Hin.
      destruct Hin as [Hin|Hin]; [discriminate|].
      apply in_app_or in Hin as [Hin|[Hin|[]]].
      * destruct (Hevents _ Hin) as (? & ? & ? & ? & He & _). discriminate.
      * injection Hin as <- <- <-. repeat split; auto.
        -- now apply status_counts.
        -- intros ->. cbn in Hplanned. now apply Hne.
        -- exists s, i. rewrite Hplanned. now left.
    + intros st task id err Hin. exists s, tasks, i. split; [now left|].
      cbn [app] in Hin. destruct Hin as [Hin|Hin]; [discriminate|].
      apply in_app_or in Hin as [Hin|[Hin|[]]]; [|discriminate].
      destruct (Hevents _ Hin) as (? & task' & ? & ? & [= _ <- _ _] & Ht).
      exact Ht.
  - exists ([ev_ai_plan s tasks i] ++ added). split; [now rewrite <- !app_assoc|].
    split.
    + intros c f results' Hin. cbn [app] in Hin.
      destruct Hin as [Hin|Hin]; [discriminate|].
      destruct (Hevents _ Hin) as (? & ? & ? & ? & He & _). discriminate.
    + intros st task id err Hin. exists s, tasks, i. split; [now left|].
      cbn [app] in Hin. destruct Hin as [Hin|Hin]; [discriminate|].
      destruct (Hevents _ Hin) as (? & task' & ? & ? & [= _ <- _ _] & Ht).
      exact Ht.
Qed.

Lemma generatePlan_nonempty
  (toLowerCase : JSString -> JSString) (isIsoDatetime : JSString -> bool)
  (w : World) (input : PlanRequestBody) (scenario : PlanScenario)
  (context : TodoistMetadata) (priorityHint : option Z)
  (inferredProject : option TodoistProjectSummary)
  (inferredLabels : option (list JSString)) (plan : GeneratedPlan) :
  generatePlan toLowerCase isIsoDatetime w input scenario context priorityHint
    inferredProject inferredLabels = Returned plan ->
  tasks plan <> [].
Proof.
  unfold generatePlan.
  destruct (planResponse w) as [raw|e]; cbn [bindO]; [|discriminate].
  destruct (aiPlanSchema_parse isIsoDatetime raw) as [p|e]; cbn [bindO];
    [|discriminate].
  destruct (map _ _) as [|t ts]; [discriminate|].
  intros [= <-]. discriminate.
Qed.

Lemma syncWithTodoist_reports (JSON_parse : JSString -> option JSON)
  (parseURL : JSString -> option JSString)
  (callTool : nat -> JSString -> JSON -> Outcome JSON)
  (listed : Outcome (option (list Tool))) (tasks : list NormalizedTask)
  (env : CloudflareEnv) (input : PlanRequestBody)
  (availableTools : option (list Tool)) (sent : list StreamEvent) :
  exists added,
    fst (syncWithTodoist JSON_parse parseURL callTool listed tasks env input
           availableTools sent) = sent ++ added
    /\ (forall e, In e added ->
          exists st task id err,
            e = ev_todoist_task st task id err /\ In task tasks)
    /\ (forall results,
          snd (syncWithTodoist JSON_parse parseURL callTool listed tasks env input
                 availableTools sent) = Returned results ->
          map planned results = tasks /\ Forall wellReported results).
Proof.
  unfold syncWithTodoist, bind, lift.
  destruct (ensureUrl parseURL _) as [url|e].
  - destruct (resolveToolName listed url _ availableTools) as [toolName|e].
    + rewrite syncLoop_spec. cbn [fst snd app].
      eexists. split; [reflexivity|]. split.
      * intros e He. eapply expectedEvents_tasks. exact He.
      * intros results [= <-]. apply mapFrom_expected.
    + exists []. cbn. rewrite app_nil_r. repeat split; try discriminate.
      intros ? [].
  - exists []. cbn. rewrite app_nil_r. repeat split; try discriminate.
    intros ? [].
Qed.

Lemma reportsPlan_planBody (toLowerCase : JSString -> JSString)
  (JSON_parse : JSString -> option JSON) (parseURL : JSString -> option JSString)
  (isIsoDatetime : JSString -> bool) (w : World) (data : PlanRequestBody) :
  reportsPlan (planBody toLowerCase JSON_parse parseURL isIsoDatetime w data).
Proof.
  unfold planBody.
  apply reportsPlan_bind; [apply narrates_lift|intros transport].
  apply reportsPlan_bind.
  { destruct transport; [|apply narrates_ret].
    apply narrates_bind; [apply narrates_lift|intro].
    apply narrates_tryCatch; [|intro; repeat narrate_step].
    apply narrates_bind; [apply narrates_lift|intros [tools|]]; repeat narrate_step. }
  intros availableTools.
  do 3 (apply reportsPlan_bind; [solve [repeat narrate_step]|intro]).
  apply reportsPlan_bind; [apply narrates_lift|intros todoistContext].
  apply reportsPlan_bind; [solve [repeat narrate_step]|intro].
  apply reportsPlan_bind_lift. intros plan Hplan.
  apply reportsPlan_bind; [solve [repeat narrate_step]|intro].
  apply reportsPlan_announce.
  - exact (generatePlan_nonempty _ _ _ _ _ _ _ _ _ _ Hplan).
  - intros sent. destruct transport.
    + apply syncWithTodoist_reports.
    + exists []. unfold ret. cbn [fst snd]. rewrite app_nil_r.
      split; [reflexivity|]. split; [intros ? []|].
      intros results [= <-]. split.
      * rewrite map_map. cbn [planned]. apply map_id.
      * apply Forall_forall. intros r Hr. apply in_map_iff in Hr as (t & <- & _).
        cbn. split; [reflexivity|eauto].
Qed.

(** X18: whatever the collaborators answer, what the stream reports follows the
    plan it announced.  A final event counts every entry once, as created
    or as failed, its entries are the tasks of the [ai.plan] event of the
    same stream, in the same order, and there is at least one; a created
    entry carries no error, a failed entry carries one.  And every task
    event is about a task of the announced plan. *)
Theorem POST_reports_follow_plan (toLowerCase : JSString -> JSString)
  (JSON_parse : JSString -> option JSON) (parseURL : JSString -> option JSString)
  (isIsoDatetime : JSString -> bool) (w : World) (data : PlanRequestBody) :
  followsPlan (POST toLowerCase JSON_parse parseURL isIsoDatetime w data).
Proof.
  unfold POST, planStream, tryCatch.
  destruct (reportsPlan_planBody toLowerCase JSON_parse parseURL isIsoDatetime
              w data []) as (added & Hsent & [Hfinal Htask]).
  destruct (planBody _ _ _ _ w data []) as [sent' [[]|e]]; cbn [fst app] in *;
    subst sent'.
  - split; assumption.
  - unfold send. cbn [fst]. split.
    + intros c f results Hin. apply in_app_or in Hin as [Hin|[Hin|[]]];
        [|discriminate].
      destruct (Hfinal c f results Hin) as (H1 & H2 & H3 & H4 & s & i & H5).
      repeat split; auto. exists s, i. apply in_or_app. now left.
    + intros st task id err Hin. apply in_app_or in Hin as [Hin|[Hin|[]]];
        [|discriminate].
      destruct (Htask st task id err Hin) as (s & tasks & i & H1 & H2).
      exists s, tasks, i. split; [|assumption]. apply in_or_app. now left.
Qed.

(** ** Failures around the connection *)

Lemma run_lift {A B} (a : A) (k : A -> Pipe B) (s : list StreamEvent) :
  bind (lift (Returned a)) k s = k a s.
Proof. reflexivity. Qed.

Lemma run_lift_then {A B C} (a : A) (f : A -> Pipe B) (g : B -> Pipe C)
  (s : list StreamEvent) :
  bind (bind (lift (Returned a)) f) g s = bind (f a) g s.
Proof. reflexivity. Qed.

Lemma run_caught {A B C} (e : JSString) (f : A -> Pipe B)
  (h : JSString -> Pipe B) (g : B -> Pipe C) (s : list StreamEvent) :
  bind (tryCatch (bind (lift (Threw e)) f) h) g s = bind (h e) g s.
Proof. reflexivity. Qed.

Lemma run_send_then {B C} (e : StreamEvent) (f : unit -> Pipe B)
  (g : B -> Pipe C) (s : list StreamEvent) :
  bind (bind (send e) f) g s = bind (f tt) g (s ++ [e]).
Proof. reflexivity. Qed.

Lemma run_ret {A B} (a : A) (g : A -> Pipe B) (s : list StreamEvent) :
  bind (ret a) g s = g a s.
Proof. reflexivity. Qed.

Lemma run_send {B} (e : StreamEvent) (k : unit -> Pipe B) (s : list StreamEvent) :
  bind (send e) k s = k tt (s ++ [e]).
Proof. reflexivity. Qed.



(** X19: when the transport cannot be built or the client cannot connect, the
    stream consists of the error event alone, with the message of what was
    thrown as its detail: no progress is reported and no model is asked. *)
Theorem POST_connection_failure (toLowerCase : JSString -> JSString)
  (JSON_parse : JSString -> option JSON) (parseURL : JSString -> option JSString)
  (isIsoDatetime : JSString -> bool) (w : World) (data : PlanRequestBody)
  (e : JSString)
  (Hfailed : createTransport parseURL (env w) = Threw e
             \/ ((exists t, createTransport parseURL (env w) = Returned (Some t))
                 /\ connect w = Threw e)) :
  POST toLowerCase JSON_parse parseURL isIsoDatetime w data
  = [ev_error (js "Failed to generate the plan") e].
Proof.
  unfold POST, planStream, planBody, tryCatch.
  destruct Hfailed as [H|[[t H] Hc]]; unfold bind at 1; unfold lift at 1;
    rewrite H; [reflexivity|].
  unfold bind at 1. unfold bind at 1. unfold lift at 1. rewrite Hc. reflexivity.
Qed.

Lemma POST_connection_failure_witness :
  POST asciiLower sampleParse sampleURL sampleDatetime
    {| env := {| TODOIST_MCP_URL := Some (js "not a url");
                 TODOIST_TOKEN := None |};
       connect := connect sampleWorld;
       listTools := listTools sampleWorld;
       intentResponse := intentResponse sampleWorld;
       listMetadata := listMetadata sampleWorld;
       planResponse := planResponse sampleWorld;
       createCall := createCall sampleWorld |} sampleRequest
  = [ev_error (js "Failed to generate the plan")
       (js "TODOIST_MCP_URL must be a valid URL")].
Proof.
  apply POST_connection_failure. left. reflexivity.
Defined.

Lemma syncWithTodoist_frame (JSON_parse : JSString -> option JSON)
  (parseURL : JSString -> option JSString)
  (callTool : nat -> JSString -> JSON -> Outcome JSON)
  (listed : Outcome (option (list Tool))) (tasks : list NormalizedTask)
  (env : CloudflareEnv) (input : PlanRequestBody)
  (availableTools : option (list Tool)) (sent : list StreamEvent) :
  syncWithTodoist JSON_parse parseURL callTool listed tasks env input
    availableTools sent
  = (sent ++ fst (syncWithTodoist JSON_parse parseURL callTool listed tasks env
                    input availableTools []),
     snd (syncWithTodoist JSON_parse parseURL callTool listed tasks env input
            availableTools [])).
Proof.
  unfold syncWithTodoist, bind, lift.
  destruct (ensureUrl parseURL _) as [url|e]; [|cbn; now rewrite app_nil_r].
  destruct (resolveToolName listed url _ availableTools) as [toolName|e];
    [|cbn; now rewrite app_nil_r].
  rewrite (syncLoop_spec _ _ _ _ _ _ _ sent), (syncLoop_spec _ _ _ _ _ _ _ []).
  reflexivity.
Qed.

(** X20: a failure to list the tools is not fatal.  It is reported as a
    [debug.error] event of stage [tools]; the run goes on without a
    catalog, hence without metadata and without inferred project or labels;
    and when the plan is generated the synchronisation lists the tools a
    second time on its own, the stream ending with the final event of that
    synchronisation, or with the error it throws. *)
Theorem POST_tool_listing_failure (toLowerCase : JSString -> JSString)
  (JSON_parse : JSString -> option JSON) (parseURL : JSString -> option JSString)
  (isIsoDatetime : JSString -> bool) (w : World) (data : PlanRequestBody)
  (t : Transport) (message : JSString) (plan : GeneratedPlan)
  (Htransport : createTransport parseURL (env w) = Returned (Some t))
  (Hconnect : connect w = Returned tt)
  (Hlist : listTools w 0%nat = Threw message)
  (Hplan : generatePlan toLowerCase isIsoDatetime w data
             (determineScenario (classifyIntent w) data) noMetadata
             (detectPriorityFromPrompt toLowerCase (prompt data)) None None
           = Returned plan) :
  let sync := syncWithTodoist JSON_parse parseURL (createCall w)
                (listTools w 1%nat) (tasks plan) (env w) data None [] in
  POST toLowerCase JSON_parse parseURL isIsoDatetime w data
  = [ ev_debug_error (js "tools") message;
      ev_status (js "ai:init") (js "Planning tasks with Workers AI");
      ev_status (js "intent:detect") (js "Analyzing the request intent");
      ev_status (js "intent:classified")
        (js "Detected scenario: " ++ intentName (intent (classifyIntent w)));
      ev_debug_metadata [] [];
      ev_debug_inference None None
        (detectPriorityFromPrompt toLowerCase (prompt data));
      ev_ai_plan (summary plan) (tasks plan) (intent (classifyIntent w)) ]
    ++ fst sync
    ++ [ match snd sync with
         | Returned results =>
             ev_final (List.length (filter (isStatus created) results))
               (List.length (filter (isStatus failed) results)) results
         | Threw e => ev_error (js "Failed to generate the plan") e
         end ].
Proof.
  cbv zeta. unfold POST, planStream, tryCatch, planBody.
  rewrite Htransport, run_lift. cbv beta zeta iota.
  rewrite Hconnect, run_lift_then. rewrite Hlist, run_caught, run_send_then, run_ret.
  rewrite !run_send. cbn [app].
  cbn [fetchTodoistMetadata]. rewrite run_lift, run_send.
  cbn [app noMetadata projects meta_labels inferProjectFromPrompt
         inferLabelsFromPrompt].
  change {| projects := []; meta_labels := [] |} with noMetadata.
  rewrite Hplan, run_lift, !run_send. cbn [app].
  rewrite determineScenario_intent.
  unfold bind at 1. rewrite syncWithTodoist_frame.
  destruct (snd (syncWithTodoist _ _ _ _ _ _ _ _ [])) as [results|e];
    unfold send; cbn [fst]; now rewrite <- app_assoc.
Qed.

Lemma POST_tool_listing_failure_witness :
  exists rest,
    POST asciiLower sampleParse sampleURL sampleDatetime flakyListingWorld
      sampleRequest
    = ev_debug_error (js "tools") (js "listing failed") :: rest
    /\ List.length rest = 13%nat.
Proof.
  eexists. split.
  - refine (POST_tool_listing_failure asciiLower sampleParse sampleURL
              sampleDatetime flakyListingWorld sampleRequest _
              (js "listing failed") _ eq_refl eq_refl eq_refl eq_refl).
  - reflexivity.
Defined.

Lemma createTransport_url (parseURL : JSString -> option JSString)
  (env : CloudflareEnv) (t : Transport) :
  createTransport parseURL env = Returned (Some t) ->
  ensureUrl parseURL (orEmpty (TODOIST_MCP_URL env)) = Returned (transport_url t)
  /\ TODOIST_TOKEN env = Some (transport_token t)
  /\ truthy (transport_token t) = true.
Proof.
  unfold createTransport. intro H.
  destruct (TODOIST_MCP_URL env) as [[|c u]|]; try discriminate H.
  cbn [orEmpty].
  destruct (ensureUrl parseURL (c :: u)) as [url|e]; cbn [bindO] in H;
    [|discriminate H].
  destruct (TODOIST_TOKEN env) as [[|c' tok]|]; try discriminate H.
  injection H as <-. repeat split.
Qed.

Lemma run_passed {A B C} (a : A) (f : A -> Pipe B)
  (h : JSString -> Pipe B) (g : B -> Pipe C) (s : list StreamEvent) :
  bind (tryCatch (bind (lift (Returned a)) f) h) g s
  = bind (tryCatch (f a) h) g s.
Proof. reflexivity. Qed.

Lemma run_passed_send {B C} (e : StreamEvent) (f : unit -> Pipe B)
  (h : JSString -> Pipe B) (g : B -> Pipe C) (s : list StreamEvent) :
  bind (tryCatch (bind (send e) f) h) g s
  = bind (tryCatch (f tt) h) g (s ++ [e]).
Proof. reflexivity. Qed.

Lemma run_passed_ret {B C} (b : B) (h : JSString -> Pipe B)
  (g : B -> Pipe C) (s : list StreamEvent) :
  bind (tryCatch (ret b) h) g s = g b s.
Proof. reflexivity. Qed.

(** X21: a catalog without a creation tool is fatal for the run, but only once
    the plan has been announced: the stream carries the catalog, the
    progress events and the plan, then ends with the error event naming the
    tools that are available; no task is attempted, so no task event is
    sent. *)
Theorem POST_without_creation_tool (toLowerCase : JSString -> JSString)
  (JSON_parse : JSString -> option JSON) (parseURL : JSString -> option JSString)
  (isIsoDatetime : JSString -> bool) (w : World) (data : PlanRequestBody)
  (t : Transport) (tools : list Tool) (context : TodoistMetadata)
  (plan : GeneratedPlan)
  (Htransport : createTransport parseURL (env w) = Returned (Some t))
  (Hconnect : connect w = Returned tt)
  (Hlist : listTools w 0%nat = Returned (Some tools))
  (Hnone : forall m, In m preferredCreateTools -> ~ In m (map tool_name tools))
  (Hmeta : fetchTodoistMetadata toLowerCase w true (Some tools) = Returned context)
  (Hplan : generatePlan toLowerCase isIsoDatetime w data
             (determineScenario (classifyIntent w) data) context
             (detectPriorityFromPrompt toLowerCase (prompt data))
             (inferProjectFromPrompt toLowerCase (prompt data) context)
             (inferLabelsFromPrompt toLowerCase (prompt data) context)
           = Returned plan) :
  POST toLowerCase JSON_parse parseURL isIsoDatetime w data
  = [ ev_debug_tools tools;
      ev_status (js "ai:init") (js "Planning tasks with Workers AI");
      ev_status (js "intent:detect") (js "Analyzing the request intent");
      ev_status (js "intent:classified")
        (js "Detected scenario: " ++ intentName (intent (classifyIntent w)));
      ev_debug_metadata (projects context) (meta_labels context);
      ev_debug_inference
        (inferProjectFromPrompt toLowerCase (prompt data) context)
        (inferLabelsFromPrompt toLowerCase (prompt data) context)
        (detectPriorityFromPrompt toLowerCase (prompt data));
      ev_ai_plan (summary plan) (tasks plan) (intent (classifyIntent w));
      ev_error (js "Failed to generate the plan")
        (js "No Todoist create task tool found. Available tools: "
         ++ (match join (js ", ") (map tool_name tools) with
             | [] => js "none"
             | names => names
             end)
         ++ js " @ " ++ transport_url t) ].
Proof.
  destruct (createTransport_url parseURL (env w) t Htransport)
    as (Hurl & Htoken & Htruthy).
  unfold POST, planStream. unfold tryCatch at 1. unfold planBody.
  rewrite Htransport, run_lift. cbv beta zeta iota.
  rewrite Hconnect, run_lift_then.
  rewrite Hlist, run_passed, run_passed_send, run_passed_ret. rewrite !run_send. cbn [app].
  rewrite Hmeta, run_lift, run_send. cbn [app].
  rewrite Hplan, run_lift, !run_send. cbn [app].
  rewrite determineScenario_intent.
  unfold syncWithTodoist. rewrite Hurl, Htoken.
  unfold resolveToolName. cbn [truthyOpt]. rewrite Htruthy. cbn [negb bindO].
  destruct (find _ preferredCreateTools) as [c|] eqn:Hfind.
  - apply find_some in Hfind as [Hin Hoff]. apply offers_name in Hoff.
    destruct (Hnone c Hin Hoff).
  - unfold bind, lift, send. cbn [fst].
    destruct (join (js ", ") (map tool_name tools)); reflexivity.
Qed.

Lemma POST_without_creation_tool_witness :
  last (POST asciiLower sampleParse sampleURL sampleDatetime readOnlyWorld
          sampleRequest) (ev_status [] [])
  = ev_error (js "Failed to generate the plan")
      (js "No Todoist create task tool found. Available tools: find-tasks @ https://ai.todoist.net/mcp").
Proof.
  rewrite (POST_without_creation_tool asciiLower sampleParse sampleURL
             sampleDatetime readOnlyWorld sampleRequest
             {| transport_url := js "https://ai.todoist.net/mcp";
                transport_token := js "secret" |}
             [ {| tool_name := js "find-tasks";
                  tool_description := Some (js "Find tasks") |} ]
             noMetadata
             {| summary := None;
                tasks := [normalizedTitled "Write report";
                          normalizedTitled "Meet client";
                          normalizedTitled "Recap"] |}
             eq_refl eq_refl eq_refl).
  - reflexivity.
  - intros m Hm Hin. cbn in Hm, Hin.
    destruct Hin as [<-|[]].
    repeat (destruct Hm as [Hm|Hm]; [discriminate Hm|]). destruct Hm.
  - reflexivity.
  - reflexivity.
Defined.

(** ** Reading the stream in the page *)

Lemma splitOn_nonempty (sep : N) (s : JSString) : splitOn sep s <> [].
Proof.
  destruct s as [|c s]; cbn; [discriminate|].
  destruct (N.eqb c sep); [discriminate|].
  destruct (splitOn sep s); discriminate.
Qed.

Lemma splitOn_absent (sep : N) (s : JSString) :
  ~ In sep s -> splitOn sep s = [s].
Proof.
  induction s as [|c s IH]; intro H; [reflexivity|].
  cbn. destruct (N.eqb_spec c sep) as [->|Hne].
  - destruct H. now left.
  - rewrite IH; [reflexivity|]. intro Hin. apply H. now right.
Qed.

Lemma splitOn_first (sep : N) (before after : JSString) :
  ~ In sep before ->
  splitOn sep (before ++ sep :: after) = before :: splitOn sep after.
Proof.
  induction before as [|c before IH]; intro H; cbn.
  - now rewrite N.eqb_refl.
  - destruct (N.eqb_spec c sep) as [->|Hne].
    + destruct H. now left.
    + rewrite IH; [reflexivity|]. intro Hin. apply H. now right.
Qed.

Lemma indexOfUnit_split (c : N) (s : JSString) (i : nat) :
  indexOfUnit c s = Some i ->
  exists before after,
    s = before ++ c :: after /\ ~ In c before /\ i = List.length before.
Proof.
  revert i. induction s as [|x s IH]; intros i H; [discriminate H|].
  cbn in H. destruct (N.eqb_spec x c) as [->|Hne].
  - injection H as <-. exists [], s. repeat split. intros [].
  - destruct (indexOfUnit c s) as [j|]; [|discriminate H].
    injection H as <-.
    destruct (IH j eq_refl) as (before & after & -> & Hout & ->).
    exists (x :: before), after. repeat split.
    intros [Heq|Hin]; [now apply Hne|now apply Hout].
Qed.

Lemma indexOfUnit_none (c : N) (s : JSString) :
  indexOfUnit c s = None -> ~ In c s.
Proof.
  induction s as [|x s IH]; intros H Hin; [destruct Hin|].
  cbn in H. destruct (N.eqb_spec x c) as [->|Hne]; [discriminate H|].
  destruct (indexOfUnit c s); [discriminate H|].
  destruct Hin as [Heq|Hin]; [now apply Hne|now apply IH].
Qed.

Lemma last_cons_nonempty {A} (x d : A) (l : list A) :
  l <> [] -> last (x :: l) d = last l d.
Proof. destruct l; [congruence|reflexivity]. Qed.

Lemma removelast_cons_nonempty {A} (x : A) (l : list A) :
  l <> [] -> removelast (x :: l) = x :: removelast l.
Proof. destruct l; [congruence|reflexivity]. Qed.

Lemma flushLoop_split (fuel : nat) : forall (remaining : JSString)
  (delivered : list JSString),
  (List.length remaining < fuel)%nat ->
  Page.flushLoop fuel remaining delivered
  = (last (splitOn 10 remaining) [],
     delivered
     ++ filter truthy (map trim (removelast (splitOn 10 remaining)))).
Proof.
  induction fuel as [|fuel IH]; intros remaining delivered Hfuel; [lia|].
  cbn [Page.flushLoop].
  destruct (indexOfUnit 10 remaining) as [i|] eqn:Hindex.
  - destruct (indexOfUnit_split _ _ _ Hindex) as (before & after & -> & Hout & ->).
    assert (Hline : slice 0 (List.length before) (before ++ 10%N :: after) = before).
    { unfold slice. rewrite Nat.sub_0_r. cbn [skipn].
      rewrite firstn_app, Nat.sub_diag, firstn_all. cbn. apply app_nil_r. }
    assert (Hrest : skipn (S (List.length before)) (before ++ 10%N :: after) = after).
    { clear. induction before as [|x before IHb]; [reflexivity|exact IHb]. }
    rewrite Hline, Hrest, IH by (rewrite length_app in Hfuel; cbn in Hfuel; lia).
    rewrite splitOn_first by assumption.
    rewrite last_cons_nonempty, removelast_cons_nonempty
      by apply splitOn_nonempty.
    cbn [map filter]. destruct (trim before); cbn [truthy].
    + reflexivity.
    + now rewrite <- app_assoc.
  - rewrite splitOn_absent by now apply indexOfUnit_none.
    cbn. now rewrite app_nil_r.
Qed.

(** X22: [flushLines] does what splitting the buffer at its line breaks does:
    the pieces before the last one are trimmed and, unless blank, handed to
    the callback in order, and the last piece, which has no line break, is
    what remains.  The loop always leaves through its [break]. *)
Theorem flushLines_split (buffer : JSString) :
  Page.flushLines buffer
  = (last (splitOn 10 buffer) [],
     filter truthy (map trim (removelast (splitOn 10 buffer)))).
Proof.
  unfold Page.flushLines. rewrite flushLoop_split by lia. reflexivity.
Qed.

Lemma splitOn_pieces (sep : N) (s : JSString) :
  Forall (fun piece => ~ In sep piece) (splitOn sep s).
Proof.
  induction s as [|c s IH]; cbn.
  - constructor; [intros []|constructor].
  - destruct (N.eqb_spec c sep) as [->|Hne].
    + constructor; [intros []|exact IH].
    + destruct (splitOn sep s) as [|piece pieces].
      * constructor; [|constructor]. intros [Heq|[]]. now apply Hne.
      * inversion IH as [|? ? Hpiece Hpieces]; subst. constructor; [|exact Hpieces].
        intros [Heq|Hin]; [now apply Hne|now apply Hpiece].
Qed.

Lemma last_app_nonempty {A} (l l' : list A) (d : A) :
  l' <> [] -> last (l ++ l') d = last l' d.
Proof.
  intro H. induction l as [|x l IH]; [reflexivity|].
  cbn [app]. rewrite last_cons_nonempty; [exact IH|].
  destruct l; [exact H|discriminate].
Qed.

Lemma splitOn_last_clean (sep : N) (s : JSString) :
  ~ In sep (last (splitOn sep s) []).
Proof.
  pose proof (splitOn_pieces sep s) as Hall.
  pose proof (splitOn_nonempty sep s) as Hne.
  rewrite Forall_forall in Hall. apply Hall.
  destruct (exists_last Hne) as (front & piece & ->).
  rewrite last_last. apply in_or_app. right. now left.
Qed.

Lemma splitOn_app (sep : N) (a b : JSString) :
  splitOn sep (a ++ b)
  = removelast (splitOn sep a) ++ splitOn sep (last (splitOn sep a) [] ++ b).
Proof.
  induction a as [|c a IH]; [reflexivity|].
  cbn [app splitOn]. destruct (N.eqb c sep) eqn:Hc.
  - rewrite last_cons_nonempty, removelast_cons_nonempty
      by apply splitOn_nonempty.
    cbn [app]. now rewrite IH.
  - rewrite IH. pose proof (splitOn_nonempty sep a) as Hne.
    destruct (splitOn sep a) as [|piece [|next pieces]]; [congruence| |].
    + cbn [removelast last app splitOn]. now rewrite Hc.
    + rewrite last_cons_nonempty, removelast_cons_nonempty by discriminate.
      rewrite (last_cons_nonempty (c :: piece)),
        (removelast_cons_nonempty (c :: piece)) by discriminate.
      reflexivity.
Qed.

Lemma readLoop_split : forall (chunks : list JSString) (buffer : JSString)
  (delivered : list JSString),
  ~ In 10%N buffer ->
  Page.readLoop chunks buffer delivered
  = (last (splitOn 10 (buffer ++ List.concat chunks)) [],
     delivered
     ++ filter truthy
          (map trim (removelast (splitOn 10 (buffer ++ List.concat chunks))))).
Proof.
  induction chunks as [|value rest IH]; intros buffer delivered Hclean.
  - cbn [Page.readLoop List.concat]. rewrite app_nil_r, splitOn_absent by assumption.
    cbn. now rewrite app_nil_r.
  - cbn [Page.readLoop List.concat]. unfold Page.flushLines.
    rewrite flushLoop_split by lia.
    rewrite IH by apply splitOn_last_clean.
    rewrite (app_assoc buffer value), (splitOn_app 10 (buffer ++ value)).
    rewrite last_app_nonempty, removelast_app by apply splitOn_nonempty.
    now rewrite map_app, filter_app, <- !app_assoc.
Qed.

Lemma readLines_split (chunks : list JSString) :
  Page.readLines chunks
  = (let pieces := splitOn 10 (List.concat chunks) in
     filter truthy (map trim (removelast pieces))
     ++ match trim (last pieces []) with
        | [] => []
        | _ :: _ => [last pieces []]
        end).
Proof.
  unfold Page.readLines. rewrite readLoop_split by intros [].
  cbn [app]. cbv zeta. destruct (trim (last _ _)); [now rewrite app_nil_r|reflexivity].
Qed.

(** X23: how the response is cut into chunks makes no difference to the page:
    the lines handed on are those of the whole text read as one chunk. *)
Theorem readLines_chunking (chunks : list JSString) :
  Page.readLines chunks = Page.readLines [List.concat chunks].
Proof.
  rewrite !readLines_split. cbn [List.concat]. now rewrite app_nil_r.
Qed.

Lemma splitOn_writeLines (lines : list JSString) :
  Forall (fun line => ~ In 10%N line) lines ->
  splitOn 10 (Page.writeLines lines) = lines ++ [[]].
Proof.
  unfold Page.writeLines.
  induction 1 as [|line lines Hline _ IH]; [reflexivity|].
  cbn [map List.concat]. rewrite <- app_assoc. cbn [app].
  rewrite splitOn_first by assumption. now rewrite IH.
Qed.

Lemma lines_kept (lines : list JSString) :
  Forall Page.isLine lines -> filter truthy (map trim lines) = lines.
Proof.
  induction 1 as [|line lines (Hne & Htrim & _) _ IH]; [reflexivity|].
  cbn [map filter]. rewrite Htrim, IH.
  destruct line; [congruence|reflexivity].
Qed.

(** X24: lines written one after the other, each followed by a line break, are
    read back as they were written, in order and none twice, however the
    text is cut into chunks on its way. *)
Theorem readLines_round_trip (lines chunks : list JSString)
  (Hlines : Forall Page.isLine lines)
  (Hchunks : List.concat chunks = Page.writeLines lines) :
  Page.readLines chunks = lines.
Proof.
  rewrite readLines_split, Hchunks. cbv zeta.
  rewrite splitOn_writeLines.
  - rewrite last_last, removelast_last, lines_kept by assumption.
    change (trim []) with (@nil N). apply app_nil_r.
  - eapply Forall_impl; [|exact Hlines]. intros line H. apply H.
Qed.

Lemma readLines_round_trip_witness :
  Page.readLines [js "{sta"; js "tus}" ++ [10%N] ++ js "{fin"; js "al}" ++ [10%N]]
  = [js "{status}"; js "{final}"].
Proof.
  apply readLines_round_trip; [|reflexivity].
  repeat constructor; try discriminate; vm_compute; intuition discriminate.
Defined.

(** ** The allowed origin *)

Lemma configured_entry (allowed origin : JSString) :
  In origin (filter truthy (map trim (splitOn 44 allowed)))
  <-> origin <> []
      /\ exists entry, In entry (splitOn 44 allowed) /\ trim entry = origin.
Proof.
  rewrite filter_In, in_map_iff. split.
  - intros [(entry & Htrim & Hin) Htruthy]. split; [|now exists entry].
    intros ->. discriminate Htruthy.
  - intros [Hne (entry & Hin & Htrim)]. split; [now exists entry|].
    destruct origin; [congruence|reflexivity].
Qed.

(** X25: the origin that [resolveOrigin] returns is always one of the configured
    entries, trimmed and not empty, and it is the origin of the request
    whenever the request names one: an origin that is not listed is never
    echoed.  The request is forbidden exactly when it names an origin that
    is not listed, and the error is thrown only when no entry is left. *)
Theorem resolveOrigin_listed (requestOrigin : option JSString)
  (allowed : JSString) :
  match resolveOrigin requestOrigin allowed with
  | inl origin =>
      origin <> []
      /\ (exists entry, In entry (splitOn 44 allowed) /\ trim entry = origin)
      /\ (truthyOpt requestOrigin = true -> requestOrigin = Some origin)
  | inr forbidden =>
      exists named, requestOrigin = Some named /\ named <> []
        /\ (forall entry, In entry (splitOn 44 allowed) -> trim entry <> named)
  | inr (originError message) =>
      message = js "FRONTEND_ORIGIN is not configured"
      /\ forall entry, In entry (splitOn 44 allowed) -> trim entry = []
  end.
Proof.
  unfold resolveOrigin.
  destruct (filter truthy (map trim (splitOn 44 allowed)))
    as [|first configured] eqn:Hconfigured.
  - split; [reflexivity|]. intros entry Hin.
    destruct (trim entry) as [|c rest] eqn:Htrim; [reflexivity|].
    assert (Hlisted : In (c :: rest) (filter truthy (map trim (splitOn 44 allowed)))).
    { apply configured_entry. split; [discriminate|now exists entry]. }
    rewrite Hconfigured in Hlisted. destruct Hlisted.
  - assert (Hfirst : In first (filter truthy (map trim (splitOn 44 allowed))))
      by (rewrite Hconfigured; now left).
    apply configured_entry in Hfirst as [Hne Hentry].
    destruct requestOrigin as [[|c origin]|].
    + repeat split; try assumption. discriminate.
    + destruct (existsb _ _) eqn:Hlisted.
      * apply existsb_exists in Hlisted as (listed & Hin & Heq).
        apply eqb_eq in Heq. subst listed.
        rewrite <- Hconfigured in Hin. apply configured_entry in Hin as [_ Hin].
        repeat split; [discriminate|exact Hin].
      * exists (c :: origin). repeat split; [discriminate|].
        intros entry Hin Htrim.
        assert (Hmember : In (c :: origin)
                            (filter truthy (map trim (splitOn 44 allowed)))).
        { apply configured_entry. split; [discriminate|now exists entry]. }
        rewrite Hconfigured in Hmember.
        assert (Hfound : existsb (eqb (c :: origin)) (first :: configured) = true).
        { apply existsb_exists. exists (c :: origin). split; [exact Hmember|].
          apply eqb_refl. }
        congruence.
    + repeat split; try assumption. discriminate.
Qed.

(** ** Validated requests and the scenario *)

(** X26: for a request that passed validation the clamping of the scenario
    leaves nothing to clamp: the task budget is the requested one for a
    general plan, the requested one raised to two for a multi-step plan,
    twice the days for a recipe plan and one for a reminder, and a request
    that names no budget asks for five. *)
Theorem requestSchema_bounds_scenario (raw : RequestShape)
  (data : PlanRequestBody) (decision : IntentDecision)
  (Hparsed : requestSchema_safeParse raw = Some data) :
  prompt data <> []
  /\ 1 <= req_maxTasks data <= 10
  /\ (raw_maxTasks raw = None -> req_maxTasks data = 5)
  /\ maxTasks (determineScenario decision data)
     = match intent decision with
       | single_reminder => 1
       | recipe_plan =>
           2 * Z.min (Z.max (match days decision with
                             | Some d => d
                             | None => 3
                             end) 1) 5
       | multi_step_plan => Z.max 2 (req_maxTasks data)
       | general_plan => req_maxTasks data
       end.
Proof.
  unfold requestSchema_safeParse in Hparsed.
  destruct (minLength 1 (raw_prompt raw)) eqn:Hprompt; [|discriminate Hparsed].
  cbn [andb] in Hparsed.
  repeat match type of Hparsed with
         | (if ?c && ?d then _ else _) = _ =>
             let H := fresh "Hcheck" in
             destruct d eqn:H;
             [rewrite Bool.andb_true_r in Hparsed
             |rewrite Bool.andb_false_r in Hparsed; discriminate Hparsed]
         end.
  destruct (optAll _ (raw_timezone raw)); [|discriminate Hparsed].
  injection Hparsed as <-. cbn [prompt req_maxTasks].
  assert (Hrange : 1 <= match raw_maxTasks raw with Some m => m | None => 5 end <= 10).
  { destruct (raw_maxTasks raw) as [m|]; [|lia].
    cbn [optAll] in Hcheck. unfold MIN_TASKS, MAX_TASKS in Hcheck. lia. }
  repeat split; try apply Hrange.
  - intros Hempty. rewrite Hempty in Hprompt. discriminate Hprompt.
  - now intros ->.
  - unfold determineScenario, clampMax, MIN_TASKS, MAX_TASKS.
    destruct (intent decision); cbn [maxTasks req_maxTasks]; lia.
Qed.

Lemma requestSchema_bounds_scenario_witness :
  maxTasks
    (determineScenario
       {| intent := multi_step_plan; decision_summary := None;
          days := None; keywords := None |}
       {| prompt := js "Plan my day"; timezone := None; req_due := None;
          preferences := None; req_labels := None; req_priority := None;
          req_maxTasks := 1 |})
  = 2.
Proof.
  refine (proj2 (proj2 (proj2
    (requestSchema_bounds_scenario
       {| raw_prompt := js "Plan my day"; raw_timezone := None;
          raw_due := None; raw_preferences := None; raw_labels := None;
          raw_priority := None; raw_maxTasks := Some 1 |}
       _
       {| intent := multi_step_plan; decision_summary := None;
          days := None; keywords := None |}
       eq_refl)))).
Defined.

(** ** Basic authentication *)

Lemma slice_before (before after : JSString) (c : N) :
  slice 0 (List.length before) (before ++ c :: after) = before.
Proof.
  unfold slice. rewrite Nat.sub_0_r. cbn [skipn].
  rewrite firstn_app, Nat.sub_diag, firstn_all. cbn. apply app_nil_r.
Qed.

Lemma skipn_after (before after : JSString) (c : N) :
  skipn (S (List.length before)) (before ++ c :: after) = after.
Proof. induction before as [|x before IH]; [reflexivity|exact IH]. Qed.

(** X27: a request passes the middleware exactly when both secrets are set and
    not empty and the authorization header is ["Basic "] followed by text
    that decodes to the user name, a colon and the password; the decoded
    text is cut at its first colon, so a configured user name that contains
    a colon admits nobody.  The middleware answers that it is not
    configured exactly when a secret is missing or empty, whatever the
    request carries. *)
Theorem middleware_admits (decodeBase64 : JSString -> JSString)
  (username password header : option JSString) :
  (Middleware.middleware decodeBase64 username password header = Middleware.next
   <-> exists user pass encoded,
         username = Some user /\ password = Some pass
         /\ user <> [] /\ pass <> []
         /\ header = Some (js "Basic " ++ encoded)
         /\ decodeBase64 encoded = user ++ [58%N] ++ pass
         /\ ~ In 58%N user)
  /\ (Middleware.middleware decodeBase64 username password header
      = Middleware.notConfigured
      <-> truthyOpt username = false \/ truthyOpt password = false).
Proof.
  unfold Middleware.middleware. split.
  - split.
    + intro H.
      destruct username as [[|u user]|]; try discriminate H.
      destruct password as [[|p pass]|]; try discriminate H.
      destruct header as [header|]; [|discriminate H].
      destruct (stripPrefix (js "Basic ") header) as [encoded|] eqn:Hprefix;
        [|discriminate H].
      apply stripPrefix_spec in Hprefix.
      destruct (indexOfUnit 58 (decodeBase64 encoded)) as [separator|] eqn:Hindex;
        [|discriminate H].
      destruct (indexOfUnit_split _ _ _ Hindex)
        as (before & after & Hdecoded & Hclean & ->).
      rewrite Hdecoded, slice_before, skipn_after in H.
      destruct (eqb before (u :: user)) eqn:Huser; [|discriminate H].
      destruct (eqb after (p :: pass)) eqn:Hpass; [|discriminate H].
      apply eqb_eq in Huser, Hpass. subst before after.
      exists (u :: user), (p :: pass), encoded.
      repeat split; try discriminate; try assumption. now rewrite Hprefix.
    + intros (user & pass & encoded & -> & -> & Huser & Hpass & -> & Hdecoded & Hclean).
      destruct user as [|u user]; [congruence|].
      destruct pass as [|p pass]; [congruence|].
      assert (Hprefix : stripPrefix (js "Basic ") (js "Basic " ++ encoded) = Some encoded)
        by now apply stripPrefix_spec.
      rewrite Hprefix, Hdecoded.
      change ((u :: user) ++ [58%N] ++ p :: pass)
        with ((u :: user) ++ 58%N :: p :: pass).
      rewrite indexOfUnit_first, slice_before, skipn_after by assumption.
      now rewrite !eqb_refl.
  - split.
    + intro H.
      destruct username as [[|u user]|]; try (now left).
      destruct password as [[|p pass]|]; try (now right).
      destruct header as [header|]; [|discriminate H].
      destruct (stripPrefix _ header); [|discriminate H].
      destruct (indexOfUnit _ _); [|discriminate H].
      destruct (negb _ || negb _); discriminate H.
    + intros [H|H].
      * destruct username as [[|u user]|]; try reflexivity. discriminate H.
      * destruct username as [[|u user]|]; try reflexivity.
        destruct password as [[|p pass]|]; try reflexivity. discriminate H.
Qed.

(** ** The transcription route *)

Lemma estimatedBytes_guard (payload : JSString) :
  (Transcribe.MAX_AUDIO_BYTES <? Transcribe.estimatedBytes payload) = true
  <-> 11184811 < Z.of_nat (List.length payload).
Proof.
  unfold Transcribe.MAX_AUDIO_BYTES, Transcribe.estimatedBytes.
  rewrite Z.ltb_lt. split; intro H.
  - Z.div_mod_to_equations. lia.
  - Z.div_mod_to_equations. lia.
Qed.

(** X28: the size guard of the transcription route, in terms of what is sent: a
    body is refused as too large exactly when it is valid and its audio
    text is longer than 11184811 code units, and refused as invalid exactly
    when it has not the shape of the schema, its audio text is shorter than
    16 code units or its language hint shorter than 2. *)
Theorem transcribe_size_guard
  (run : Transcribe.WhisperPayload -> Outcome (option Transcribe.WhisperResponse))
  (body : option Transcribe.WhisperRequest) :
  (Transcribe.POST run body = Transcribe.tooLarge
   <-> exists raw, body = Some raw
         /\ 11184811 < Z.of_nat (List.length (Transcribe.audio raw))
         /\ (forall hint, Transcribe.language raw = Some hint ->
               (2 <= List.length hint)%nat))
  /\ (Transcribe.POST run body = Transcribe.invalid
      <-> forall raw, body = Some raw ->
            (List.length (Transcribe.audio raw) < 16)%nat
            \/ exists hint, Transcribe.language raw = Some hint
                 /\ (List.length hint < 2)%nat).
Proof.
  unfold Transcribe.POST, Transcribe.whisperRequestSchema_safeParse, minLength.
  destruct body as [raw|].
  2:{ split; split.
      - discriminate.
      - intros (raw & H & _). discriminate H.
      - intros _ raw H. discriminate H.
      - reflexivity. }
  pose proof (estimatedBytes_guard (Transcribe.audio raw)) as Hguard.
  assert (Hreply : forall data : Transcribe.WhisperRequest,
            let answered :=
              match run {| Transcribe.payload_audio := Transcribe.audio data;
                           Transcribe.payload_language :=
                             if truthyOpt (Transcribe.language data)
                             then Transcribe.language data else None;
                           Transcribe.payload_task := Transcribe.task data |} with
              | Returned (Some response) =>
                  match Transcribe.text response with
                  | Some ((_ :: _) as t) =>
                      Transcribe.transcript t
                        (Transcribe.transcription_language response)
                  | _ => Transcribe.failedReply
                  end
              | _ => Transcribe.failedReply
              end in
            answered <> Transcribe.tooLarge /\ answered <> Transcribe.invalid).
  { intros data. cbv zeta. destruct (run _) as [[response|]|];
      [|split; discriminate..].
    destruct (Transcribe.text response) as [[|c t]|]; split; discriminate. }
  destruct (Nat.leb_spec 16 (List.length (Transcribe.audio raw))) as [Hlong|Hshort];
    cbn [andb].
  2:{ split; split.
      - discriminate.
      - intros (r & [= <-] & Hlen & _). lia.
      - intros _ r [= <-]. now left.
      - reflexivity. }
  destruct (optAll _ (Transcribe.language raw)) eqn:Hhint.
  2:{ destruct (Transcribe.language raw) as [hint|] eqn:Hlang; [|discriminate Hhint].
      cbn [optAll] in Hhint. apply Nat.leb_gt in Hhint.
      split; split.
      - discriminate.
      - intros (r & [= <-] & _ & H). specialize (H hint Hlang). lia.
      - intros _ r [= <-]. right. exists hint. now split.
      - reflexivity. }
  assert (Hhints : forall hint, Transcribe.language raw = Some hint ->
                     (2 <= List.length hint)%nat).
  { intros hint Heq. rewrite Heq in Hhint. now apply Nat.leb_le in Hhint. }
  assert (Hvalid : ~ (forall r, Some raw = Some r ->
                        (List.length (Transcribe.audio r) < 16)%nat
                        \/ exists hint, Transcribe.language r = Some hint
                             /\ (List.length hint < 2)%nat)).
  { intro H. destruct (H raw eq_refl) as [H'|(hint & Heq & H')]; [lia|].
    specialize (Hhints hint Heq). lia. }
  destruct (Transcribe.MAX_AUDIO_BYTES <? _) eqn:Hsize.
  - split; split.
    + intros _. exists raw. repeat split; [now apply Hguard|exact Hhints].
    + reflexivity.
    + discriminate.
    + intro H. destruct (Hvalid H).
  - destruct (Hreply raw) as [Hnot_large Hnot_invalid]. split; split.
    + intro H. destruct (Hnot_large H).
    + intros (r & [= <-] & Hlen & _). apply Hguard in Hlen. congruence.
    + intro H. destruct (Hnot_invalid H).
    + intro H. destruct (Hvalid H).
Qed.

Lemma valid_hint_forwarded (language : option JSString) :
  optAll (minLength 2) language = true ->
  (if truthyOpt language then language else None) = language.
Proof.
  destruct language as [[|c hint]|]; [discriminate|reflexivity..].
Qed.

(** X29: the route answers with a transcript exactly when the body is valid and
    within the size guard, the model, given the audio text with the
    language hint and the task as sent, answers with an object, and the
    text of the answer is not empty; the transcript is then that text, with
    the language the model reported. *)
Theorem transcribe_transcript
  (run : Transcribe.WhisperPayload -> Outcome (option Transcribe.WhisperResponse))
  (body : option Transcribe.WhisperRequest) :
  forall t l,
    Transcribe.POST run body = Transcribe.transcript t l
    <-> exists raw response,
           body = Some raw
           /\ 16 <= Z.of_nat (List.length (Transcribe.audio raw)) <= 11184811
           /\ (forall hint, Transcribe.language raw = Some hint ->
                 (2 <= List.length hint)%nat)
           /\ run {| Transcribe.payload_audio := Transcribe.audio raw;
                     Transcribe.payload_language := Transcribe.language raw;
                     Transcribe.payload_task := Transcribe.task raw |}
              = Returned (Some response)
           /\ Transcribe.text response = Some t /\ t <> []
           /\ l = Transcribe.transcription_language response.
Proof.
  intros t l.
  unfold Transcribe.POST, Transcribe.whisperRequestSchema_safeParse.
  destruct body as [raw|].
  2:{ split; [discriminate|]. intros (raw & ? & H & _). discriminate H. }
  pose proof (estimatedBytes_guard (Transcribe.audio raw)) as Hguard.
  unfold minLength at 1.
  destruct (Nat.leb_spec 16 (List.length (Transcribe.audio raw))) as [Hlong|Hshort];
    cbn [andb].
  2:{ split; [discriminate|]. intros (r & ? & [= <-] & Hlen & _). lia. }
  destruct (optAll _ (Transcribe.language raw)) eqn:Hhint.
  2:{ split; [discriminate|]. intros (r & ? & [= <-] & _ & H & _).
      destruct (Transcribe.language raw) as [hint|]; [|discriminate Hhint].
      cbn [optAll] in Hhint. apply Nat.leb_gt in Hhint.
      specialize (H hint eq_refl). lia. }
  rewrite (valid_hint_forwarded _ Hhint).
  destruct (Transcribe.MAX_AUDIO_BYTES <? _) eqn:Hsize.
  - split; [discriminate|]. intros (r & ? & [= <-] & Hlen & _).
    pose proof (proj1 Hguard eq_refl). lia.
  - assert (Hfits : ~ 11184811 < Z.of_nat (List.length (Transcribe.audio raw))).
    { intro H. apply Hguard in H. discriminate H. }
    split.
    + intro H. destruct (run _) as [[response|]|] eqn:Hrun; try discriminate H.
      destruct (Transcribe.text response) as [[|c t']|] eqn:Htext;
        try discriminate H.
      injection H as <- <-. exists raw, response.
      repeat split; try assumption; try lia; try discriminate.
      intros hint Heq. rewrite Heq in Hhint. now apply Nat.leb_le in Hhint.
    + intros (r & response & [= <-] & _ & _ & Hrun & Htext & Hne & ->).
      rewrite Hrun, Htext. destruct t; [congruence|reflexivity].
Qed.

(** ** Replies to a creation call *)

Lemma parseToolJson_well_formed (JSON_parse : JSString -> option JSON)
  (response : JSON) :
  wellFormedResult response = true ->
  exists payload, parseToolJson JSON_parse response = Returned payload.
Proof.
  intro Hshape. unfold parseToolJson. cbv zeta.
  destruct (negb (isUndefined (extractStructuredContent response)));
    [eexists; reflexivity|].
  destruct (extractToolJsonBlock_well_formed response Hshape) as (block & ->).
  cbn [bindO].
  destruct (negb (isUndefined block)).
  - destruct block; try (eexists; reflexivity).
    destruct (JSON_parse s); eexists; reflexivity.
  - destruct (extractToolText_well_formed response Hshape) as (text & ->).
    cbn [bindO]. destruct text as [[|c t]|]; try (eexists; reflexivity).
    destruct (JSON_parse (c :: t)); eexists; reflexivity.
Qed.

Lemma parseTodoistResponse_well_formed (JSON_parse : JSString -> option JSON)
  (response : JSON) :
  wellFormedResult response = true ->
  exists id, parseTodoistResponse JSON_parse response = Returned id.
Proof.
  intro Hshape. unfold parseTodoistResponse.
  destruct (parseToolJson_well_formed JSON_parse response Hshape) as (payload & ->).
  cbn [bindO]. destruct (truthyJ payload); [eexists; reflexivity|].
  destruct (extractToolText_well_formed response Hshape) as (text & ->).
  eexists; reflexivity.
Qed.

(** X30: once the server has answered a creation call with a result of the shape
    the SDK hands over, the task counts as created, whatever the result
    holds: the two events of the task are the pending one and the created
    one, the entry of the results is a created one without an error, and
    the identifier is whatever could be read from the result, [undefined]
    included. *)
Theorem syncTask_created_on_reply (JSON_parse : JSString -> option JSON)
  (callTool : nat -> JSString -> JSON -> Outcome JSON)
  (input : PlanRequestBody) (toolName : JSString) (index : nat)
  (task : NormalizedTask) (results : list TodoistTaskResult)
  (sent : list StreamEvent) (response : JSON)
  (Hcall :
     callTool index toolName
       (if eqb toolName (js "add-tasks") || eqb toolName (js "add_tasks")
        then JObj [(js "tasks", JArr [toTodoistArgs task input style_string])]
        else toTodoistArgs task input style_number)
     = Returned response)
  (Hshape : wellFormedResult response = true) :
  exists id,
    parseTodoistResponse JSON_parse response = Returned id
    /\ syncTask JSON_parse callTool input toolName index task results sent
       = (sent ++ [ev_todoist_task pending task JUndefined None;
                   ev_todoist_task created task id None],
          Returned (results ++ [ {| planned := task; status := created;
                                    todoistId := id; error := None |} ])).
Proof.
  destruct (parseTodoistResponse_well_formed JSON_parse response Hshape)
    as (id & Hid).
  exists id. split; [exact Hid|].
  unfold syncTask. cbv zeta.
  destruct (eqb toolName (js "add-tasks") || eqb toolName (js "add_tasks"));
    unfold bind, send, tryCatch, lift, ret; cbn [fst snd];
    rewrite Hcall, Hid; cbn; now rewrite <- app_assoc.
Qed.

Lemma syncTask_created_on_reply_witness :
  exists id,
    parseTodoistResponse sampleParse (JObj []) = Returned id
    /\ syncTask sampleParse (fun _ _ _ => Returned (JObj [])) sampleRequest
         (js "add-task") 0 (normalizedTitled "Recap") [] []
       = ([ev_todoist_task pending (normalizedTitled "Recap") JUndefined None;
           ev_todoist_task created (normalizedTitled "Recap") id None],
          Returned [ {| planned := normalizedTitled "Recap"; status := created;
                        todoistId := id; error := None |} ]).
Proof.
  apply (syncTask_created_on_reply sampleParse (fun _ _ _ => Returned (JObj []))
           sampleRequest (js "add-task") 0 (normalizedTitled "Recap") [] []
           (JObj []));
    reflexivity.
Defined.
